(** * Test-time adaptation evaluation: the driver [evaluate] of
      [test_time.py] and the loss functions of [utils/losses.py].

    The driver is embedded as a state-and-exception monad over an explicit
    driver state (the Python locals that are mutated in the loops, the
    external world, and the trace of external calls and log records).  The
    loss functions are embedded over a store of tensor and module objects,
    every tensor-library operation allocating its result.

    Numbers are Python floats and ints; their arithmetic is kept abstract
    ([Numeric]), so that no law of real arithmetic is ever assumed. *)

From Stdlib Require Floats.
From Stdlib Require Import List String Ascii ZArith QArith Bool Arith Lia.
Import ListNotations.

Set Implicit Arguments.

(* ================================================================== *)
(** * Python values shared by both source files *)
(* ================================================================== *)

(** Python numbers, as far as the two files use them.  [of_int] is the
    promotion of an [int] operand, [lit] the reading of a float literal. *)
Class Numeric : Type := {
  num : Type;
  add : num -> num -> num;
  sub : num -> num -> num;
  mul : num -> num -> num;
  div : num -> num -> num;
  neg : num -> num;
  pow : num -> num -> num;
  of_int : Z -> num;
  lit : Q -> num
}.

(** Exceptions.  [AssertionError] carries which assertion failed and the
    values its message is formatted from. *)
Inductive assert_msg : Type :=
| SettingNotSupported (setting : string) (valid : list string)
| AdaptationNotSupported (adaptation : string) (available : list string).

Inductive exn : Type :=
| AssertionError (m : assert_msg)
| IndexError
| ZeroDivisionError
| AttributeError
| KeyError
| TypeError
| RuntimeError
| OtherError (name : string).

Inductive outcome (A : Type) : Type :=
| Ok (a : A)
| Raise (e : exn).
Arguments Ok {A} a.
Arguments Raise {A} e.

Definition raised {A} (r : outcome A) : option exn :=
  match r with Ok _ => None | Raise e => Some e end.

Definition is_AttributeError (e : exn) : bool :=
  match e with AttributeError => true | _ => false end.

(** [sub in s] on strings. *)
Definition py_in_str (sub s : string) : bool :=
  match String.index 0 sub s with Some _ => true | None => false end.

(** [x in l] on a list of strings. *)
Definition py_in (x : string) (l : list string) : bool :=
  existsb (String.eqb x) l.

(** [range(start, stop)] with the [start] attribute the driver reads. *)
Record py_range : Type := Range { start : nat; stop : nat }.

Definition range_list (r : py_range) : list nat :=
  seq (start r) (stop r - start r).

(** [l[i]] for a non-negative index. *)
Definition py_index {A} (l : list A) (i : nat) : outcome A :=
  match nth_error l i with
  | Some a => Ok a
  | None => Raise IndexError
  end.

Section PyNumbers.
Context {N : Numeric}.

(** The builtin [sum(l)]: a left fold that starts from the int [0]. *)
Definition py_sum (l : list num) : num :=
  fold_left add l (of_int 0).

(** [x / n] where [n] is the int [len(...)]. *)
Definition py_div_len (x : num) (n : nat) : outcome num :=
  if Nat.eqb n 0 then Raise ZeroDivisionError
  else Ok (div x (of_int (Z.of_nat n))).

(** [sum(l) / len(l)]. *)
Definition py_mean (l : list num) : outcome num :=
  py_div_len (py_sum l) (List.length l).
End PyNumbers.

(* ================================================================== *)
(** * The evaluation driver: [test_time.py] *)
(* ================================================================== *)

Module Driver.

(** Objects that the driver only passes around: they are created and
    consumed by the rest of the repository and by its libraries. *)
Class Opaque : Type := {
  World : Type;        (* everything mutable outside the driver's locals *)
  Loader : Type;
  Model : Type;
  BaseModel : Type;
  Preprocess : Type;
  DomainDict : Type;
  AdaptCtor : Type
}.

Section Model.
Context {N : Numeric} {O : Opaque}.

(** The fields of [cfg] that [evaluate] reads. *)
Record Cfg : Type := {
  SETTING : string;
  MODEL_ADAPTATION : string;
  MODEL_CKPT_PATH : string;
  MODEL_USE_CLIP : bool;
  CORRUPTION_DATASET : string;
  CORRUPTION_TYPE : list string;
  CORRUPTION_SEVERITY : list Z;
  CORRUPTION_NUM_EX : Z;
  Ours_LOSSES : list string;
  DATA_DIR : string;
  RNG_SEED : Z;
  TEST_N_AUGMENTATIONS : Z;
  TEST_DELTA_DIRICHLET : num;
  TEST_BATCH_SIZE : Z;
  TEST_NUM_WORKERS : Z;
  TEST_DEBUG : bool;
  PRINT_EVERY : Z;
  CKPT_DIR : string
}.

(** Keyword arguments of [get_test_loader]. *)
Record LoaderArgs : Type := {
  tl_setting : string;
  tl_adaptation : string;
  tl_dataset_name : string;
  tl_preprocess : Preprocess;
  tl_data_root_dir : string;
  tl_domain_name : string;
  tl_domain_names_all : list string;
  tl_severity : Z;
  tl_num_examples : Z;
  tl_rng_seed : Z;
  tl_use_clip : bool;
  tl_n_views : Z;
  tl_delta_dirichlet : num;
  tl_batch_size : Z;
  tl_shuffle : bool;
  tl_workers : Z
}.

(** Arguments of [get_accuracy]. *)
Record AccArgs : Type := {
  ga_model : Model;
  ga_data_loader : Loader;
  ga_dataset_name : string;
  ga_domain_name : string;
  ga_setting : string;
  ga_domain_dict : DomainDict;
  ga_print_every : Z;
  ga_device : string
}.

(** Every call that leaves the driver, with its arguments. *)
Inductive call : Type :=
| load_cfg_from_args (description : string)
| wandb_run_name_set (name : string)
| wandb_run_name_get
| datetime_now_plus (hours : Z) (fmt : string)
| wandb_config_update (cfg : Cfg)
| torch_cuda_is_available
| get_num_classes (dataset_name : string)
| get_model (cfg : Cfg) (num_classes : Z) (device : string)
| set_model_preprocess (base_model : BaseModel) (p : Preprocess)
| registered_names
| registry_get (name : string)
| build_adaptation (ctor : AdaptCtor) (cfg : Cfg) (model : BaseModel)
                   (num_classes : Z)
| wandb_summary_set (key value : string)
| ckpt_path_to_domain_seq (ckpt_path : string)
| model_reset (model : Model)
| os_cpu_count
| get_test_loader (args : LoaderArgs)
| loader_dataset_transform (loader : Loader)
| get_accuracy (args : AccArgs)
| np_mean (l : list num)
| eval_domain_dict (d : DomainDict) (domain_seq : list string)
| print_memory_info
| wandb_save (path : string)
| wandb_finish.

(** What each call returns when it does not raise. *)
Definition ret_ty (c : call) : Type :=
  match c with
  | load_cfg_from_args _ => Cfg
  | wandb_run_name_get => string
  | datetime_now_plus _ _ => string
  | torch_cuda_is_available => bool
  | get_num_classes _ => Z
  | get_model _ _ _ => (BaseModel * Preprocess)%type
  | registered_names => list string
  | registry_get _ => AdaptCtor
  | build_adaptation _ _ _ _ => Model
  | ckpt_path_to_domain_seq _ => list string
  | os_cpu_count => option Z
  | get_test_loader _ => Loader
  | loader_dataset_transform _ => string
  | get_accuracy _ => (num * DomainDict * Z)%type
  | np_mean _ => num
  | _ => unit
  end.

(** The rest of the program, as the driver sees it: any call may change
    the world and may raise any exception. *)
Class Externals : Type := {
  handle : forall c : call, World -> outcome (ret_ty c) * World;
  dict_empty : DomainDict;                 (* [{}] *)
  dict_len : DomainDict -> nat             (* [len(d.values())] *)
}.
Context {X : Externals}.

(** Log records; the numbers are kept as numbers, their [:.2%] rendering
    is the logging library's. *)
Inductive message : Type :=
| MsgPrepared (adaptation : string)
| MsgDescription (desc : string)
| MsgDomainSequence (dataset : string) (domain_sequence : list string)
| MsgSeverities (severities : list Z)
| MsgResetting (subgroup : py_range)
| MsgResetUnavailable
| MsgTransform (transform : string)
| MsgDomainError (dataset domain_name : string) (severity num_samples : Z)
                 (err : num)
| MsgCycleAvg (subgroup : py_range) (cycle : Z) (avg : num)
| MsgSubgroupAvg (subgroup : py_range) (avg : num)
| MsgCycleAcross (cycle : Z) (avg : num)
| MsgFinalSubgroup (idx : Z) (avg : num)
| MsgTotalAvg (avg : num)
| MsgMeanError (mean : num) (mean_5 : option num).

Inductive level : Type := INFO | WARNING.

Inductive event : Type :=
| EvCall (c : call) (exc : option exn)   (* an external call, and what it raised *)
| EvLog (l : level) (m : message).

(** The driver state: the world, the trace, and the locals of [evaluate]
    that are re-bound or mutated inside the loops. *)
Record dstate : Type := {
  world : World;
  trace : list event;
  errs : list num;
  errs_5 : list num;
  domain_dict : DomainDict;
  subgroup_avgs : list num;
  cycle_avgs_all_subgroups : list (Z * list num);
  subgroup_cycle_errs : list num;
  cycle_errs : list num
}.

Definition set_world (w : World) (t : list event) (s : dstate) : dstate :=
  {| world := w; trace := t; errs := errs s; errs_5 := errs_5 s;
     domain_dict := domain_dict s; subgroup_avgs := subgroup_avgs s;
     cycle_avgs_all_subgroups := cycle_avgs_all_subgroups s;
     subgroup_cycle_errs := subgroup_cycle_errs s;
     cycle_errs := cycle_errs s |}.

Definition set_errs (l : list num) (s : dstate) : dstate :=
  {| world := world s; trace := trace s; errs := l; errs_5 := errs_5 s;
     domain_dict := domain_dict s; subgroup_avgs := subgroup_avgs s;
     cycle_avgs_all_subgroups := cycle_avgs_all_subgroups s;
     subgroup_cycle_errs := subgroup_cycle_errs s;
     cycle_errs := cycle_errs s |}.

Definition set_errs_5 (l : list num) (s : dstate) : dstate :=
  {| world := world s; trace := trace s; errs := errs s; errs_5 := l;
     domain_dict := domain_dict s; subgroup_avgs := subgroup_avgs s;
     cycle_avgs_all_subgroups := cycle_avgs_all_subgroups s;
     subgroup_cycle_errs := subgroup_cycle_errs s;
     cycle_errs := cycle_errs s |}.

Definition set_domain_dict (d : DomainDict) (s : dstate) : dstate :=
  {| world := world s; trace := trace s; errs := errs s; errs_5 := errs_5 s;
     domain_dict := d; subgroup_avgs := subgroup_avgs s;
     cycle_avgs_all_subgroups := cycle_avgs_all_subgroups s;
     subgroup_cycle_errs := subgroup_cycle_errs s;
     cycle_errs := cycle_errs s |}.

Definition set_subgroup_avgs (l : list num) (s : dstate) : dstate :=
  {| world := world s; trace := trace s; errs := errs s; errs_5 := errs_5 s;
     domain_dict := domain_dict s; subgroup_avgs := l;
     cycle_avgs_all_subgroups := cycle_avgs_all_subgroups s;
     subgroup_cycle_errs := subgroup_cycle_errs s;
     cycle_errs := cycle_errs s |}.

Definition set_cycle_avgs_all_subgroups (d : list (Z * list num))
    (s : dstate) : dstate :=
  {| world := world s; trace := trace s; errs := errs s; errs_5 := errs_5 s;
     domain_dict := domain_dict s; subgroup_avgs := subgroup_avgs s;
     cycle_avgs_all_subgroups := d;
     subgroup_cycle_errs := subgroup_cycle_errs s;
     cycle_errs := cycle_errs s |}.

Definition set_subgroup_cycle_errs (l : list num) (s : dstate) : dstate :=
  {| world := world s; trace := trace s; errs := errs s; errs_5 := errs_5 s;
     domain_dict := domain_dict s; subgroup_avgs := subgroup_avgs s;
     cycle_avgs_all_subgroups := cycle_avgs_all_subgroups s;
     subgroup_cycle_errs := l;
     cycle_errs := cycle_errs s |}.

Definition set_cycle_errs (l : list num) (s : dstate) : dstate :=
  {| world := world s; trace := trace s; errs := errs s; errs_5 := errs_5 s;
     domain_dict := domain_dict s; subgroup_avgs := subgroup_avgs s;
     cycle_avgs_all_subgroups := cycle_avgs_all_subgroups s;
     subgroup_cycle_errs := subgroup_cycle_errs s;
     cycle_errs := l |}.

(** ** The monad of the driver *)

Definition M (A : Type) : Type := dstate -> outcome A * dstate.

Definition ret {A} (a : A) : M A := fun s => (Ok a, s).

Definition bind {A B} (m : M A) (k : A -> M B) : M B :=
  fun s =>
    match m s with
    | (Ok a, s') => k a s'
    | (Raise e, s') => (Raise e, s')
    end.

Definition throw {A} (e : exn) : M A := fun s => (Raise e, s).

Definition lift {A} (r : outcome A) : M A := fun s => (r, s).

Definition gets {A} (f : dstate -> A) : M A := fun s => (Ok (f s), s).

Definition modify (f : dstate -> dstate) : M unit := fun s => (Ok tt, f s).

(** An external call: the world moves on, the call is traced. *)
Definition ext (c : call) : M (ret_ty c) :=
  fun s =>
    let (r, w) := handle c (world s) in
    (r, set_world w (trace s ++ [EvCall c (raised r)]) s).

Definition log (l : level) (m : message) : M unit :=
  modify (fun s => set_world (world s) (trace s ++ [EvLog l m]) s).

Definition py_assert (b : bool) (m : assert_msg) : M unit :=
  if b then ret tt else throw (AssertionError m).

(** [try: body  except AttributeError: handler] *)
Definition try_except_AttributeError (body handler : M unit) : M unit :=
  fun s =>
    match body s with
    | (Raise e, s') =>
        if is_AttributeError e then handler s' else (Raise e, s')
    | r => r
    end.

Fixpoint for_each {A} (l : list A) (body : A -> M unit) : M unit :=
  match l with
  | [] => ret tt
  | a :: l' => bind (body a) (fun _ => for_each l' body)
  end.


Declare Scope drv_scope.
Delimit Scope drv_scope with drv.
Notation "x <- m ;; k" := (bind m (fun x => k))
  (at level 61, m at next level, right associativity) : drv_scope.
Notation "m ;; k" := (bind m (fun _ => k))
  (at level 61, right associativity) : drv_scope.
Local Open Scope string_scope.
Local Open Scope list_scope.
Local Open Scope drv_scope.

(** ** [evaluate], block by block *)

(* lines 23-32 *)
Definition valid_settings : list string :=
  [ "reset_each_shift"; "continual"; "gradual"; "mixed_domains";
    "correlated"; "mixed_domains_correlated"; "gradual_correlated";
    "reset_each_shift_correlated"; "continual_mixed_domain" ].

(* line 38 *)
Definition information : string := "cyclic on imagenet".

Definition nl : string := String (ascii_of_nat 10) EmptyString.

(* lines 66-77 *)
Definition loss_name : list (string * string) :=
  [ ("ce_s_t1", "Symmetric Cross Entropy (T1)");
    ("ce_s_t2", "Symmetric Cross Entropy (T2)");
    ("ce_s_aug_t1", "Symmetric Cross Entropy (Aug X to T1)");
    ("contr_t2_proto", "Contrastive (T2 - Prototype)");
    ("mse_t2_proto", "MSE (T2 - Prototype)");
    ("contr_t2", "Contrastive (T2 - Aug and Prototype)");
    ("im_loss", "Information Maximization Loss (T2)");
    ("differ_loss", "Differential Loss (S - T1 - T2)");
    ("mem_loss", "Maximum Mean Discrepancy Loss (T2)");
    ("kld_t2_proto", "KL Divergence Loss (T2 - Prototype)") ].

(** [d[k]] on a dict with string keys. *)
Definition dict_get (d : list (string * string)) (k : string)
  : outcome string :=
  match find (fun p => String.eqb (fst p) k) d with
  | Some p => Ok (snd p)
  | None => Raise KeyError
  end.

(** [[d[x] for x in l if x in keep]] *)
Fixpoint select_names (d : list (string * string)) (keep l : list string)
  : outcome (list string) :=
  match l with
  | [] => Ok []
  | x :: l' =>
      if py_in x keep then
        match dict_get d x with
        | Ok v =>
            match select_names d keep l' with
            | Ok vs => Ok (v :: vs)
            | Raise e => Raise e
            end
        | Raise e => Raise e
        end
      else select_names d keep l'
  end.

(* lines 65-105 *)
Definition describe_ours (cfg : Cfg) : M unit :=
  if String.eqb (MODEL_ADAPTATION cfg) "ours" then
    let desc :=
      (nl ++ nl ++ "Dataset: " ++ CORRUPTION_DATASET cfg ++ nl
          ++ "Setup: " ++ SETTING cfg ++ nl
          ++ "Training Strategy: Batch Normalization (T1, T2), All Layers (S)"
          ++ nl ++ "Loss: " ++ nl)%string in
    student_losses <-
      lift (select_names loss_name
              [ "ce_s_t1"; "ce_s_t2"; "ce_s_aug_t1"; "differ_loss" ]
              (Ours_LOSSES cfg)) ;;
    t2_losses <-
      lift (select_names loss_name
              [ "contr_t2_proto"; "mse_t2_proto"; "contr_t2"; "im_loss";
                "mem_loss"; "kld_t2_proto" ]
              (Ours_LOSSES cfg)) ;;
    let desc :=
      (desc ++ "  - S: " ++ String.concat ", " student_losses ++ nl)%string in
    let desc := (desc ++ "  - T1: EMA using S weights" ++ nl)%string in
    let desc :=
      (desc ++ "  - T2: " ++ String.concat ", " t2_losses ++ nl)%string in
    ext (wandb_summary_set "description" desc) ;;
    log INFO (MsgDescription desc)
  else ret tt.

(* lines 108-117 *)
Definition get_domain_sequence (cfg : Cfg) : M (list string) :=
  if String.eqb (CORRUPTION_DATASET cfg) "domainnet126" then
    ext (ckpt_path_to_domain_seq (MODEL_CKPT_PATH cfg))
  else if py_in (CORRUPTION_DATASET cfg) [ "imagenet_d"; "imagenet_d109" ]
  then
    type0 <- lift (py_index (CORRUPTION_TYPE cfg) 0) ;;
    if String.eqb type0 "" then
      ret [ "clipart"; "infograph"; "painting"; "real"; "sketch" ]
    else ret (CORRUPTION_TYPE cfg)
  else ret (CORRUPTION_TYPE cfg).

(* line 120 *)
Definition get_domain_seq_loop (cfg : Cfg) (domain_sequence : list string)
  : list string :=
  if py_in_str "mixed_domains" (SETTING cfg) then [ "mixed" ]
  else domain_sequence.

(* lines 123-127 *)
Definition get_severities (cfg : Cfg) : M (list Z) :=
  if py_in_str "gradual" (SETTING cfg)
     && py_in (CORRUPTION_DATASET cfg)
              [ "cifar10_c"; "cifar100_c"; "imagenet_c" ]
     && Nat.eqb (List.length (CORRUPTION_SEVERITY cfg)) 1
  then
    let severities := [1; 2; 3; 4; 5; 4; 3; 2; 1]%Z in
    log INFO (MsgSeverities severities) ;;
    ret severities
  else ret (CORRUPTION_SEVERITY cfg).

(* lines 136-142 *)
Definition subgroups : list py_range :=
  [ Range 0 3; Range 3 7; Range 7 10; Range 10 12; Range 12 15 ].

(** The locals that stay bound to one value once the evaluation starts. *)
Record ctx : Type := {
  cfg : Cfg;
  device : string;
  model_preprocess : Preprocess;
  model : Model;
  domain_sequence : list string;
  domain_seq_loop : list string;
  severities : list Z
}.

(** [min(cfg.TEST.NUM_WORKERS, os.cpu_count())] *)
Definition py_min_workers (n : Z) (cpus : option Z) : outcome Z :=
  match cpus with
  | Some k => Ok (Z.min n k)
  | None => Raise TypeError
  end.

(* lines 162-179 and 234-251 *)
Definition make_test_loader (c : ctx) (setting domain_name : string)
    (severity : Z) : M Loader :=
  cpus <- ext os_cpu_count ;;
  workers <- lift (py_min_workers (TEST_NUM_WORKERS (cfg c)) cpus) ;;
  ext (get_test_loader
         {| tl_setting := setting;
            tl_adaptation := MODEL_ADAPTATION (cfg c);
            tl_dataset_name := CORRUPTION_DATASET (cfg c);
            tl_preprocess := model_preprocess c;
            tl_data_root_dir := DATA_DIR (cfg c);
            tl_domain_name := domain_name;
            tl_domain_names_all := domain_sequence c;
            tl_severity := severity;
            tl_num_examples := CORRUPTION_NUM_EX (cfg c);
            tl_rng_seed := RNG_SEED (cfg c);
            tl_use_clip := MODEL_USE_CLIP (cfg c);
            tl_n_views := TEST_N_AUGMENTATIONS (cfg c);
            tl_delta_dirichlet := TEST_DELTA_DIRICHLET (cfg c);
            tl_batch_size := TEST_BATCH_SIZE (cfg c);
            tl_shuffle := false;
            tl_workers := workers |}).

(* lines 185-194 and 258-267 *)
Definition call_get_accuracy (c : ctx) (test_data_loader : Loader)
    (setting domain_name : string) : M (num * Z) :=
  d <- gets domain_dict ;;
  r <- ext (get_accuracy
              {| ga_model := model c;
                 ga_data_loader := test_data_loader;
                 ga_dataset_name := CORRUPTION_DATASET (cfg c);
                 ga_domain_name := domain_name;
                 ga_setting := setting;
                 ga_domain_dict := d;
                 ga_print_every := PRINT_EVERY (cfg c);
                 ga_device := device c |}) ;;
  let '(acc, d', num_samples) := r in
  modify (set_domain_dict d') ;;
  ret (acc, num_samples).

(* lines 200-201 and 271-272 *)
Definition record_errs_5 (severity : Z) (domain_name : string) (err : num)
  : M unit :=
  if Z.eqb severity 5 && negb (String.eqb domain_name "none") then
    modify (fun s => set_errs_5 (errs_5 s ++ [err]) s)
  else ret tt.

(* lines 162-203: one (domain, severity) evaluation inside a cycle *)
Definition evaluate_domain_severity (c : ctx) (subgroup : py_range)
    (i_dom : nat) (domain_name : string) (severity : Z) : M unit :=
  test_data_loader <-
    make_test_loader c (SETTING (cfg c)) domain_name severity ;;
  (if Nat.eqb i_dom (start subgroup) then
     transform <- ext (loader_dataset_transform test_data_loader) ;;
     log INFO (MsgTransform transform)
   else ret tt) ;;
  r <- call_get_accuracy c test_data_loader (SETTING (cfg c)) domain_name ;;
  let '(acc, num_samples) := r in
  let err := sub (lit 1) acc in
  modify (fun s => set_errs (errs s ++ [err]) s) ;;
  modify (fun s => set_cycle_errs (cycle_errs s ++ [err]) s) ;;
  record_errs_5 severity domain_name err ;;
  log INFO (MsgDomainError (CORRUPTION_DATASET (cfg c)) domain_name
              severity num_samples err).

(** [d[k].append(v)] on the dict of per-cycle averages. *)
Fixpoint dict_append (k : Z) (v : num) (d : list (Z * list num))
  : outcome (list (Z * list num)) :=
  match d with
  | [] => Raise KeyError
  | (k', l) :: d' =>
      if Z.eqb k' k then Ok ((k', l ++ [v]) :: d')
      else match dict_append k v d' with
           | Ok d'' => Ok ((k', l) :: d'')
           | Raise e => Raise e
           end
  end.

(* lines 158-159: one domain of a cycle *)
Definition run_domain (c : ctx) (subgroup : py_range) (i_dom : nat)
  : M unit :=
  domain_name <- lift (py_index (domain_seq_loop c) i_dom) ;;
  for_each (severities c)
           (evaluate_domain_severity c subgroup i_dom domain_name).

(* lines 155-209: one cycle of a subgroup *)
Definition run_cycle (c : ctx) (subgroup : py_range) (cycle : nat)
  : M unit :=
  modify (set_cycle_errs []) ;;
  for_each (range_list subgroup) (run_domain c subgroup) ;;
  ce <- gets cycle_errs ;;
  cycle_avg <- lift (py_mean ce) ;;
  modify (fun s =>
            set_subgroup_cycle_errs (subgroup_cycle_errs s ++ [cycle_avg]) s) ;;
  d <- gets cycle_avgs_all_subgroups ;;
  d' <- lift (dict_append (Z.of_nat cycle + 1) cycle_avg d) ;;
  modify (set_cycle_avgs_all_subgroups d') ;;
  log INFO (MsgCycleAvg subgroup (Z.of_nat cycle + 1) cycle_avg).

(* lines 149-153 *)
Definition reset_model (c : ctx) (subgroup : py_range) : M unit :=
  try_except_AttributeError
    (ext (model_reset (model c)) ;; log INFO (MsgResetting subgroup))
    (log WARNING MsgResetUnavailable).

(* lines 155-214: the two cycles of a subgroup and their average *)
Definition run_cycles (c : ctx) (subgroup : py_range) : M unit :=
  for_each (seq 0 2) (run_cycle c subgroup) ;;
  sce <- gets subgroup_cycle_errs ;;
  subgroup_avg <- lift (py_mean sce) ;;
  modify (fun s => set_subgroup_avgs (subgroup_avgs s ++ [subgroup_avg]) s) ;;
  log INFO (MsgSubgroupAvg subgroup subgroup_avg).

(* lines 145-214: one subgroup *)
Definition run_subgroup (c : ctx) (subgroup : py_range) : M unit :=
  modify (set_subgroup_cycle_errs []) ;;
  reset_model c subgroup ;;
  run_cycles c subgroup.

(** [enumerate(l)] *)
Definition enumerate {A} (l : list A) : list (Z * A) :=
  combine (map Z.of_nat (seq 0 (List.length l))) l.

(* lines 216-227 *)
Definition report_averages : M unit :=
  d <- gets cycle_avgs_all_subgroups ;;
  for_each d (fun kv =>
    cycle_avg_across_subgroups <- lift (py_mean (snd kv)) ;;
    log INFO (MsgCycleAcross (fst kv) cycle_avg_across_subgroups)) ;;
  sa <- gets subgroup_avgs ;;
  for_each (enumerate sa) (fun ia =>
    log INFO (MsgFinalSubgroup (fst ia + 1) (snd ia))) ;;
  sa <- gets subgroup_avgs ;;
  total_avg_error <- lift (py_mean sa) ;;
  log INFO (MsgTotalAvg total_avg_error).

(* lines 233-274: one severity of the final mixed pass *)
Definition evaluate_mixed_severity (c : ctx) (severity : Z) : M unit :=
  let i_dom := 0%nat in
  let domain_name := "mixed" in
  test_data_loader <-
    make_test_loader c "mixed_domains" domain_name severity ;;
  (if Nat.eqb i_dom 0 then
     transform <- ext (loader_dataset_transform test_data_loader) ;;
     log INFO (MsgTransform transform)
   else ret tt) ;;
  r <- call_get_accuracy c test_data_loader "mixed_domains" domain_name ;;
  let '(acc, num_samples) := r in
  let err := sub (lit 1) acc in
  modify (fun s => set_errs (errs s ++ [err]) s) ;;
  record_errs_5 severity domain_name err ;;
  log INFO (MsgDomainError (CORRUPTION_DATASET (cfg c)) domain_name
              severity num_samples err).

(* lines 230-274 *)
Definition mixed_pass (c : ctx) : M unit :=
  if String.eqb (SETTING (cfg c)) "continual_mixed_domain" then
    for_each (severities c) (evaluate_mixed_severity c)
  else ret tt.

(* lines 276-290 *)
Definition finish (c : ctx) : M unit :=
  e5 <- gets errs_5 ;;
  e <- gets errs ;;
  (if Nat.ltb 0 (List.length e5) then
     m <- ext (np_mean e) ;;
     m5 <- ext (np_mean e5) ;;
     log INFO (MsgMeanError m (Some m5))
   else
     m <- ext (np_mean e) ;;
     log INFO (MsgMeanError m None)) ;;
  d <- gets domain_dict ;;
  (if py_in_str "mixed_domains" (SETTING (cfg c)) && Nat.ltb 0 (dict_len d)
   then ext (eval_domain_dict d (domain_sequence c))
   else ret tt) ;;
  (if TEST_DEBUG (cfg c) then ext print_memory_info else ret tt) ;;
  ext (wandb_save (CKPT_DIR (cfg c))) ;;
  ext wandb_finish.

(* lines 22-33 *)
Definition load_and_validate (description : string) : M Cfg :=
  cfg <- ext (load_cfg_from_args description) ;;
  py_assert (py_in (SETTING cfg) valid_settings)
            (SettingNotSupported (SETTING cfg) valid_settings) ;;
  ret cfg.

(* lines 35-133: everything between the validation and the loops *)
Definition prepare (cfg : Cfg) : M ctx :=
  ext (wandb_run_name_set
         (MODEL_ADAPTATION cfg ++ "-" ++ SETTING cfg ++ "-"
            ++ CORRUPTION_DATASET cfg)%string) ;;
  name <- ext wandb_run_name_get ;;
  ext (wandb_run_name_set (name ++ "-" ++ information)%string) ;;
  stamp <- ext (datetime_now_plus 11 "%Y-%m-%d-%H-%M-%S") ;;
  name <- ext wandb_run_name_get ;;
  ext (wandb_run_name_set (name ++ "-" ++ stamp)%string) ;;
  ext (wandb_config_update cfg) ;;
  cuda <- ext torch_cuda_is_available ;;
  let device := if cuda : bool then "cuda" else "cpu" in
  num_classes <- ext (get_num_classes (CORRUPTION_DATASET cfg)) ;;
  bp <- ext (get_model cfg num_classes device) ;;
  let base_model := fst bp in
  let model_preprocess := snd bp in
  ext (set_model_preprocess base_model model_preprocess) ;;
  available_adaptations <- ext registered_names ;;
  py_assert (py_in (MODEL_ADAPTATION cfg) available_adaptations)
            (AdaptationNotSupported (MODEL_ADAPTATION cfg)
               available_adaptations) ;;
  ctor <- ext (registry_get (MODEL_ADAPTATION cfg)) ;;
  model <- ext (build_adaptation ctor cfg base_model num_classes) ;;
  log INFO (MsgPrepared (MODEL_ADAPTATION cfg)) ;;
  describe_ours cfg ;;
  domain_sequence <- get_domain_sequence cfg ;;
  log INFO (MsgDomainSequence (CORRUPTION_DATASET cfg) domain_sequence) ;;
  let domain_seq_loop := get_domain_seq_loop cfg domain_sequence in
  severities <- get_severities cfg ;;
  modify (set_errs []) ;;
  modify (set_errs_5 []) ;;
  modify (set_domain_dict dict_empty) ;;
  modify (set_subgroup_avgs []) ;;
  modify (set_cycle_avgs_all_subgroups [(1%Z, []); (2%Z, [])]) ;;
  ret {| cfg := cfg; device := device;
         model_preprocess := model_preprocess; model := model;
         domain_sequence := domain_sequence;
         domain_seq_loop := domain_seq_loop;
         severities := severities |}.

(* lines 144-290: the evaluation phase *)
Definition evaluation (c : ctx) : M unit :=
  for_each subgroups (run_subgroup c) ;;
  report_averages ;;
  mixed_pass c ;;
  finish c.

(* lines 22-133 *)
Definition setup (description : string) : M ctx :=
  cfg <- load_and_validate description ;;
  prepare cfg.

Definition evaluate_body (description : string) : M unit :=
  c <- setup description ;;
  evaluation c.

(** The state in which [evaluate] is entered: no local is bound yet. *)
Definition initial (w : World) : dstate :=
  {| world := w; trace := []; errs := []; errs_5 := [];
     domain_dict := dict_empty; subgroup_avgs := [];
     cycle_avgs_all_subgroups := []; subgroup_cycle_errs := [];
     cycle_errs := [] |}.

Definition evaluate (description : string) (w : World)
  : outcome unit * dstate :=
  evaluate_body description (initial w).

End Model.
End Driver.

(* ================================================================== *)
(** * The loss functions: [utils/losses.py] *)
(* ================================================================== *)

Module Losses.

(** The tensor library, as far as the loss functions use it.  What it
    computes along one row, and how it reduces, is the library's; the
    model assumes of it only that [softmax] and [log_softmax] keep the
    length of a row and that [argmax] returns a position of the row. *)
Class TensorLib {N : Numeric} : Type := {
  softmax_row : list num -> list num;
  log_softmax_row : list num -> list num;
  reduce_sum : list num -> num;          (* [sum] of the elements *)
  reduce_mean : list num -> num;         (* [mean] of the elements *)
  dot : list num -> list num -> num;     (* one entry of [torch.mm] *)
  t_log : num -> num;                    (* [torch.log] of one element *)
  t_clamp : num -> num -> num -> num;    (* [torch.clamp] of one element *)
  argmax_row : list num -> nat;
  softmax_row_length :
    forall r, List.length (softmax_row r) = List.length r;
  log_softmax_row_length :
    forall r, List.length (log_softmax_row r) = List.length r;
  argmax_row_range :
    forall r, r <> [] -> (argmax_row r < List.length r)%nat
}.

Section Model.
Context {N : Numeric} {L : TensorLib}.

(** Float tensors, by their values.  [T2 cols rows] has the shape
    [(len(rows), cols)].  [TN d1 d2 dims rows] has three dimensions or
    more: its shape is [(len(rows), d1, d2, ...)] with the further sizes
    [dims], and each of its rows holds the entries of one slice along
    dimension 0 in row-major order, the order of a contiguous tensor. *)
Inductive tensor : Type :=
| T0 (v : num)
| T1 (v : list num)
| T2 (cols : nat) (rows : list (list num))
| TN (d1 d2 : nat) (dims : list nat) (rows : list (list num)).

(** The number of entries of a tensor of the shape [dims]. *)
Definition numel (dims : list nat) : nat := fold_right Nat.mul 1%nat dims.

(** The shapes that torch can build: every row has [cols] entries, and
    every slice of a tensor of three dimensions or more has the entries
    of its shape. *)
Definition well_shaped (t : tensor) : Prop :=
  match t with
  | T2 cols rows => Forall (fun r => List.length r = cols) rows
  | TN d1 d2 dims rows =>
      Forall (fun r => List.length r = numel (d1 :: d2 :: dims)) rows
  | _ => True
  end.

(** Integer tensors: a vector, or [IN dims data] of two dimensions or
    more with its entries in row-major order. *)
Inductive itensor : Type :=
| I1 (l : list Z)
| IN (dims : list nat) (data : list Z).

(** The objects of a call: float tensors, integer tensors, and modules
    with their attributes.  References are positions; nothing is ever
    removed. *)
Record store : Type := {
  tensors : list tensor;
  indices : list itensor;
  modules : list (list (string * num))
}.

Definition tref : Type := nat.
Definition iref : Type := nat.
Definition mref : Type := nat.

Definition T (A : Type) : Type := store -> outcome A * store.

Definition ret {A} (a : A) : T A := fun h => (Ok a, h).

Definition bind {A B} (m : T A) (k : A -> T B) : T B :=
  fun h =>
    match m h with
    | (Ok a, h') => k a h'
    | (Raise e, h') => (Raise e, h')
    end.

Definition lift {A} (r : outcome A) : T A := fun h => (r, h).

(** A reference that points nowhere cannot be written in Python. *)
Definition dangling : exn := OtherError "dangling reference".

Definition read (r : tref) : T tensor :=
  fun h =>
    match nth_error (tensors h) r with
    | Some t => (Ok t, h)
    | None => (Raise dangling, h)
    end.

Definition read_index (r : iref) : T itensor :=
  fun h =>
    match nth_error (indices h) r with
    | Some l => (Ok l, h)
    | None => (Raise dangling, h)
    end.

(** [self.name] *)
Definition getattr (self : mref) (name : string) : T num :=
  fun h =>
    match nth_error (modules h) self with
    | Some attrs =>
        match find (fun kv => String.eqb (fst kv) name) attrs with
        | Some kv => (Ok (snd kv), h)
        | None => (Raise AttributeError, h)
        end
    | None => (Raise dangling, h)
    end.

(** A new tensor: every operation of the library that the losses use
    returns one, none of them writes into its arguments. *)
Definition alloc (t : tensor) : T tref :=
  fun h =>
    (Ok (List.length (tensors h)),
     {| tensors := tensors h ++ [t]; indices := indices h;
        modules := modules h |}).

Definition alloc_index (l : itensor) : T iref :=
  fun h =>
    (Ok (List.length (indices h)),
     {| tensors := tensors h; indices := indices h ++ [l];
        modules := modules h |}).

(** [Module.__init__] with the given attributes. *)
Definition new_module (attrs : list (string * num)) : T mref :=
  fun h =>
    (Ok (List.length (modules h)),
     {| tensors := tensors h; indices := indices h;
        modules := modules h ++ [attrs] |}).

Declare Scope loss_scope.
Delimit Scope loss_scope with loss.
Notation "x <- m ;; k" := (bind m (fun x => k))
  (at level 61, m at next level, right associativity) : loss_scope.
Local Open Scope string_scope.
Local Open Scope list_scope.
Local Open Scope nat_scope.
Local Open Scope loss_scope.

(** ** Operations on tensor values *)

Fixpoint map2 {A B C} (f : A -> B -> C) (l1 : list A) (l2 : list B)
  : list C :=
  match l1, l2 with
  | a :: l1', b :: l2' => f a b :: map2 f l1' l2'
  | _, _ => []
  end.

(** Broadcasting of one dimension: equal sizes, or one of them is 1. *)
Definition broadcast_dim (n1 n2 : nat) : option nat :=
  if Nat.eqb n1 n2 then Some n1
  else if Nat.eqb n1 1 then Some n2
  else if Nat.eqb n2 1 then Some n1
  else None.

Definition expand {A} (n : nat) (l : list A) : list A :=
  if Nat.eqb (List.length l) n then l
  else match l with
       | [a] => repeat a n
       | _ => l
       end.

Definition rank (t : tensor) : nat :=
  match t with
  | T0 _ => 0
  | T1 _ => 1
  | T2 _ _ => 2
  | TN _ _ dims _ => 3 + List.length dims
  end.

(** The shape of a tensor of at most two dimensions as a two-dimensional
    one, and its rows: a vector broadcasts as a single row, a scalar as
    a single entry.  With more dimensions the slices stand for the rows;
    [elementwise] does not go this way then. *)
Definition as_rows (t : tensor) : nat * nat * list (list num) :=
  match t with
  | T0 v => (1, 1, [[v]])
  | T1 l => (1, List.length l, [l])
  | T2 cols rows => (List.length rows, cols, rows)
  | TN d1 d2 dims rows => (List.length rows, numel (d1 :: d2 :: dims), rows)
  end.

Definition of_rows (rk : nat) (cols : nat) (rows : list (list num))
  : tensor :=
  match rk with
  | 0 => T0 (hd (of_int 0%Z) (hd [] rows))
  | 1 => T1 (hd [] rows)
  | _ => T2 cols rows
  end.

(** The entries of a tensor in row-major order, and its shape. *)
Definition elements (t : tensor) : list num :=
  match t with
  | T0 v => [v]
  | T1 l => l
  | T2 _ rows => List.concat rows
  | TN _ _ _ rows => List.concat rows
  end.

Definition shape (t : tensor) : list nat :=
  match t with
  | T0 _ => []
  | T1 l => [List.length l]
  | T2 cols rows => [List.length rows; cols]
  | TN d1 d2 dims rows => List.length rows :: d1 :: d2 :: dims
  end.

(** [count] pieces of [size] entries each, from the front of [l]. *)
Fixpoint chunks {A} (count size : nat) (l : list A) : list (list A) :=
  match count with
  | 0 => []
  | S count' => firstn size l :: chunks count' size (skipn size l)
  end.

(** The tensor of the shape [(len(rows), d1, ..., dk)] with the slices
    [rows]. *)
Definition of_slices (dims : list nat) (rows : list (list num)) : tensor :=
  match dims with
  | [] => T1 (map (hd (of_int 0%Z)) rows)
  | [cols] => T2 cols rows
  | d1 :: d2 :: dims' => TN d1 d2 dims' rows
  end.

(** The tensor of the shape [dims] with the entries [data]. *)
Definition of_elements (dims : list nat) (data : list num) : tensor :=
  match dims with
  | [] => T0 (hd (of_int 0%Z) data)
  | n :: dims' => of_slices dims' (chunks n (numel dims') data)
  end.

(** Broadcasting of two shapes: the dimensions are paired from the last
    one backwards, a missing dimension counts as 1. *)
Fixpoint broadcast_reversed (s1 s2 : list nat) : option (list nat) :=
  match s1, s2 with
  | [], s => Some s
  | s, [] => Some s
  | n1 :: s1', n2 :: s2' =>
      match broadcast_dim n1 n2, broadcast_reversed s1' s2' with
      | Some n, Some s => Some (n :: s)
      | _, _ => None
      end
  end.

Definition broadcast_shape (s1 s2 : list nat) : option (list nat) :=
  match broadcast_reversed (rev s1) (rev s2) with
  | Some s => Some (rev s)
  | None => None
  end.

(** The entries of a tensor of the shape [from] expanded to the shape
    [to], of equally many dimensions: a dimension of size 1 is repeated. *)
Fixpoint expand_elements (from to : list nat) (data : list num)
  : list num :=
  match from, to with
  | n :: from', m :: to' =>
      let parts :=
        map (expand_elements from' to') (chunks n (numel from') data) in
      List.concat (if Nat.eqb n m then parts
                   else repeat (hd [] parts) m)
  | _, _ => data
  end.

Definition elementwise_shapes (f : num -> num -> num) (t1 t2 : tensor)
  : outcome tensor :=
  match broadcast_shape (shape t1) (shape t2) with
  | Some s =>
      let pad t := repeat 1 (List.length s - rank t) ++ shape t in
      Ok (of_elements s
            (map2 f (expand_elements (pad t1) s (elements t1))
                    (expand_elements (pad t2) s (elements t2))))
  | None => Raise RuntimeError
  end.

(** An elementwise operation on two tensors, with broadcasting. *)
Definition elementwise (f : num -> num -> num) (t1 t2 : tensor)
  : outcome tensor :=
  if (rank t1 <=? 2) && (rank t2 <=? 2) then
    let '(r1, c1, rows1) := as_rows t1 in
    let '(r2, c2, rows2) := as_rows t2 in
    match broadcast_dim r1 r2, broadcast_dim c1 c2 with
    | Some r, Some c =>
        Ok (of_rows (Nat.max (rank t1) (rank t2)) c
              (map2 (map2 f) (expand r (map (expand c) rows1))
                              (expand r (map (expand c) rows2))))
    | _, _ => Raise RuntimeError
    end
  else elementwise_shapes f t1 t2.

(** An elementwise operation on one tensor. *)
Definition pointwise (f : num -> num) (t : tensor) : tensor :=
  match t with
  | T0 v => T0 (f v)
  | T1 l => T1 (map f l)
  | T2 cols rows => T2 cols (map (map f) rows)
  | TN d1 d2 dims rows => TN d1 d2 dims (map (map f) rows)
  end.

Definition column (j : nat) (rows : list (list num)) : list num :=
  map (fun r => nth j r (of_int 0%Z)) rows.

(** The lines along dimension 1 of one slice of the shape [(d1, ...)]
    with [inner] entries for each index of dimension 1: line [j] holds
    the entries [j], [inner + j], [2 * inner + j], ... of the slice. *)
Definition lines (d1 inner : nat) (slice : list num) : list (list num) :=
  map (fun j => column j (chunks d1 inner slice)) (seq 0 inner).

(** The slice with the lines [ls] along dimension 1, of [d1] entries
    each. *)
Definition of_lines (d1 : nat) (ls : list (list num)) : list num :=
  List.concat (map (fun i => column i ls) (seq 0 d1)).

(** [t.softmax(1)] and [t.log_softmax(1)]: along dimension 1. *)
Definition along_rows (f : list num -> list num) (t : tensor)
  : outcome tensor :=
  match t with
  | T2 cols rows => Ok (T2 cols (map f rows))
  | TN d1 d2 dims rows =>
      Ok (TN d1 d2 dims
            (map (fun slice =>
                    of_lines d1 (map f (lines d1 (numel (d2 :: dims)) slice)))
                 rows))
  | _ => Raise IndexError
  end.

(** [t.sum(1)] *)
Definition sum_dim1 (t : tensor) : outcome tensor :=
  match t with
  | T2 _ rows => Ok (T1 (map reduce_sum rows))
  | TN d1 d2 dims rows =>
      Ok (of_slices (d2 :: dims)
            (map (fun slice =>
                    map reduce_sum (lines d1 (numel (d2 :: dims)) slice))
                 rows))
  | _ => Raise IndexError
  end.

(** [t.sum()] and [t.mean()] *)
Definition sum_all (t : tensor) : tensor := T0 (reduce_sum (elements t)).
Definition mean_all (t : tensor) : tensor := T0 (reduce_mean (elements t)).

(** [t.mean(dim=0)] *)
Definition mean_dim0 (t : tensor) : outcome tensor :=
  match t with
  | T0 v => Ok (T0 (reduce_mean [v]))
  | T1 l => Ok (T0 (reduce_mean l))
  | T2 cols rows =>
      Ok (T1 (map (fun j => reduce_mean (column j rows)) (seq 0 cols)))
  | TN d1 d2 dims rows =>
      Ok (of_elements (d1 :: d2 :: dims)
            (map (fun j => reduce_mean (column j rows))
                 (seq 0 (numel (d1 :: d2 :: dims)))))
  end.

(** [t.argmax(dim=1)] *)
Definition argmax_dim1 (t : tensor) : outcome itensor :=
  match t with
  | T2 cols rows =>
      if Nat.eqb cols 0 then Raise IndexError
      else Ok (I1 (map (fun r => Z.of_nat (argmax_row r)) rows))
  | TN d1 d2 dims rows =>
      if Nat.eqb d1 0 then Raise IndexError
      else Ok (IN (List.length rows :: d2 :: dims)
                 (List.concat
                    (map (fun slice =>
                            map (fun l => Z.of_nat (argmax_row l))
                                (lines d1 (numel (d2 :: dims)) slice))
                         rows)))
  | _ => Raise IndexError
  end.

Fixpoint select (r : list num) (idx : list Z) : outcome (list num) :=
  match idx with
  | [] => Ok []
  | i :: idx' =>
      if (i <? 0)%Z then Raise IndexError
      else match nth_error r (Z.to_nat i) with
           | None => Raise IndexError
           | Some v =>
               match select r idx' with
               | Ok l => Ok (v :: l)
               | Raise e => Raise e
               end
           end
  end.

Fixpoint select_rows (rows : list (list num)) (idx : list Z)
  : outcome (list (list num)) :=
  match rows with
  | [] => Ok []
  | r :: rows' =>
      match select r idx with
      | Ok l =>
          match select_rows rows' idx with
          | Ok ls => Ok (l :: ls)
          | Raise e => Raise e
          end
      | Raise e => Raise e
      end
  end.

(** The entries [idx] of each run of [size] entries of a slice. *)
Fixpoint select_slices (count size : nat) (rows : list (list num))
    (idx : list Z) : outcome (list (list num)) :=
  match rows with
  | [] => Ok []
  | r :: rows' =>
      match select_rows (chunks count size r) idx with
      | Ok ls =>
          match select_slices count size rows' idx with
          | Ok rs => Ok (List.concat ls :: rs)
          | Raise e => Raise e
          end
      | Raise e => Raise e
      end
  end.

(** [t.index_select(-1, index)].  The index is a vector.  An entry of it
    that is negative or not below the size of the last dimension is an
    error: on a matrix torch selects along dimension 1 by a routine of
    its own, which raises [RuntimeError], as does the check for a tensor
    without entries; elsewhere the error is an [IndexError]. *)
Definition index_select_last (t : tensor) (index : itensor)
  : outcome tensor :=
  match index with
  | IN _ _ => Raise IndexError
  | I1 idx =>
      match t with
      | T0 v =>
          match idx with
          | [i] => if (i =? 0)%Z then Ok (T0 v) else Raise IndexError
          | _ => Raise RuntimeError
          end
      | T1 l =>
          match select l idx with
          | Ok l' => Ok (T1 l')
          | Raise e => Raise e
          end
      | T2 cols rows =>
          if existsb (fun i => (i <? 0)%Z || (Z.of_nat cols <=? i)%Z) idx
          then Raise RuntimeError
          else match select_rows rows idx with
               | Ok rows' => Ok (T2 (List.length idx) rows')
               | Raise e => Raise e
               end
      | TN d1 d2 dims rows =>
          let outer := removelast (d1 :: d2 :: dims) in
          let size := last (d2 :: dims) 0 in
          if existsb (fun i => (i <? 0)%Z || (Z.of_nat size <=? i)%Z) idx
          then if Nat.eqb (List.length rows * numel (d1 :: d2 :: dims)) 0
               then Raise RuntimeError
               else Raise IndexError
          else match select_slices (numel outer) size rows idx with
               | Ok rows' =>
                   Ok (of_slices (outer ++ [List.length idx]) rows')
               | Raise e => Raise e
               end
      end
  end.

Fixpoint diagonal (k : nat) (rows : list (list num)) : list num :=
  match rows with
  | [] => []
  | r :: rows' =>
      match nth_error r k with
      | Some v => v :: diagonal (S k) rows'
      | None => []
      end
  end.

(** [t.diag()] *)
Definition diag (t : tensor) : outcome tensor :=
  match t with
  | T0 _ => Raise RuntimeError
  | T1 l =>
      Ok (T2 (List.length l)
            (map (fun i =>
                    map (fun j => if Nat.eqb i j then nth i l (of_int 0%Z)
                                  else of_int 0%Z)
                        (seq 0 (List.length l)))
                 (seq 0 (List.length l))))
  | T2 _ rows => Ok (T1 (diagonal 0 rows))
  | TN _ _ _ _ => Raise RuntimeError
  end.

(** [t.size(0)] *)
Definition size0 (t : tensor) : outcome Z :=
  match t with
  | T0 _ => Raise IndexError
  | T1 l => Ok (Z.of_nat (List.length l))
  | T2 _ rows => Ok (Z.of_nat (List.length rows))
  | TN _ _ _ rows => Ok (Z.of_nat (List.length rows))
  end.

(** [t.view(n, -1)], for [n = t.size(0)], of a contiguous tensor: the
    entries of each slice along dimension 0 become one row.  The size of
    the second dimension is the number of entries divided by [n]; only
    for [n = 0] is it undetermined, and the call raises. *)
Definition view_rows (t : tensor) : outcome tensor :=
  match t with
  | T0 _ => Raise RuntimeError
  | T1 l => if Nat.eqb (List.length l) 0 then Raise RuntimeError
            else Ok (T2 1 (map (fun v => [v]) l))
  | T2 cols rows =>
      if Nat.eqb (List.length rows) 0 then Raise RuntimeError
      else Ok (T2 cols rows)
  | TN d1 d2 dims rows =>
      if Nat.eqb (List.length rows) 0 then Raise RuntimeError
      else Ok (T2 (numel (d1 :: d2 :: dims)) rows)
  end.

(** [t.t()] *)
Definition transpose (t : tensor) : outcome tensor :=
  match t with
  | T2 cols rows =>
      Ok (T2 (List.length rows) (map (fun j => column j rows) (seq 0 cols)))
  | TN _ _ _ _ => Raise RuntimeError
  | _ => Ok t
  end.

(** [torch.mm(a, b)] *)
Definition mm (a b : tensor) : outcome tensor :=
  match a, b with
  | T2 ca rows_a, T2 cb rows_b =>
      if Nat.eqb ca (List.length rows_b) then
        Ok (T2 cb (map (fun r =>
                          map (fun j => dot r (column j rows_b)) (seq 0 cb))
                       rows_a))
      else Raise RuntimeError
  | _, _ => Raise RuntimeError
  end.

(** ** Operations on references: read, compute, allocate *)

Definition op1 (f : tensor -> outcome tensor) (a : tref) : T tref :=
  t <- read a ;;
  t' <- lift (f t) ;;
  alloc t'.

Definition op2 (f : tensor -> tensor -> outcome tensor) (a b : tref)
  : T tref :=
  t1 <- read a ;;
  t2 <- read b ;;
  t' <- lift (f t1 t2) ;;
  alloc t'.

Definition total (f : tensor -> tensor) (t : tensor) : outcome tensor :=
  Ok (f t).

Definition softmax (a : tref) : T tref := op1 (along_rows softmax_row) a.
Definition log_softmax (a : tref) : T tref :=
  op1 (along_rows log_softmax_row) a.
Definition t_mul (a b : tref) : T tref := op2 (elementwise mul) a b.
Definition t_sub (a b : tref) : T tref := op2 (elementwise sub) a b.
Definition t_div (a b : tref) : T tref := op2 (elementwise div) a b.
Definition t_sum_dim1 (a : tref) : T tref := op1 sum_dim1 a.
Definition t_neg (a : tref) : T tref := op1 (total (pointwise neg)) a.
(** [k * t], [t + k], [t ** k], [k - t] and [t / k] for a Python number. *)
Definition scalar_mul (k : num) (a : tref) : T tref :=
  op1 (total (pointwise (mul k))) a.
Definition add_scalar (a : tref) (k : num) : T tref :=
  op1 (total (pointwise (fun v => add v k))) a.
Definition pow_scalar (a : tref) (k : num) : T tref :=
  op1 (total (pointwise (fun v => pow v k))) a.
Definition scalar_sub (k : num) (a : tref) : T tref :=
  op1 (total (pointwise (sub k))) a.
Definition div_scalar (a : tref) (k : num) : T tref :=
  op1 (total (pointwise (fun v => div v k))) a.
Definition torch_log (a : tref) : T tref := op1 (total (pointwise t_log)) a.
Definition torch_clamp (a : tref) (lo hi : num) : T tref :=
  op1 (total (pointwise (fun v => t_clamp v lo hi))) a.
Definition ones_like (a : tref) : T tref :=
  op1 (total (pointwise (fun _ => lit 1%Q))) a.
Definition t_sum (a : tref) : T tref := op1 (total sum_all) a.
Definition t_mean (a : tref) : T tref := op1 (total mean_all) a.
Definition t_mean_dim0 (a : tref) : T tref := op1 mean_dim0 a.
Definition t_diag (a : tref) : T tref := op1 diag a.
Definition t_view_rows (a : tref) : T tref := op1 view_rows a.
Definition t_transpose (a : tref) : T tref := op1 transpose a.
Definition t_mm (a b : tref) : T tref := op2 mm a b.

Definition t_argmax_dim1 (a : tref) : T iref :=
  t <- read a ;;
  l <- lift (argmax_dim1 t) ;;
  alloc_index l.

Definition t_index_select_last (a : tref) (i : iref) : T tref :=
  t <- read a ;;
  idx <- read_index i ;;
  t' <- lift (index_select_last t idx) ;;
  alloc t'.

Definition t_size0 (a : tref) : T Z :=
  t <- read a ;;
  lift (size0 t).

(** ** The classes and functions of the file *)

(** A keyword argument with its default value. *)
Definition default {A} (d : A) (o : option A) : A :=
  match o with Some a => a | None => d end.

(* lines 5-10 *)
Definition Entropy_init : T mref := new_module [].

Definition Entropy_call (self : mref) (logits : tref) : T tref :=
  p <- softmax logits ;;
  lp <- log_softmax logits ;;
  prod <- t_mul p lp ;;
  s <- t_sum_dim1 prod ;;
  t_neg s.

(* lines 13-21 *)
Definition SymmetricCrossEntropy_init (alpha : option num) : T mref :=
  new_module [ ("alpha", default (lit (1 # 2)%Q) alpha) ].

Definition SymmetricCrossEntropy_call (self : mref) (x x_ema : tref)
  : T tref :=
  alpha <- getattr self "alpha" ;;
  let k := neg (sub (of_int 1%Z) alpha) in
  p_ema <- softmax x_ema ;;
  lp <- log_softmax x ;;
  prod1 <- t_mul p_ema lp ;;
  s1 <- t_sum_dim1 prod1 ;;
  left <- scalar_mul k s1 ;;
  alpha' <- getattr self "alpha" ;;
  p <- softmax x ;;
  lp_ema <- log_softmax x_ema ;;
  prod2 <- t_mul p lp_ema ;;
  s2 <- t_sum_dim1 prod2 ;;
  right <- scalar_mul alpha' s2 ;;
  t_sub left right.

(* lines 24-32 *)
Definition AugCrossEntropy_init (alpha : option num) : T mref :=
  new_module [ ("alpha", default (lit (1 # 2)%Q) alpha) ].

Definition AugCrossEntropy_call (self : mref) (x x_aug x_ema : tref)
  : T tref :=
  alpha <- getattr self "alpha" ;;
  let k := neg (sub (of_int 1%Z) alpha) in
  p <- softmax x ;;
  lp_ema <- log_softmax x_ema ;;
  prod1 <- t_mul p lp_ema ;;
  s1 <- t_sum_dim1 prod1 ;;
  left <- scalar_mul k s1 ;;
  alpha' <- getattr self "alpha" ;;
  p_aug <- softmax x_aug ;;
  lp_ema' <- log_softmax x_ema ;;
  prod2 <- t_mul p_aug lp_ema' ;;
  s2 <- t_sum_dim1 prod2 ;;
  right <- scalar_mul alpha' s2 ;;
  t_sub left right.

(* lines 35-46 *)
Definition SoftLikelihoodRatio_init (clip eps : option num) : T mref :=
  new_module [ ("eps", default (lit (1 # 100000)%Q) eps);
               ("clip", default (lit (99 # 100)%Q) clip) ].

Definition SoftLikelihoodRatio_call (self : mref) (logits : tref)
  : T tref :=
  probs <- softmax logits ;;
  clip <- getattr self "clip" ;;
  probs <- torch_clamp probs (lit 0%Q) clip ;;
  ones <- ones_like probs ;;
  rest <- t_sub ones probs ;;
  ratio <- t_div probs rest ;;
  eps <- getattr self "eps" ;;
  shifted <- add_scalar ratio eps ;;
  lg <- torch_log shifted ;;
  prod <- t_mul probs lg ;;
  s <- t_sum_dim1 prod ;;
  t_neg s.

(* lines 49-61 *)
Definition GeneralizedCrossEntropy_init (q : option num) : T mref :=
  new_module [ ("q", default (lit (8 # 10)%Q) q) ].

Definition GeneralizedCrossEntropy_call (self : mref) (logits : tref)
    (targets : option iref) : T tref :=
  probs <- softmax logits ;;
  targets <- match targets with
             | None => t_argmax_dim1 probs
             | Some t => ret t
             end ;;
  selected <- t_index_select_last probs targets ;;
  probs_with_correct_idx <- t_diag selected ;;
  q <- getattr self "q" ;;
  powered <- pow_scalar probs_with_correct_idx q ;;
  num <- scalar_sub (lit 1%Q) powered ;;
  q' <- getattr self "q" ;;
  div_scalar num q'.

(* lines 64-75 *)
Definition entropy_loss (probs : tref) : T tref :=
  shifted <- add_scalar probs (lit (1 # 10000000000000000)%Q) ;;
  lg <- torch_log shifted ;;
  prod <- t_mul probs lg ;;
  s <- t_sum_dim1 prod ;;
  ent <- t_neg s ;;
  t_mean ent.

(* lines 78-90 *)
Definition diversity_loss (ensemble_probs : tref) : T tref :=
  mean_probs <- t_mean_dim0 ensemble_probs ;;
  shifted <- add_scalar mean_probs (lit (1 # 10000000000000000)%Q) ;;
  lg <- torch_log shifted ;;
  prod <- t_mul mean_probs lg ;;
  s <- t_sum prod ;;
  t_neg s.

(* lines 93-105 *)
Definition info_max_loss (probs : tref) : T tref :=
  ent <- entropy_loss probs ;;
  div <- diversity_loss probs ;;
  t_sub ent div.

(* lines 108-122 *)
Definition orthogonal_loss (prototypes : tref) : T tref :=
  n_prototypes <- t_size0 prototypes ;;
  prototypes <- t_view_rows prototypes ;;
  transposed <- t_transpose prototypes ;;
  gram <- t_mm prototypes transposed ;;
  squared <- pow_scalar gram (of_int 2%Z) ;;
  total_sum <- t_sum squared ;;
  div_scalar total_sum (of_int (n_prototypes * (n_prototypes - 1))%Z).

End Model.
End Losses.

(* ================================================================== *)
(** * A concrete world, for running the driver on explicit inputs *)
(* ================================================================== *)

Module Example.
Import Driver.
Local Open Scope string_scope.

(** Exact rational arithmetic ([pow] truncates its exponent). *)
#[export] Instance QNum : Numeric := {|
  num := Q;
  add := Qplus;
  sub := Qminus;
  mul := Qmult;
  div := Qdiv;
  neg := Qopp;
  pow := fun x y => Qpower x (Z.div (Qnum y) (Zpos (Qden y)));
  of_int := inject_Z;
  lit := fun q => q
|}.

(** The xworld of the example: the configuration that the command line
    selects, whether the adaptation method has a [reset], how many
    batches of data the model has adapted to, and the wandb run name. *)
Record xworld : Type := {
  w_cfg : @Cfg QNum;
  w_has_reset : bool;
  w_seen : Z;
  w_run_name : string
}.

#[export] Instance Objs : Opaque := {|
  World := xworld;
  Loader := string * Z;
  Model := unit;
  BaseModel := unit;
  Preprocess := unit;
  DomainDict := list string;
  AdaptCtor := unit
|}.

Definition saw (k : Z) (w : xworld) : xworld :=
  {| w_cfg := w_cfg w; w_has_reset := w_has_reset w; w_seen := k;
     w_run_name := w_run_name w |}.

Definition named (n : string) (w : xworld) : xworld :=
  {| w_cfg := w_cfg w; w_has_reset := w_has_reset w; w_seen := w_seen w;
     w_run_name := n |}.

(** Accuracy of the example model: it grows with the data seen, and the
    mixed stream is the hardest. *)
Definition accuracy (domain_name : string) (seen : Z) : Q :=
  if String.eqb domain_name "mixed" then 0
  else Qmake (seen + 1) (Z.to_pos (seen + 2)).

Definition example_handle (c : call)
  : xworld -> outcome (ret_ty c) * xworld :=
  match c as c0 return xworld -> outcome (ret_ty c0) * xworld with
  | load_cfg_from_args _ => fun w => (Ok (w_cfg w), w)
  | wandb_run_name_set n => fun w => (Ok tt, named n w)
  | wandb_run_name_get => fun w => (Ok (w_run_name w), w)
  | datetime_now_plus _ _ => fun w => (Ok "2024-11-03-21-00-00", w)
  | torch_cuda_is_available => fun w => (Ok false, w)
  | get_num_classes _ => fun w => (Ok 1000%Z, w)
  | get_model _ _ _ => fun w => (Ok (tt, tt), w)
  | registered_names => fun w => (Ok [ "source"; "tent"; "ours" ], w)
  | registry_get _ => fun w => (Ok tt, w)
  | build_adaptation _ _ _ _ => fun w => (Ok tt, w)
  | ckpt_path_to_domain_seq _ =>
      fun w => (Ok [ "clipart"; "painting"; "sketch" ], w)
  | model_reset _ =>
      fun w => if w_has_reset w then (Ok tt, saw 0 w)
               else (Raise AttributeError, w)
  | os_cpu_count => fun w => (Ok (Some 8%Z), w)
  | get_test_loader a => fun w => (Ok (tl_domain_name a, tl_severity a), w)
  | loader_dataset_transform _ => fun w => (Ok "Compose()", w)
  | get_accuracy a =>
      fun w => (Ok (accuracy (ga_domain_name a) (w_seen w),
                    ga_domain_name a :: ga_domain_dict a, 5000%Z),
                saw (w_seen w + 1) w)
  | np_mean l =>
      fun w => (Ok (Qred (Qdiv (fold_left Qplus l 0)
                            (inject_Z (Z.of_nat (List.length l))))), w)
  | _ => fun w => (Ok tt, w)
  end.

#[export] Instance Ext : Externals := {|
  handle := example_handle;
  dict_empty := [];
  dict_len := @List.length string
|}.

Definition imagenet_c_corruptions : list string :=
  [ "gaussian_noise"; "shot_noise"; "impulse_noise"; "defocus_blur";
    "glass_blur"; "motion_blur"; "zoom_blur"; "snow"; "frost"; "fog";
    "brightness"; "contrast"; "elastic_transform"; "pixelate";
    "jpeg_compression" ].

Definition example_cfg (setting dataset : string) (types : list string)
    (severity : list Z) : @Cfg QNum :=
  {| SETTING := setting;
     MODEL_ADAPTATION := "ours";
     MODEL_CKPT_PATH := "";
     MODEL_USE_CLIP := false;
     CORRUPTION_DATASET := dataset;
     CORRUPTION_TYPE := types;
     CORRUPTION_SEVERITY := severity;
     CORRUPTION_NUM_EX := (-1)%Z;
     Ours_LOSSES := [ "ce_s_t1"; "im_loss"; "unknown_loss" ];
     DATA_DIR := "./data";
     RNG_SEED := 1%Z;
     TEST_N_AUGMENTATIONS := 32%Z;
     TEST_DELTA_DIRICHLET := 0;
     TEST_BATCH_SIZE := 64%Z;
     TEST_NUM_WORKERS := 4%Z;
     TEST_DEBUG := false;
     PRINT_EVERY := 50%Z;
     CKPT_DIR := "./ckpt" |}.

Definition example_world (cfg : @Cfg QNum) (has_reset : bool) : xworld :=
  {| w_cfg := cfg; w_has_reset := has_reset; w_seen := 0;
     w_run_name := "" |}.

(** A continual run over the fifteen corruptions at severity 5. *)
Definition w_continual : xworld :=
  example_world
    (example_cfg "continual" "imagenet_c" imagenet_c_corruptions [5%Z]) true.

(** The same stream in the [continual_mixed_domain] setting. *)
Definition w_continual_mixed : xworld :=
  example_world
    (example_cfg "continual_mixed_domain" "imagenet_c"
       imagenet_c_corruptions [5%Z]) false.

(** ImageNet-D with its five built-in domains and no severity level. *)
Definition w_imagenet_d : xworld :=
  example_world (example_cfg "continual" "imagenet_d" [ "" ] []) true.

(** The mixed-domains setting. *)
Definition w_mixed : xworld :=
  example_world
    (example_cfg "mixed_domains" "imagenet_c" imagenet_c_corruptions [5%Z])
    true.

(** A gradual run over the fifteen corruptions, configured with the
    single severity 3. *)
Definition w_gradual : xworld :=
  example_world
    (example_cfg "gradual" "imagenet_c" imagenet_c_corruptions [3%Z]) true.

(** What [evaluate] has bound when the loops of the continual run start. *)
Definition ctx_continual : ctx :=
  {| cfg := w_cfg w_continual; device := "cpu"; model_preprocess := tt;
     model := tt; domain_sequence := imagenet_c_corruptions;
     domain_seq_loop := imagenet_c_corruptions; severities := [5%Z] |}.

(** The same for the ImageNet-D run and for the mixed-domains run. *)
Definition ctx_imagenet_d : ctx :=
  {| cfg := w_cfg w_imagenet_d; device := "cpu"; model_preprocess := tt;
     model := tt;
     domain_sequence :=
       [ "clipart"; "infograph"; "painting"; "real"; "sketch" ];
     domain_seq_loop :=
       [ "clipart"; "infograph"; "painting"; "real"; "sketch" ];
     severities := [] |}.

Definition ctx_mixed : ctx :=
  {| cfg := w_cfg w_mixed; device := "cpu"; model_preprocess := tt;
     model := tt; domain_sequence := imagenet_c_corruptions;
     domain_seq_loop := [ "mixed" ]; severities := [5%Z] |}.

(** The same for the gradual run: the severities are the ramp. *)
Definition ctx_gradual : ctx :=
  {| cfg := w_cfg w_gradual; device := "cpu"; model_preprocess := tt;
     model := tt; domain_sequence := imagenet_c_corruptions;
     domain_seq_loop := imagenet_c_corruptions;
     severities := [1; 2; 3; 4; 5; 4; 3; 2; 1]%Z |}.

(** A setting that is not supported. *)
Definition w_invalid : xworld :=
  example_world
    (example_cfg "episodic" "imagenet_c" imagenet_c_corruptions [5%Z]) true.
End Example.

(* ================================================================== *)
(** * Double-precision tensors, for running the losses *)
(* ================================================================== *)

Module FloatExample.
Import Losses.
Local Open Scope list_scope.

Definition float : Set := PrimFloat.float.

(** The double nearest to an integer. *)
Definition float_of_Z (z : Z) : float :=
  FloatOps.SF2Prim
    (SpecFloat.binary_normalize FloatOps.prec FloatOps.emax z 0 false).

(** A decimal literal: both parts are exact for the literals of the
    file, so the quotient is the double nearest to the literal. *)
Definition float_of_Q (q : Q) : float :=
  PrimFloat.div (float_of_Z (Qnum q)) (float_of_Z (Zpos (Qden q))).

(** The integer part of a finite double. *)
Definition float_trunc (y : float) : Z :=
  match FloatOps.Prim2SF y with
  | SpecFloat.S754_finite s m e =>
      let v := if Z.leb 0 e then (Zpos m * 2 ^ e)%Z
               else (Zpos m / 2 ^ (- e))%Z in
      if s then (- v)%Z else v
  | _ => 0%Z
  end.

(** Powers with an integer exponent, by repeated multiplication; the
    exponent is truncated. *)
Definition float_pow (x y : float) : float :=
  let k := float_trunc y in
  let p := Z.iter (Z.abs k) (PrimFloat.mul x) (float_of_Z 1) in
  if Z.ltb k 0 then PrimFloat.div (float_of_Z 1) p else p.

Definition FloatNum : Numeric := {|
  num := float;
  add := PrimFloat.add;
  sub := PrimFloat.sub;
  mul := PrimFloat.mul;
  div := PrimFloat.div;
  neg := PrimFloat.opp;
  pow := float_pow;
  of_int := float_of_Z;
  lit := float_of_Q
|}.

Definition float_sum (l : list float) : float :=
  fold_left PrimFloat.add l PrimFloat.zero.

Definition float_mean (l : list float) : float :=
  PrimFloat.div (float_sum l) (float_of_Z (Z.of_nat (List.length l))).

Definition float_dot (a b : list float) : float :=
  float_sum (map (fun ab => PrimFloat.mul (fst ab) (snd ab)) (combine a b)).

Definition float_clamp (v lo hi : float) : float :=
  if PrimFloat.ltb v lo then lo
  else if PrimFloat.ltb hi v then hi else v.

(** The primitive floats have neither [exp] nor [log].  The instance
    weighs an entry [v] by [1 + v * v] where torch takes [exp v], and
    takes [v - 1] where torch takes [log v]: rows keep their lengths,
    the weights are positive and sum to one. *)
Definition float_weight (v : float) : float :=
  PrimFloat.add (float_of_Z 1) (PrimFloat.mul v v).

Definition float_log (v : float) : float :=
  PrimFloat.sub v (float_of_Z 1).

Definition float_softmax_row (r : list float) : list float :=
  let total := float_sum (map float_weight r) in
  map (fun v => PrimFloat.div (float_weight v) total) r.

Definition float_log_softmax_row (r : list float) : list float :=
  map float_log (float_softmax_row r).

(** The position of the first largest entry. *)
Fixpoint argmax_from (best : float) (ibest i : nat) (l : list float)
    : nat :=
  match l with
  | [] => ibest
  | v :: l' =>
      if PrimFloat.ltb best v then argmax_from v i (S i) l'
      else argmax_from best ibest (S i) l'
  end.

Definition float_argmax_row (r : list float) : nat :=
  match r with
  | [] => 0%nat
  | v :: l => argmax_from v 0 1 l
  end.

Lemma argmax_from_range best ibest i l :
  (ibest < i)%nat -> (argmax_from best ibest i l < i + List.length l)%nat.
Proof.
  revert best ibest i.
  induction l as [|v l IH]; intros best ibest i Hi; cbn [argmax_from].
  - cbn. lia.
  - cbn [List.length].
    destruct (PrimFloat.ltb best v).
    + specialize (IH v i (S i)). lia.
    + specialize (IH best ibest (S i)). lia.
Qed.

Lemma float_argmax_row_range (r : list float) :
  r <> [] -> (float_argmax_row r < List.length r)%nat.
Proof.
  destruct r as [|v l]; [ congruence | intros _ ].
  unfold float_argmax_row. cbn [List.length].
  pose proof (@argmax_from_range v 0%nat 1%nat l). lia.
Qed.

Lemma float_softmax_row_length (r : list float) :
  List.length (float_softmax_row r) = List.length r.
Proof. unfold float_softmax_row. apply length_map. Qed.

Lemma float_log_softmax_row_length (r : list float) :
  List.length (float_log_softmax_row r) = List.length r.
Proof.
  unfold float_log_softmax_row. rewrite length_map.
  apply float_softmax_row_length.
Qed.

Definition FloatLib : @TensorLib FloatNum := {|
  softmax_row := float_softmax_row : list (@num FloatNum) -> _;
  log_softmax_row := float_log_softmax_row;
  reduce_sum := float_sum;
  reduce_mean := float_mean;
  dot := float_dot;
  t_log := float_log;
  t_clamp := float_clamp;
  argmax_row := float_argmax_row;
  softmax_row_length := float_softmax_row_length;
  log_softmax_row_length := float_log_softmax_row_length;
  argmax_row_range := float_argmax_row_range
|}.

(** A double divided by zero is an infinity or not a number. *)
Lemma div_zero_not_finite (x : float) :
  PrimFloat.is_finite (PrimFloat.div x (float_of_Z 0)) = false.
Proof.
  change (float_of_Z 0) with PrimFloat.zero.
  unfold PrimFloat.is_finite, PrimFloat.is_nan, PrimFloat.is_infinity.
  rewrite !FloatAxioms.eqb_spec, FloatAxioms.abs_spec, FloatAxioms.div_spec.
  change (FloatOps.Prim2SF PrimFloat.zero) with (SpecFloat.S754_zero false).
  change (FloatOps.Prim2SF PrimFloat.infinity)
    with (SpecFloat.S754_infinity false).
  destruct (FloatOps.Prim2SF x) as [[]|[]| |[] mx ex]; reflexivity.
Qed.

End FloatExample.

(* ================================================================== *)
(** * Reasoning about the driver *)
(* ================================================================== *)

Import Driver.
Local Open Scope list_scope.

Section DriverLogic.
Context {N : Numeric} {O : Opaque} {X : Externals}.

(** ** Weakest preconditions, with one postcondition per way of leaving *)

Definition wp {A} (m : M A) (s : dstate)
    (Q : A -> dstate -> Prop) (E : exn -> dstate -> Prop) : Prop :=
  match m s with
  | (Ok a, s') => Q a s'
  | (Raise e, s') => E e s'
  end.

Lemma wp_ret A (a : A) s (Q : A -> dstate -> Prop) E :
  Q a s -> wp (ret a) s Q E.
Proof. exact (fun H => H). Qed.

Lemma wp_bind A B (m : M A) (k : A -> M B) s Q E :
  wp m s (fun a s' => wp (k a) s' Q E) E -> wp (bind m k) s Q E.
Proof.
  unfold wp, bind. destruct (m s) as [[a|e] s']; trivial.
Qed.

Lemma wp_mono A (m : M A) s (Q Q' : A -> dstate -> Prop)
    (E E' : exn -> dstate -> Prop) :
  wp m s Q E ->
  (forall a s', Q a s' -> Q' a s') ->
  (forall e s', E e s' -> E' e s') ->
  wp m s Q' E'.
Proof.
  unfold wp. destruct (m s) as [[a|e] s']; auto.
Qed.

Lemma wp_throw A e s (Q : A -> dstate -> Prop) (E : exn -> dstate -> Prop) :
  E e s -> wp (throw e) s Q E.
Proof. exact (fun H => H). Qed.

Lemma wp_lift A (r : outcome A) s (Q : A -> dstate -> Prop)
    (E : exn -> dstate -> Prop) :
  match r with Ok a => Q a s | Raise e => E e s end -> wp (lift r) s Q E.
Proof. exact (fun H => H). Qed.

Lemma wp_gets A (f : dstate -> A) s (Q : A -> dstate -> Prop) E :
  Q (f s) s -> wp (gets f) s Q E.
Proof. exact (fun H => H). Qed.

Lemma wp_modify f s (Q : unit -> dstate -> Prop) E :
  Q tt (f s) -> wp (modify f) s Q E.
Proof. exact (fun H => H). Qed.

Lemma wp_log l m s (Q : unit -> dstate -> Prop) E :
  Q tt (set_world (world s) (trace s ++ [EvLog l m]) s) -> wp (log l m) s Q E.
Proof. exact (fun H => H). Qed.

Lemma wp_ext c s (Q : ret_ty c -> dstate -> Prop) E :
  (forall r w, handle c (world s) = (r, w) ->
     match r with
     | Ok a => Q a (set_world w (trace s ++ [EvCall c None]) s)
     | Raise e => E e (set_world w (trace s ++ [EvCall c (Some e)]) s)
     end) ->
  wp (ext c) s Q E.
Proof.
  intros H. unfold wp, ext.
  destruct (handle c (world s)) as [r w] eqn:Hc.
  specialize (H r w eq_refl). destruct r; exact H.
Qed.

Lemma wp_assert b m s (Q : unit -> dstate -> Prop)
    (E : exn -> dstate -> Prop) :
  (b = true -> Q tt s) -> (b = false -> E (AssertionError m) s) ->
  wp (py_assert b m) s Q E.
Proof.
  intros Ht Hf. destruct b; [apply Ht | apply Hf]; reflexivity.
Qed.

Lemma wp_try body handler s (Q : unit -> dstate -> Prop) E :
  wp body s Q
     (fun e s' => if is_AttributeError e then wp handler s' Q E
                  else E e s') ->
  wp (try_except_AttributeError body handler) s Q E.
Proof.
  unfold wp, try_except_AttributeError.
  destruct (body s) as [[a|e] s']; trivial.
  destruct (is_AttributeError e); trivial.
Qed.

(** A loop, with an invariant indexed by the iterations already done. *)
Lemma wp_for_each_from A (body : A -> M unit)
    (I : list A -> dstate -> Prop) E (rest done : list A) :
  (forall d a s', (exists r, done ++ rest = d ++ a :: r) -> I d s' ->
     wp (body a) s' (fun _ s'' => I (d ++ [a]) s'') E) ->
  forall s, I done s ->
  wp (for_each rest body) s (fun _ s' => I (done ++ rest) s') E.
Proof.
  revert done. induction rest as [|a rest IH]; intros done Hbody s HI.
  - rewrite app_nil_r. exact HI.
  - cbn [for_each]. apply wp_bind.
    eapply wp_mono; [ apply (Hbody done a s); eauto | | auto ].
    intros u s' HI'. cbv beta in HI'.
    replace (done ++ a :: rest) with ((done ++ [a]) ++ rest)
      by (rewrite <- app_assoc; reflexivity).
    apply IH; [ | exact HI' ].
    intros d b s'' [r Hr]. apply Hbody. exists r.
    rewrite <- Hr, <- app_assoc. reflexivity.
Qed.

Lemma wp_for_each A (l : list A) (body : A -> M unit)
    (I : list A -> dstate -> Prop) E s :
  I [] s ->
  (forall d a s', (exists r, l = d ++ a :: r) -> I d s' ->
     wp (body a) s' (fun _ s'' => I (d ++ [a]) s'') E) ->
  wp (for_each l body) s (fun _ s' => I l s') E.
Proof.
  intros H0 Hbody. exact (wp_for_each_from body I E l [] Hbody s H0).
Qed.

(** ** What a computation adds to a projection of the trace *)

Section Emits.
Variable K : Type.
Variable key : event -> list K.
(** The projection looks at the call and not at how it ended. *)
Hypothesis key_call : forall c e, key (EvCall c e) = key (EvCall c None).

Definition keys (t : list event) : list K := flat_map key t.

Definition emits {A} (m : M A) (exp : list K) : Prop :=
  forall s,
    match m s with
    | (Ok _, s') => keys (trace s') = keys (trace s) ++ exp
    | (Raise _, s') =>
        exists p q, exp = p ++ q /\ keys (trace s') = keys (trace s) ++ p
    end.

Lemma keys_snoc t ev : keys (t ++ [ev]) = keys t ++ key ev.
Proof.
  unfold keys. rewrite flat_map_app. cbn. rewrite app_nil_r. reflexivity.
Qed.

Lemma emits_ret A (a : A) : emits (ret a) [].
Proof. intros s. cbn. rewrite app_nil_r. reflexivity. Qed.

Lemma emits_lift A (r : outcome A) exp :
  match r with Ok _ => exp = [] | Raise _ => True end ->
  emits (lift r) exp.
Proof.
  intros H s. cbn. destruct r.
  - subst exp. rewrite app_nil_r. reflexivity.
  - exists [], exp. rewrite app_nil_r. split; reflexivity.
Qed.

Lemma emits_throw A e exp : emits (@throw _ _ A e) exp.
Proof.
  intros s. cbn. exists [], exp. rewrite app_nil_r. split; reflexivity.
Qed.

Lemma emits_gets A (f : dstate -> A) : emits (gets f) [].
Proof. intros s. cbn. rewrite app_nil_r. reflexivity. Qed.

Lemma emits_modify f :
  (forall s, trace (f s) = trace s) -> emits (modify f) [].
Proof. intros H s. cbn. rewrite H, app_nil_r. reflexivity. Qed.

Lemma emits_log l m : emits (log l m) (key (EvLog l m)).
Proof. intros s. cbn. apply keys_snoc. Qed.

Lemma emits_ext c : emits (ext c) (key (EvCall c None)).
Proof.
  intros s. unfold ext. destruct (handle c (world s)) as [[a|e] w]; cbn.
  - apply keys_snoc.
  - exists (key (EvCall c None)), []. rewrite app_nil_r.
    split; [ reflexivity | ]. rewrite keys_snoc, key_call. reflexivity.
Qed.

Lemma emits_bind A B (m : M A) (k : A -> M B) e1 e2 :
  emits m e1 -> (forall a, emits (k a) e2) -> emits (bind m k) (e1 ++ e2).
Proof.
  intros Hm Hk s. unfold bind. specialize (Hm s).
  destruct (m s) as [[a|e] s'].
  - specialize (Hk a s'). destruct (k a s') as [[b|e] s''].
    + rewrite Hk, Hm, app_assoc. reflexivity.
    + destruct Hk as (p & q & -> & Hk).
      exists (e1 ++ p), q. rewrite Hk, Hm, !app_assoc. split; reflexivity.
  - destruct Hm as (p & q & -> & Hm).
    exists p, (q ++ e2). rewrite <- app_assoc. split; [ reflexivity | exact Hm ].
Qed.

(** A pure step whose value the rest depends on. *)
Lemma emits_bind_lift A B (r : outcome A) (k : A -> M B) exp :
  (forall a, r = Ok a -> emits (k a) exp) -> emits (bind (lift r) k) exp.
Proof.
  intros H s. unfold bind, lift. destruct r as [a|e].
  - apply (H a eq_refl).
  - exists [], exp. rewrite app_nil_r. split; reflexivity.
Qed.

Lemma emits_for_each A (l : list A) (body : A -> M unit)
    (g : A -> list K) :
  (forall a, emits (body a) (g a)) ->
  emits (for_each l body) (flat_map g l).
Proof.
  intros H. induction l as [|a l IH]; cbn [for_each flat_map].
  - apply emits_ret.
  - apply emits_bind; [ apply H | intros _; exact IH ].
Qed.

Lemma emits_try body handler :
  emits body [] -> emits handler [] ->
  emits (try_except_AttributeError body handler) [].
Proof.
  intros Hb Hh s. unfold try_except_AttributeError. specialize (Hb s).
  destruct (body s) as [[a|e] s']; [ exact Hb | ].
  destruct Hb as (p & q & Hpq & Hb).
  symmetry in Hpq. apply app_eq_nil in Hpq. destruct Hpq; subst.
  destruct (is_AttributeError e).
  - specialize (Hh s'). destruct (handler s') as [[a|e'] s''].
    + rewrite Hh, Hb, !app_nil_r. reflexivity.
    + destruct Hh as (p' & q' & Hpq & Hh).
      symmetry in Hpq. apply app_eq_nil in Hpq. destruct Hpq; subst.
      exists [], []. rewrite Hh, Hb, !app_nil_r. split; reflexivity.
  - exists [], []. split; [ reflexivity | exact Hb ].
Qed.
End Emits.

End DriverLogic.

Section DriverFacts.
Context {N : Numeric} {O : Opaque} {X : Externals}.
Local Open Scope string_scope.
Local Open Scope list_scope.

Lemma py_in_In x l : py_in x l = true <-> In x l.
Proof.
  unfold py_in. rewrite existsb_exists. split.
  - intros (y & Hy & Heq). apply String.eqb_eq in Heq. subst. exact Hy.
  - intros H. exists x. split; [ exact H | apply String.eqb_refl ].
Qed.

Lemma py_in_not_In x l : py_in x l = false <-> ~ In x l.
Proof.
  rewrite <- py_in_In. destruct (py_in x l); split; congruence.
Qed.

(** ** The calls of the evaluation plan *)

(** The two calls that every evaluation makes, with the arguments that
    tell one evaluation from another. *)
Inductive step_call : Type :=
| LoaderCall (setting domain_name : string) (severity : Z)
| AccuracyCall (setting domain_name : string).

Definition step_calls_of (ev : event) : list step_call :=
  match ev with
  | EvCall (get_test_loader a) _ =>
      [ LoaderCall (tl_setting a) (tl_domain_name a) (tl_severity a) ]
  | EvCall (get_accuracy a) _ =>
      [ AccuracyCall (ga_setting a) (ga_domain_name a) ]
  | _ => []
  end.

Definition step_calls (t : list event) : list step_call :=
  keys step_calls_of t.

(** The combinations (subgroup, cycle, domain index, severity), in the
    order of the four nested loops. *)
Definition combinations (c : ctx) : list (py_range * nat * nat * Z) :=
  flat_map (fun subgroup =>
    flat_map (fun cycle =>
      flat_map (fun i_dom =>
        map (fun severity => (subgroup, cycle, i_dom, severity))
            (severities c))
        (range_list subgroup))
      (seq 0 2))
    subgroups.

Definition calls_of_combination (c : ctx)
    (k : py_range * nat * nat * Z) : list step_call :=
  let '(_, _, i_dom, severity) := k in
  let domain_name := nth i_dom (domain_seq_loop c) "" in
  [ LoaderCall (SETTING (cfg c)) domain_name severity;
    AccuracyCall (SETTING (cfg c)) domain_name ].

Definition planned_calls (c : ctx) : list step_call :=
  flat_map (calls_of_combination c) (combinations c).

(** The calls of the final pass of the [continual_mixed_domain] setting. *)
Definition mixed_pass_calls (c : ctx) : list step_call :=
  if String.eqb (SETTING (cfg c)) "continual_mixed_domain" then
    flat_map (fun severity =>
                [ LoaderCall "mixed_domains" "mixed" severity;
                  AccuracyCall "mixed_domains" "mixed" ])
             (severities c)
  else [].

Lemma step_calls_of_call c e :
  step_calls_of (EvCall c e) = step_calls_of (EvCall c None).
Proof. destruct c; reflexivity. Qed.

Lemma emits_eq A (m : M A) e e' :
  emits step_calls_of m e -> e = e' -> emits step_calls_of m e'.
Proof. intros H <-. exact H. Qed.

Lemma emits_if A (b : bool) (m1 m2 : M A) e :
  emits step_calls_of m1 e -> emits step_calls_of m2 e ->
  emits step_calls_of (if b then m1 else m2) e.
Proof. destruct b; trivial. Qed.

Lemma emits_assert b m : emits step_calls_of (py_assert b m) [].
Proof.
  destruct b; [ apply emits_ret | apply emits_throw ].
Qed.

Lemma emits_lift_nil A (r : outcome A) : emits step_calls_of (lift r) [].
Proof. apply emits_lift. destruct r; trivial. Qed.

Lemma emits_for_each_nil A (l : list A) (body : A -> M unit) :
  (forall a, emits step_calls_of (body a) []) ->
  emits step_calls_of (for_each l body) [].
Proof.
  intros H. induction l as [|a l IH]; cbn [for_each].
  - apply emits_ret.
  - apply (@emits_bind _ _ _ _ _ _ _ _ [] []); [ apply H | intros _; exact IH ].
Qed.

Create HintDb emits_db.

(** Walks a computation and collects what it emits. *)
Ltac emits_go :=
  lazymatch goal with
  | |- emits _ (bind _ _) _ =>
      eapply emits_bind; [ emits_go | intro; emits_go ]
  | |- emits _ (ret _) _ => apply emits_ret
  | |- emits _ (gets _) _ => apply emits_gets
  | |- emits _ (modify _) _ => apply emits_modify; intro; reflexivity
  | |- emits _ (log ?l ?m) _ =>
      let k := eval cbn in (step_calls_of (EvLog l m)) in
      exact (emits_log step_calls_of l m : emits step_calls_of (log l m) k)
  | |- emits _ (ext ?c) _ =>
      let k := eval cbn in (step_calls_of (EvCall c None)) in
      exact (emits_ext step_calls_of step_calls_of_call c
             : emits step_calls_of (ext c) k)
  | |- emits _ (lift _) _ => apply emits_lift_nil
  | |- emits _ (throw _) _ => apply emits_throw
  | |- emits _ (py_assert _ _) _ => apply emits_assert
  | |- emits _ (if _ then _ else _) _ =>
      apply emits_if; (eapply emits_eq; [ emits_go | reflexivity ])
  | |- emits _ (match ?r with (_, _) => _ end) _ => destruct r; emits_go
  | |- emits _ (for_each _ _) _ =>
      first [ apply emits_for_each_nil; intro;
              eapply emits_eq; [ emits_go | reflexivity ]
            | eapply emits_for_each; intro; emits_go ]
  | |- _ => solve [ eauto with emits_db | typeclasses eauto with emits_db ]
  end.

Lemma flat_map_const_nil A B (l : list A) :
  flat_map (fun _ => @nil B) l = [].
Proof. induction l; cbn; trivial. Qed.

Ltac emits_solve :=
  eapply emits_eq;
  [ emits_go
  | cbn [app]; rewrite ?flat_map_const_nil; cbn [app];
    rewrite ?app_nil_r; reflexivity ].

Lemma emits_make_test_loader c setting domain_name severity :
  emits step_calls_of (make_test_loader c setting domain_name severity)
              [ LoaderCall setting domain_name severity ].
Proof. unfold make_test_loader. emits_solve. Qed.

Lemma emits_call_get_accuracy c loader setting domain_name :
  emits step_calls_of (call_get_accuracy c loader setting domain_name)
              [ AccuracyCall setting domain_name ].
Proof. unfold call_get_accuracy. emits_solve. Qed.

Lemma emits_record_errs_5 severity domain_name err :
  emits step_calls_of (record_errs_5 severity domain_name err) [].
Proof. unfold record_errs_5. emits_solve. Qed.

Hint Resolve emits_make_test_loader emits_call_get_accuracy
  emits_record_errs_5 : emits_db.

Lemma emits_evaluate_domain_severity c subgroup i_dom domain_name severity :
  emits step_calls_of (evaluate_domain_severity c subgroup i_dom domain_name severity)
              [ LoaderCall (SETTING (cfg c)) domain_name severity;
                AccuracyCall (SETTING (cfg c)) domain_name ].
Proof. unfold evaluate_domain_severity. emits_solve. Qed.

Hint Resolve emits_evaluate_domain_severity : emits_db.

Definition domain_calls (c : ctx) (i_dom : nat) : list step_call :=
  flat_map (fun severity =>
              calls_of_combination c (Range 0 0, 0%nat, i_dom, severity))
           (severities c).

Lemma py_index_nth A (l : list A) i a d :
  py_index l i = Ok a -> nth i l d = a.
Proof.
  unfold py_index. destruct (nth_error l i) eqn:E; [ | discriminate ].
  intros [= <-]. apply nth_error_nth. exact E.
Qed.

Lemma emits_run_domain c subgroup i_dom :
  emits step_calls_of (run_domain c subgroup i_dom) (domain_calls c i_dom).
Proof.
  unfold run_domain, domain_calls. apply emits_bind_lift. intros d Hd.
  apply emits_for_each. intros severity. cbn [calls_of_combination].
  rewrite (py_index_nth _ _ "" Hd). apply emits_evaluate_domain_severity.
Qed.

Hint Resolve emits_for_each emits_run_domain : emits_db.

Definition cycle_calls (c : ctx) (subgroup : py_range) : list step_call :=
  flat_map (domain_calls c) (range_list subgroup).

Lemma emits_run_cycle c subgroup cycle :
  emits step_calls_of (run_cycle c subgroup cycle) (cycle_calls c subgroup).
Proof. unfold run_cycle, cycle_calls. emits_solve. Qed.

Hint Resolve emits_run_cycle : emits_db.

Lemma emits_reset_model c subgroup :
  emits step_calls_of (reset_model c subgroup) [].
Proof. unfold reset_model. apply emits_try; emits_solve. Qed.

Hint Resolve emits_reset_model : emits_db.

Definition subgroup_calls (c : ctx) (subgroup : py_range) : list step_call :=
  flat_map (fun _ : nat => cycle_calls c subgroup) (seq 0 2).

Lemma emits_run_subgroup c subgroup :
  emits step_calls_of (run_subgroup c subgroup) (subgroup_calls c subgroup).
Proof. unfold run_subgroup, run_cycles, subgroup_calls. emits_solve. Qed.

Hint Resolve emits_run_subgroup : emits_db.

Lemma emits_report_averages : emits step_calls_of report_averages [].
Proof. unfold report_averages. emits_solve. Qed.

Lemma emits_evaluate_mixed_severity c severity :
  emits step_calls_of (evaluate_mixed_severity c severity)
        [ LoaderCall "mixed_domains" "mixed" severity;
          AccuracyCall "mixed_domains" "mixed" ].
Proof. unfold evaluate_mixed_severity. emits_solve. Qed.

Hint Resolve emits_evaluate_mixed_severity : emits_db.

Lemma emits_mixed_pass c :
  emits step_calls_of (mixed_pass c) (mixed_pass_calls c).
Proof.
  unfold mixed_pass, mixed_pass_calls.
  destruct (String.eqb (SETTING (cfg c)) "continual_mixed_domain").
  - emits_solve.
  - apply emits_ret.
Qed.

Lemma emits_finish c : emits step_calls_of (finish c) [].
Proof. unfold finish. emits_solve. Qed.

Hint Resolve emits_report_averages emits_mixed_pass emits_finish : emits_db.

Lemma flat_map_flat_map A B C (f : B -> list C) (g : A -> list B) l :
  flat_map f (flat_map g l) = flat_map (fun a => flat_map f (g a)) l.
Proof.
  induction l as [|a l IH]; cbn; [ reflexivity | ].
  rewrite flat_map_app, IH. reflexivity.
Qed.

Lemma flat_map_map A B C (f : B -> list C) (g : A -> B) l :
  flat_map f (map g l) = flat_map (fun a => f (g a)) l.
Proof.
  induction l as [|a l IH]; cbn; [ reflexivity | ].
  rewrite IH. reflexivity.
Qed.

Lemma planned_calls_subgroups c :
  flat_map (subgroup_calls c) subgroups = planned_calls c.
Proof.
  unfold planned_calls, combinations. rewrite flat_map_flat_map.
  apply flat_map_ext. intros subgroup.
  unfold subgroup_calls. rewrite flat_map_flat_map.
  apply flat_map_ext. intros cycle.
  unfold cycle_calls. rewrite flat_map_flat_map.
  apply flat_map_ext. intros i_dom.
  unfold domain_calls. rewrite flat_map_map. reflexivity.
Qed.

Lemma emits_evaluation c :
  emits step_calls_of (evaluation c) (planned_calls c ++ mixed_pass_calls c).
Proof.
  unfold evaluation. rewrite <- planned_calls_subgroups. emits_solve.
Qed.

Lemma emits_describe_ours cfg : emits step_calls_of (describe_ours cfg) [].
Proof. unfold describe_ours. emits_solve. Qed.

Lemma emits_get_domain_sequence cfg :
  emits step_calls_of (get_domain_sequence cfg) [].
Proof. unfold get_domain_sequence. emits_solve. Qed.

Lemma emits_get_severities cfg : emits step_calls_of (get_severities cfg) [].
Proof. unfold get_severities. emits_solve. Qed.

Hint Resolve emits_describe_ours emits_get_domain_sequence
  emits_get_severities : emits_db.

Lemma emits_setup description : emits step_calls_of (setup description) [].
Proof. unfold setup, load_and_validate, prepare. emits_solve. Qed.

Lemma evaluate_after_setup description w c s1 :
  setup description (initial w) = (Ok c, s1) ->
  evaluate description w = evaluation c s1.
Proof.
  intros H. unfold evaluate, evaluate_body, bind. rewrite H. reflexivity.
Qed.

Lemma setup_makes_no_step_call description w c s1 :
  setup description (initial w) = (Ok c, s1) -> step_calls (trace s1) = [].
Proof.
  intros H. pose proof (emits_setup description (initial w)) as E.
  rewrite H in E. exact E.
Qed.

Lemma emits_subgroup_loop c :
  emits step_calls_of (for_each subgroups (run_subgroup c)) (planned_calls c).
Proof. rewrite <- planned_calls_subgroups. emits_solve. Qed.

(** ** Symbolic execution of straight-line driver code *)

Ltac st_simpl :=
  unfold set_world, set_errs, set_errs_5, set_domain_dict, set_subgroup_avgs,
    set_cycle_avgs_all_subgroups, set_subgroup_cycle_errs, set_cycle_errs in *;
  cbn [world trace errs errs_5 domain_dict subgroup_avgs
       cycle_avgs_all_subgroups subgroup_cycle_errs cycle_errs fst snd] in *.

Ltac wp_step :=
  lazymatch goal with
  | |- wp (bind _ _) _ _ _ => apply wp_bind
  | |- wp (ret _) _ _ _ => apply wp_ret
  | |- wp (gets _) _ _ _ => apply wp_gets
  | |- wp (modify _) _ _ _ => apply wp_modify
  | |- wp (log _ _) _ _ _ => apply wp_log
  | |- wp (throw _) _ _ _ => apply wp_throw
  | |- wp (lift ?r) _ _ _ =>
      apply wp_lift; let E := fresh "Hlift" in destruct r eqn:E
  | |- wp (py_assert _ _) _ _ _ => apply wp_assert; intro
  | |- wp (ext ?c) _ _ _ =>
      let r := fresh "r" in
      let w := fresh "w" in
      let H := fresh "Hcall" in
      apply (wp_ext c); intros r w H; destruct r
  | |- wp (if ?b then _ else _) _ _ _ =>
      let E := fresh "Hif" in destruct b eqn:E
  | |- wp (match ?r with (_, _) => _ end) _ _ _ => destruct r
  | |- wp (try_except_AttributeError _ _) _ _ _ => apply wp_try
  | |- if is_AttributeError ?e then _ else _ =>
      let E := fresh "Hattr" in destruct (is_AttributeError e) eqn:E
  end.

Ltac wp_go := repeat (wp_step; st_simpl).

(** ** The state of the bookkeeping during the loops *)

(** The logged averages that the run reports. *)
Inductive report : Type :=
| CycleReport (subgroup : py_range) (cycle : Z) (avg : num)
| SubgroupReport (subgroup : py_range) (avg : num)
| TotalReport (avg : num).

Definition reports_of (ev : event) : list report :=
  match ev with
  | EvLog _ (MsgCycleAvg subgroup cycle avg) =>
      [ CycleReport subgroup cycle avg ]
  | EvLog _ (MsgSubgroupAvg subgroup avg) => [ SubgroupReport subgroup avg ]
  | EvLog _ (MsgTotalAvg avg) => [ TotalReport avg ]
  | _ => []
  end.

Definition reports (t : list event) : list report := flat_map reports_of t.

Lemma reports_snoc t ev : reports (t ++ [ev]) = reports t ++ reports_of ev.
Proof.
  unfold reports. rewrite flat_map_app. cbn. rewrite app_nil_r. reflexivity.
Qed.

(** The arithmetic mean as the driver computes it: [sum(l) / len(l)]. *)
Definition mean_of (l : list num) : num :=
  div (py_sum l) (of_int (Z.of_nat (List.length l))).

(** The arithmetic mean of a list, stated apart from the code: its
    entries are added one after the other, the first of them to zero,
    and the total is divided by their number. *)
Fixpoint total_from (acc : num) (l : list num) : num :=
  match l with
  | [] => acc
  | x :: l' => total_from (add acc x) l'
  end.

Definition arithmetic_mean (l : list num) : num :=
  div (total_from (of_int 0) l) (of_int (Z.of_nat (List.length l))).

Lemma py_sum_total_from (l : list num) :
  py_sum l = total_from (of_int 0) l.
Proof.
  unfold py_sum. generalize (of_int 0%Z).
  induction l as [|x l IH]; intros acc; cbn; [ reflexivity | apply IH ].
Qed.

Lemma mean_of_arithmetic (l : list num) : mean_of l = arithmetic_mean l.
Proof.
  unfold mean_of, arithmetic_mean. rewrite py_sum_total_from. reflexivity.
Qed.

Lemma py_mean_mean_of l : l <> [] -> py_mean l = Ok (mean_of l).
Proof. destruct l; [ congruence | reflexivity ]. Qed.

Lemma py_mean_Ok l a : py_mean l = Ok a -> l <> [] /\ a = mean_of l.
Proof.
  destruct l; [ discriminate | ]. intros [= <-]. split; [ discriminate | reflexivity ].
Qed.

Lemma py_mean_Raise l e :
  py_mean l = Raise e -> l = [] /\ e = ZeroDivisionError.
Proof. destruct l; [ intros [= <-]; auto | discriminate ]. Qed.

(** The exception [e] comes from outside the driver, and it is the last
    thing that happened: an external call raised it, or [os.cpu_count()]
    returned [None] and [min] raised the [TypeError]. *)
Definition env_failure (e : exn) (s : dstate) : Prop :=
  (exists t c, trace s = t ++ [EvCall c (Some e)]) \/
  (e = TypeError /\ exists t, trace s = t ++ [EvCall os_cpu_count None]).

(** The values of the bookkeeping locals and of the reports logged. *)
Record books : Type := {
  b_errs : list num;
  b_cycle_errs : list num;
  b_subgroup_cycle_errs : list num;
  b_subgroup_avgs : list num;
  b_cycle_1 : list num;
  b_cycle_2 : list num;
  b_reports : list report
}.

Definition has_books (s : dstate) (b : books) : Prop :=
  errs s = b_errs b /\
  cycle_errs s = b_cycle_errs b /\
  subgroup_cycle_errs s = b_subgroup_cycle_errs b /\
  subgroup_avgs s = b_subgroup_avgs b /\
  cycle_avgs_all_subgroups s = [ (1%Z, b_cycle_1 b); (2%Z, b_cycle_2 b) ] /\
  reports (trace s) = b_reports b.

(** [l] more errors recorded, globally and in the current cycle. *)
Definition more_errs (l : list num) (b : books) : books :=
  {| b_errs := b_errs b ++ l;
     b_cycle_errs := b_cycle_errs b ++ l;
     b_subgroup_cycle_errs := b_subgroup_cycle_errs b;
     b_subgroup_avgs := b_subgroup_avgs b;
     b_cycle_1 := b_cycle_1 b;
     b_cycle_2 := b_cycle_2 b;
     b_reports := b_reports b |}.

Lemma more_errs_nil b : more_errs [] b = b.
Proof. destruct b. unfold more_errs. cbn. rewrite !app_nil_r. reflexivity. Qed.

Lemma more_errs_app l1 l2 b :
  more_errs l2 (more_errs l1 b) = more_errs (l1 ++ l2) b.
Proof. unfold more_errs. cbn. rewrite !app_assoc. reflexivity. Qed.

Ltac env_fail :=
  unfold env_failure; st_simpl;
  first [ left; eexists; eexists; reflexivity
        | right; split; [ congruence | eexists; reflexivity ] ].

Ltac books_simpl :=
  unfold has_books, more_errs in *; st_simpl;
  cbn [b_errs b_cycle_errs b_subgroup_cycle_errs b_subgroup_avgs b_cycle_1
       b_cycle_2 b_reports] in *.

Ltac books_done :=
  books_simpl;
  repeat match goal with H : _ /\ _ |- _ => destruct H end;
  repeat split; rewrite ?reports_snoc; cbn [reports_of app];
  rewrite ?app_nil_r; auto.

Lemma books_evaluate_domain_severity c subgroup i_dom domain_name severity
    s b :
  has_books s b ->
  wp (evaluate_domain_severity c subgroup i_dom domain_name severity) s
     (fun _ s' => exists err, has_books s' (more_errs [err] b))
     env_failure.
Proof.
  destruct s. intros Hb. books_simpl.
  destruct Hb as (He & Hce & Hsce & Hsa & Hca & Hr). subst.
  unfold evaluate_domain_severity, make_test_loader, call_get_accuracy,
    record_errs_5, py_min_workers.
  wp_go;
    try solve [ eexists; books_done ];
    try solve [ env_fail ];
    try solve [ match goal with
                | a : ret_ty os_cpu_count |- _ =>
                    destruct a; [ discriminate | ]
                end; env_fail ].
Qed.

Lemma books_severity_loop c subgroup i_dom domain_name (sevs : list Z) s b :
  has_books s b ->
  wp (for_each sevs (evaluate_domain_severity c subgroup i_dom domain_name)) s
     (fun _ s' => exists l, List.length l = List.length sevs /\
                            has_books s' (more_errs l b))
     env_failure.
Proof.
  intros Hb.
  apply (wp_for_each _
           (fun done s' => exists l, List.length l = List.length done /\
                                     has_books s' (more_errs l b))).
  - exists []. rewrite more_errs_nil. auto.
  - intros done severity s' _ (l & Hl & Hs').
    eapply wp_mono.
    + apply books_evaluate_domain_severity. exact Hs'.
    + cbv beta. intros _ s'' (err & Hs''). exists (l ++ [err]).
      rewrite more_errs_app in Hs''. split; [ | exact Hs'' ].
      rewrite !length_app, Hl. reflexivity.
    + auto.
Qed.

(** The exception [e] comes from indexing the looped domain sequence at
    one of the indices [idxs], past its end. *)
Definition index_failure (c : ctx) (idxs : list nat) (e : exn) : Prop :=
  e = IndexError /\
  exists i, In i idxs /\ (List.length (domain_seq_loop c) <= i)%nat.

Definition in_sequence (c : ctx) (idxs : list nat) : Prop :=
  forall i, In i idxs -> (i < List.length (domain_seq_loop c))%nat.

Lemma books_run_domain c subgroup i_dom s b :
  has_books s b ->
  wp (run_domain c subgroup i_dom) s
     (fun _ s' => in_sequence c [i_dom] /\
                  exists l, List.length l = List.length (severities c) /\
                            has_books s' (more_errs l b))
     (fun e s' => env_failure e s' \/ index_failure c [i_dom] e).
Proof.
  intros Hb. unfold run_domain. apply wp_bind, wp_lift.
  unfold py_index. destruct (nth_error (domain_seq_loop c) i_dom) eqn:Hi.
  - eapply wp_mono.
    + apply books_severity_loop. exact Hb.
    + cbv beta. intros _ s' H. split; [ | exact H ].
      intros i [<-|[]]. apply nth_error_Some. congruence.
    + auto.
  - right. split; [ reflexivity | ]. exists i_dom.
    split; [ left; reflexivity | ]. apply nth_error_None. exact Hi.
Qed.

Lemma books_domain_loop c subgroup (idxs : list nat) s b :
  has_books s b ->
  wp (for_each idxs (run_domain c subgroup)) s
     (fun _ s' =>
        in_sequence c idxs /\
        exists l,
          List.length l
            = (List.length idxs * List.length (severities c))%nat /\
          has_books s' (more_errs l b))
     (fun e s' => env_failure e s' \/ index_failure c idxs e).
Proof.
  intros Hb.
  eapply wp_mono.
  - apply (wp_for_each _
             (fun done s' =>
                in_sequence c done /\
                exists l,
                  List.length l
                    = (List.length done * List.length (severities c))%nat /\
                  has_books s' (more_errs l b))
             (fun e s' =>
                env_failure e s' \/
                exists i, In i idxs /\ index_failure c [i] e)).
    + split; [ intros i [] | ]. exists []. rewrite more_errs_nil. auto.
    + intros done i s' [r Hr] (Hin & l & Hl & Hs').
      eapply wp_mono.
      * apply books_run_domain. exact Hs'.
      * cbv beta. intros _ s'' (Hi & l' & Hl' & Hs'').
        split.
        { intros j Hj. apply in_app_or in Hj. destruct Hj; auto. }
        exists (l ++ l'). rewrite more_errs_app in Hs''.
        split; [ | exact Hs'' ].
        rewrite !length_app, Hl, Hl'. cbn. lia.
      * intros e s'' [H|H]; [ left; exact H | right ].
        exists i. split; [ | exact H ].
        rewrite Hr. apply in_or_app. right. left. reflexivity.
  - auto.
  - intros e s' [H|(i & Hi & He & j & [<-|[]] & Hj)]; [ left; exact H | right ].
    split; [ exact He | ]. exists i. auto.
Qed.

(** The books after a cycle of [subgroup] that recorded the errors [l]. *)
Definition after_cycle (subgroup : py_range) (cycle : nat) (l : list num)
    (b : books) : books :=
  {| b_errs := b_errs b ++ l;
     b_cycle_errs := l;
     b_subgroup_cycle_errs := b_subgroup_cycle_errs b ++ [mean_of l];
     b_subgroup_avgs := b_subgroup_avgs b;
     b_cycle_1 :=
       if Nat.eqb cycle 0 then b_cycle_1 b ++ [mean_of l] else b_cycle_1 b;
     b_cycle_2 :=
       if Nat.eqb cycle 0 then b_cycle_2 b else b_cycle_2 b ++ [mean_of l];
     b_reports :=
       b_reports b
         ++ [CycleReport subgroup (Z.of_nat cycle + 1) (mean_of l)] |}.

(** The exception [e] is the division by zero of the average of a cycle
    over [idxs] that recorded no error. *)
Definition empty_cycle_failure (c : ctx) (idxs : list nat) (e : exn) : Prop :=
  e = ZeroDivisionError /\ in_sequence c idxs /\
  (List.length idxs * List.length (severities c) = 0)%nat.

Lemma books_run_cycle c subgroup cycle s b :
  (cycle < 2)%nat ->
  has_books s b ->
  wp (run_cycle c subgroup cycle) s
     (fun _ s' =>
        in_sequence c (range_list subgroup) /\
        exists l,
          List.length l
            = (List.length (range_list subgroup)
               * List.length (severities c))%nat /\
          l <> [] /\
          has_books s' (after_cycle subgroup cycle l b))
     (fun e s' =>
        env_failure e s' \/ index_failure c (range_list subgroup) e \/
        empty_cycle_failure c (range_list subgroup) e).
Proof.
  intros Hcycle Hb. unfold run_cycle.
  apply wp_bind, wp_modify, wp_bind.
  eapply wp_mono.
  - apply (books_domain_loop c subgroup (range_list subgroup)
             (b := {| b_errs := b_errs b; b_cycle_errs := [];
                      b_subgroup_cycle_errs := b_subgroup_cycle_errs b;
                      b_subgroup_avgs := b_subgroup_avgs b;
                      b_cycle_1 := b_cycle_1 b; b_cycle_2 := b_cycle_2 b;
                      b_reports := b_reports b |})).
    destruct s. books_simpl. intuition.
  - cbv beta. intros _ s' (Hin & l & Hl & Hs').
    destruct s'. books_simpl.
    destruct Hs' as (He & Hce & Hsce & Hsa & Hca & Hr). subst.
    cbn [app] in *. wp_go.
    + apply py_mean_Ok in Hlift. destruct Hlift as [Hne ->].
      split; [ exact Hin | ]. exists l.
      split; [ exact Hl | ]. split; [ exact Hne | ].
      unfold after_cycle. books_simpl. rewrite reports_snoc. cbn [reports_of].
      rewrite Hr.
      destruct cycle as [|[|cycle]]; [ | | lia ];
        cbn in Hlift0; injection Hlift0 as <-; cbn [Nat.eqb];
        repeat split; reflexivity.
    + destruct cycle as [|[|cycle]]; [ | | lia ]; cbn in Hlift0; discriminate.
    + apply py_mean_Raise in Hlift. destruct Hlift as [-> ->].
      right. right. split; [ reflexivity | ].
      split; [ exact Hin | ]. symmetry. exact Hl.
  - intros e s' [H|H]; auto.
Qed.

(** The books after both cycles of [subgroup], which recorded the errors
    [l1] and [l2]. *)
Definition after_subgroup (subgroup : py_range) (l1 l2 : list num)
    (b : books) : books :=
  let subgroup_avg := mean_of [mean_of l1; mean_of l2] in
  {| b_errs := b_errs b ++ l1 ++ l2;
     b_cycle_errs := l2;
     b_subgroup_cycle_errs := [mean_of l1; mean_of l2];
     b_subgroup_avgs := b_subgroup_avgs b ++ [subgroup_avg];
     b_cycle_1 := b_cycle_1 b ++ [mean_of l1];
     b_cycle_2 := b_cycle_2 b ++ [mean_of l2];
     b_reports :=
       b_reports b
         ++ [ CycleReport subgroup 1 (mean_of l1);
              CycleReport subgroup 2 (mean_of l2);
              SubgroupReport subgroup subgroup_avg ] |}.

Definition cycle_size (c : ctx) (subgroup : py_range) : nat :=
  List.length (range_list subgroup) * List.length (severities c).

Lemma books_run_cycles c subgroup s b :
  has_books s b ->
  b_subgroup_cycle_errs b = [] ->
  wp (run_cycles c subgroup) s
     (fun _ s' =>
        in_sequence c (range_list subgroup) /\
        exists l1 l2,
          List.length l1 = cycle_size c subgroup /\
          List.length l2 = cycle_size c subgroup /\
          l1 <> [] /\ l2 <> [] /\
          has_books s' (after_subgroup subgroup l1 l2 b))
     (fun e s' =>
        env_failure e s' \/ index_failure c (range_list subgroup) e \/
        empty_cycle_failure c (range_list subgroup) e).
Proof.
  intros Hb Hsce. unfold run_cycles. cbn [seq for_each].
  apply wp_bind, wp_bind.
  eapply wp_mono; [ apply (books_run_cycle c subgroup (cycle := 0));
                    [ lia | exact Hb ] | | auto ].
  cbv beta. intros _ s1 (Hin & l1 & Hl1 & Hne1 & Hs1).
  apply wp_bind.
  eapply wp_mono; [ apply (books_run_cycle c subgroup (cycle := 1));
                    [ lia | exact Hs1 ] | | auto ].
  cbv beta. intros _ s2 (_ & l2 & Hl2 & Hne2 & Hs2).
  destruct s2. unfold after_cycle in Hs2. books_simpl.
  destruct Hs2 as (He & Hce & Hsce2 & Hsa & Hca & Hr). subst.
  rewrite Hsce. cbn [app Nat.eqb] in *.
  wp_go.
  - apply py_mean_Ok in Hlift. destruct Hlift as [_ ->].
    split; [ exact Hin | ]. exists l1, l2.
    unfold after_subgroup. books_simpl. rewrite reports_snoc, Hr.
    cbn [reports_of Z.of_nat Z.add Pos.of_succ_nat Pos.succ Pos.add].
    rewrite <- !app_assoc. cbn [app].
    repeat split; auto.
  - apply py_mean_Raise in Hlift. destruct Hlift as [Hnil _]. discriminate.
Qed.

Lemma books_reset_model c subgroup s b :
  has_books s b ->
  wp (reset_model c subgroup) s (fun _ s' => has_books s' b) env_failure.
Proof.
  destruct s. intros Hb. books_simpl.
  destruct Hb as (He & Hce & Hsce & Hsa & Hca & Hr). subst.
  unfold reset_model. wp_go; try solve [ books_done ]; env_fail.
Qed.

Lemma books_run_subgroup c subgroup s b :
  has_books s b ->
  wp (run_subgroup c subgroup) s
     (fun _ s' =>
        in_sequence c (range_list subgroup) /\
        exists l1 l2,
          List.length l1 = cycle_size c subgroup /\
          List.length l2 = cycle_size c subgroup /\
          l1 <> [] /\ l2 <> [] /\
          has_books s' (after_subgroup subgroup l1 l2 b))
     (fun e s' =>
        env_failure e s' \/ index_failure c (range_list subgroup) e \/
        empty_cycle_failure c (range_list subgroup) e).
Proof.
  intros Hb. unfold run_subgroup.
  apply wp_bind, wp_modify, wp_bind.
  pose (b0 := {| b_errs := b_errs b; b_cycle_errs := b_cycle_errs b;
                 b_subgroup_cycle_errs := [];
                 b_subgroup_avgs := b_subgroup_avgs b;
                 b_cycle_1 := b_cycle_1 b; b_cycle_2 := b_cycle_2 b;
                 b_reports := b_reports b |}).
  eapply wp_mono.
  - apply (books_reset_model c subgroup (b := b0)).
    destruct s. subst b0. books_simpl. intuition.
  - cbv beta. intros _ s' Hs'.
    apply (books_run_cycles c subgroup Hs'). reflexivity.
  - auto.
Qed.

(** The errors that the two cycles of a subgroup recorded. *)
Definition cycle_pair : Type := (list num * list num)%type.

Definition subgroup_avg_of (p : cycle_pair) : num :=
  mean_of [mean_of (fst p); mean_of (snd p)].

Definition subgroup_reports (sp : py_range * cycle_pair) : list report :=
  [ CycleReport (fst sp) 1 (mean_of (fst (snd sp)));
    CycleReport (fst sp) 2 (mean_of (snd (snd sp)));
    SubgroupReport (fst sp) (subgroup_avg_of (snd sp)) ].

(** The books after the subgroups [done], whose cycles recorded [ps]. *)
Definition after_subgroups (done : list py_range) (ps : list cycle_pair)
    (ce sce : list num) (b : books) : books :=
  {| b_errs := b_errs b ++ flat_map (fun p => fst p ++ snd p) ps;
     b_cycle_errs := ce;
     b_subgroup_cycle_errs := sce;
     b_subgroup_avgs := b_subgroup_avgs b ++ map subgroup_avg_of ps;
     b_cycle_1 := b_cycle_1 b ++ map (fun p => mean_of (fst p)) ps;
     b_cycle_2 := b_cycle_2 b ++ map (fun p => mean_of (snd p)) ps;
     b_reports :=
       b_reports b ++ flat_map subgroup_reports (combine done ps) |}.

(** Both cycles of [subgroup] recorded one error for each of its domains
    and each severity, and at least one. *)
Definition full_cycles (c : ctx) (subgroup : py_range) (p : cycle_pair)
    : Prop :=
  List.length (fst p) = cycle_size c subgroup /\
  List.length (snd p) = cycle_size c subgroup /\
  fst p <> [] /\ snd p <> [].

Lemma combine_snoc A B (l : list A) (l' : list B) a b :
  List.length l = List.length l' ->
  combine (l ++ [a]) (l' ++ [b]) = combine l l' ++ [(a, b)].
Proof.
  revert l'. induction l as [|x l IH]; intros [|y l'] H; cbn in *;
    try discriminate; [ reflexivity | ].
  rewrite IH; [ reflexivity | ]. congruence.
Qed.

Lemma after_subgroups_snoc done ps ce sce b subgroup l1 l2 :
  List.length done = List.length ps ->
  after_subgroup subgroup l1 l2 (after_subgroups done ps ce sce b)
  = after_subgroups (done ++ [subgroup]) (ps ++ [(l1, l2)]) l2
      [mean_of l1; mean_of l2] b.
Proof.
  intros Hlen. unfold after_subgroup, after_subgroups.
  cbn [b_errs b_cycle_errs b_subgroup_cycle_errs b_subgroup_avgs b_cycle_1
       b_cycle_2 b_reports].
  rewrite (combine_snoc _ _ _ _ Hlen), !flat_map_app, !map_app.
  cbn [flat_map map fst snd subgroup_reports subgroup_avg_of app].
  rewrite !app_nil_r, <- !app_assoc. reflexivity.
Qed.

Lemma books_subgroup_loop c (sgs : list py_range) s b :
  has_books s b ->
  wp (for_each sgs (run_subgroup c)) s
     (fun _ s' =>
        (forall sg, In sg sgs -> in_sequence c (range_list sg)) /\
        exists ps ce sce,
          Forall2 (full_cycles c) sgs ps /\
          has_books s' (after_subgroups sgs ps ce sce b))
     (fun e s' =>
        env_failure e s' \/
        exists sg, In sg sgs /\
          (index_failure c (range_list sg) e \/
           empty_cycle_failure c (range_list sg) e)).
Proof.
  intros Hb.
  apply (wp_for_each _
           (fun done s' =>
              (forall sg, In sg done -> in_sequence c (range_list sg)) /\
              exists ps ce sce,
                Forall2 (full_cycles c) done ps /\
                has_books s' (after_subgroups done ps ce sce b))).
  - split; [ intros sg [] | ].
    exists [], (b_cycle_errs b), (b_subgroup_cycle_errs b).
    split; [ constructor | ].
    destruct b. unfold after_subgroups. books_simpl.
    cbn [flat_map map combine]. rewrite !app_nil_r. exact Hb.
  - intros done sg s' [r Hr] (Hin & ps & ce & sce & Hps & Hs').
    eapply wp_mono.
    + apply books_run_subgroup. exact Hs'.
    + cbv beta. intros _ s'' (Hsg & l1 & l2 & Hl1 & Hl2 & Hn1 & Hn2 & Hs'').
      split.
      { intros sg' Hsg'. apply in_app_or in Hsg'.
        destruct Hsg' as [H|[<-|[]]]; auto. }
      exists (ps ++ [(l1, l2)]), l2, [mean_of l1; mean_of l2].
      split.
      * apply Forall2_app; [ exact Hps | ].
        constructor; [ | constructor ]. repeat split; assumption.
      * rewrite after_subgroups_snoc in Hs''; [ exact Hs'' | ].
        eapply Forall2_length. exact Hps.
    + intros e s'' [H|H]; [ left; exact H | right ].
      exists sg. split; [ | exact H ].
      rewrite Hr. apply in_or_app. right. left. reflexivity.
Qed.

(** The books when the loops start: everything is empty. *)
Definition empty_books : books :=
  {| b_errs := []; b_cycle_errs := []; b_subgroup_cycle_errs := [];
     b_subgroup_avgs := []; b_cycle_1 := []; b_cycle_2 := [];
     b_reports := [] |}.

(** What [setup] establishes. *)
Definition ready (c : ctx) (s : dstate) : Prop :=
  has_books s empty_books /\
  errs_5 s = [] /\
  py_in (SETTING (cfg c)) valid_settings = true /\
  domain_seq_loop c = get_domain_seq_loop (cfg c) (domain_sequence c).

Lemma setup_ready_wp description w :
  wp (setup description) (initial w) ready (fun _ _ => True).
Proof.
  unfold setup, load_and_validate, prepare, describe_ours,
    get_domain_sequence, get_severities, initial.
  wp_go; trivial;
    unfold ready, has_books, empty_books, reports; st_simpl;
    cbn [b_errs b_cycle_errs b_subgroup_cycle_errs b_subgroup_avgs b_cycle_1
         b_cycle_2 b_reports cfg domain_seq_loop domain_sequence];
    rewrite ?flat_map_app; cbn [flat_map reports_of app]; auto 10.
Qed.

Lemma setup_ready description w c s1 :
  setup description (initial w) = (Ok c, s1) -> ready c s1.
Proof.
  intros H. pose proof (setup_ready_wp description w) as Hwp.
  unfold wp in Hwp. rewrite H in Hwp. exact Hwp.
Qed.

(** The books after the total average has been reported. *)
Definition with_total (b : books) : books :=
  {| b_errs := b_errs b; b_cycle_errs := b_cycle_errs b;
     b_subgroup_cycle_errs := b_subgroup_cycle_errs b;
     b_subgroup_avgs := b_subgroup_avgs b;
     b_cycle_1 := b_cycle_1 b; b_cycle_2 := b_cycle_2 b;
     b_reports := b_reports b ++ [TotalReport (mean_of (b_subgroup_avgs b))] |}.

Lemma books_final_subgroup_logs (l : list (Z * num)) s b :
  has_books s b ->
  wp (for_each l (fun ia =>
        log INFO (MsgFinalSubgroup (fst ia + 1) (snd ia)))) s
     (fun _ s' => has_books s' b) (fun _ _ => True).
Proof.
  intros Hb.
  apply (wp_for_each _ (fun _ s' => has_books s' b)); [ exact Hb | ].
  intros _ ia s' _ Hs'. destruct s'. apply wp_log. books_done.
Qed.

Lemma books_report_averages s b :
  has_books s b ->
  wp report_averages s (fun _ s' => has_books s' (with_total b))
     (fun _ _ => True).
Proof.
  intros Hb. unfold report_averages.
  apply wp_bind, wp_gets.
  destruct Hb as (He & Hce & Hsce & Hsa & Hca & Hr).
  rewrite Hca. cbn [for_each fst snd].
  assert (Hb : has_books s b) by (repeat split; assumption).
  clear He Hce Hsce Hca Hr.
  destruct s. wp_go; trivial.
  eapply wp_mono;
    [ apply (books_final_subgroup_logs _ (b := b)); books_done | | auto ].
  cbv beta. intros _ s' Hs'. destruct s'. books_simpl.
  destruct Hs' as (He' & Hce' & Hsce' & Hsa' & Hca' & Hr'). subst.
  wp_go; trivial.
  apply py_mean_Ok in Hlift1. destruct Hlift1 as [_ ->].
  unfold with_total. books_done. rewrite Hr'. reflexivity.
Qed.

Definition with_errs (l : list num) (b : books) : books :=
  {| b_errs := b_errs b ++ l; b_cycle_errs := b_cycle_errs b;
     b_subgroup_cycle_errs := b_subgroup_cycle_errs b;
     b_subgroup_avgs := b_subgroup_avgs b;
     b_cycle_1 := b_cycle_1 b; b_cycle_2 := b_cycle_2 b;
     b_reports := b_reports b |}.

Lemma with_errs_nil b : with_errs [] b = b.
Proof. destruct b. unfold with_errs. cbn. rewrite app_nil_r. reflexivity. Qed.

Lemma with_errs_app l1 l2 b :
  with_errs l2 (with_errs l1 b) = with_errs (l1 ++ l2) b.
Proof. unfold with_errs. cbn. rewrite app_assoc. reflexivity. Qed.

Lemma books_evaluate_mixed_severity c severity s b :
  has_books s b ->
  wp (evaluate_mixed_severity c severity) s
     (fun _ s' => exists err, has_books s' (with_errs [err] b))
     (fun _ _ => True).
Proof.
  destruct s. intros Hb. books_simpl.
  destruct Hb as (He & Hce & Hsce & Hsa & Hca & Hr). subst.
  unfold evaluate_mixed_severity, make_test_loader, call_get_accuracy,
    record_errs_5, py_min_workers.
  wp_go; trivial; eexists; unfold with_errs; books_done.
Qed.

Lemma books_mixed_pass c s b :
  has_books s b ->
  wp (mixed_pass c) s
     (fun _ s' => exists l, has_books s' (with_errs l b)) (fun _ _ => True).
Proof.
  intros Hb. unfold mixed_pass.
  destruct (String.eqb (SETTING (cfg c)) "continual_mixed_domain").
  - apply (wp_for_each _
             (fun _ s' => exists l, has_books s' (with_errs l b))).
    + exists []. rewrite with_errs_nil. exact Hb.
    + intros _ severity s' _ (l & Hs').
      eapply wp_mono;
        [ apply books_evaluate_mixed_severity; exact Hs' | | auto ].
      cbv beta. intros _ s'' (err & Hs''). exists (l ++ [err]).
      rewrite with_errs_app in Hs''. exact Hs''.
  - exists []. rewrite with_errs_nil. exact Hb.
Qed.

Lemma books_finish c s b :
  has_books s b ->
  wp (finish c) s (fun _ s' => has_books s' b) (fun _ _ => True).
Proof.
  destruct s. intros Hb. books_simpl.
  destruct Hb as (He & Hce & Hsce & Hsa & Hca & Hr). subst.
  unfold finish. wp_go; trivial; books_done.
Qed.

(** The whole evaluation phase: what a completed run has recorded and
    reported, and how a run can fail inside the loop over the subgroups. *)
Lemma books_evaluation c s :
  has_books s empty_books ->
  wp (evaluation c) s
     (fun _ s' =>
        (forall sg, In sg subgroups -> in_sequence c (range_list sg)) /\
        exists ps mixed,
          Forall2 (full_cycles c) subgroups ps /\
          errs s' = flat_map (fun p => fst p ++ snd p) ps ++ mixed /\
          reports (trace s')
            = flat_map subgroup_reports (combine subgroups ps)
                ++ [TotalReport (mean_of (map subgroup_avg_of ps))])
     (fun e s' =>
        (forall sg, In sg subgroups -> in_sequence c (range_list sg)) \/
        env_failure e s' \/
        exists sg, In sg subgroups /\
          (index_failure c (range_list sg) e \/
           empty_cycle_failure c (range_list sg) e)).
Proof.
  intros Hb. unfold evaluation. apply wp_bind.
  eapply wp_mono; [ apply (books_subgroup_loop c subgroups Hb) | | auto ].
  cbv beta. intros _ s1 (Hin & ps & ce & sce & Hps & Hs1).
  apply wp_bind.
  eapply wp_mono; [ apply (books_report_averages Hs1) | | auto ].
  cbv beta. intros _ s2 Hs2. apply wp_bind.
  eapply wp_mono; [ apply (books_mixed_pass c Hs2) | | auto ].
  cbv beta. intros _ s3 (mixed & Hs3).
  eapply wp_mono; [ apply (books_finish c Hs3) | | auto ].
  cbv beta. intros _ s4 Hs4.
  split; [ exact Hin | ]. exists ps, mixed.
  split; [ exact Hps | ].
  destruct Hs4 as (He & _ & _ & _ & _ & Hr). split; [ exact He | exact Hr ].
Qed.

(** The calls of the data-loader factory and of the accuracy routine
    follow the plan of the four nested loops.  A run that stops early has
    made a prefix of these calls; a subgroup loop that completes has made
    exactly the planned calls, and a run that completes has made them
    followed only by the calls of the final mixed pass. *)
Lemma calls_follow_plan (description : string) (w : World) (c : ctx)
    (s1 : dstate) :
  setup description (initial w) = (Ok c, s1) ->
  map range_list subgroups
    = [ [0; 1; 2]; [3; 4; 5; 6]; [7; 8; 9]; [10; 11]; [12; 13; 14] ]%nat /\
  (let (r, s) := for_each subgroups (run_subgroup c) s1 in
   (exists rest, planned_calls c = step_calls (trace s) ++ rest) /\
   (r = Ok tt -> step_calls (trace s) = planned_calls c)) /\
  (let (r, s) := evaluate description w in
   (exists rest,
      planned_calls c ++ mixed_pass_calls c = step_calls (trace s) ++ rest) /\
   (r = Ok tt ->
    step_calls (trace s) = planned_calls c ++ mixed_pass_calls c)).
Proof.
  intros H. split; [ reflexivity | ].
  pose proof (setup_makes_no_step_call _ _ H) as H0.
  unfold step_calls in *. split.
  - pose proof (emits_subgroup_loop c s1) as E.
    destruct (for_each subgroups (run_subgroup c) s1) as [[[]|e] s].
    + rewrite H0 in E. cbn [app] in E. split.
      * exists []. rewrite app_nil_r. symmetry. exact E.
      * intros _. exact E.
    + destruct E as (p & q & Hpq & E). rewrite H0 in E. cbn [app] in E.
      split; [ exists q; rewrite E; exact Hpq | discriminate ].
  - rewrite (evaluate_after_setup _ _ H).
    pose proof (emits_evaluation c s1) as E.
    destruct (evaluation c s1) as [[[]|e] s].
    + rewrite H0 in E. cbn [app] in E. split.
      * exists []. rewrite app_nil_r. symmetry. exact E.
      * intros _. exact E.
    + destruct E as (p & q & Hpq & E). rewrite H0 in E. cbn [app] in E.
      split; [ exists q; rewrite E; exact Hpq | discriminate ].
Qed.

(** ** Recording the error of one evaluation *)

(** From [s] to [s'] one evaluation of [domain_name] at [severity] was
    recorded: [get_accuracy] returned [acc] for that domain, and
    [1. - acc] was appended to the global list, to the list of the current
    cycle when [in_cycle] is set, and to the severity-5 list exactly when
    the severity is 5 and the domain is not "none". *)
Definition recorded (in_cycle : bool) (domain_name : string) (severity : Z)
    (s s' : dstate) : Prop :=
  exists (a : AccArgs) (acc : num) (d' : DomainDict) (n : Z) (w0 : World),
    handle (get_accuracy a) w0 = (Ok (acc, d', n), world s') /\
    ga_domain_name a = domain_name /\
    let err := sub (lit 1) acc in
    errs s' = errs s ++ [err] /\
    cycle_errs s'
      = (if in_cycle then cycle_errs s ++ [err] else cycle_errs s) /\
    (severity = 5%Z /\ domain_name <> "none" ->
     errs_5 s' = errs_5 s ++ [err]) /\
    (~ (severity = 5%Z /\ domain_name <> "none") -> errs_5 s' = errs_5 s).

Definition nothing_recorded (s s' : dstate) : Prop :=
  errs s' = errs s /\ cycle_errs s' = cycle_errs s /\ errs_5 s' = errs_5 s.

Lemma errs_5_condition severity domain_name :
  Z.eqb severity 5 && negb (String.eqb domain_name "none") = true
  <-> severity = 5%Z /\ domain_name <> "none".
Proof.
  rewrite andb_true_iff, negb_true_iff, Z.eqb_eq.
  split; intros [H1 H2]; (split; [ exact H1 | ]).
  - intros ->. rewrite String.eqb_refl in H2. discriminate.
  - destruct (String.eqb_spec domain_name "none"); [ contradiction | reflexivity ].
Qed.

Ltac recorded_done :=
  match goal with
  | H : handle (get_accuracy _) _ = (Ok _, _) |- _ =>
      unfold recorded; st_simpl;
      eexists; eexists; eexists; eexists; eexists;
      split; [ exact H | ]; split; [ reflexivity | ];
      cbv zeta; split; [ reflexivity | ]; split; [ reflexivity | ]
  end;
  match goal with
  | H : _ && _ = true |- _ =>
      split; [ reflexivity | intros Hn; apply errs_5_condition in H;
                             contradiction ]
  | H : _ && _ = false |- _ =>
      split; [ intros Hy; apply errs_5_condition in Hy; congruence
             | reflexivity ]
  end.

(** C2, as the code has it: every evaluation inside a cycle records
    [1. - acc], with the accuracy that [get_accuracy] returned, in the
    global error list and in the list of the current cycle, and in the
    severity-5 list exactly when the severity is 5 and the domain is not
    "none"; an evaluation of the final mixed pass records it in the global
    list and, on the same condition, in the severity-5 list, and leaves
    the cycle list alone.  An evaluation that raises records nothing. *)
Theorem C2_recorded_error (c : ctx) (subgroup : py_range) (i_dom : nat)
    (domain_name : string) (severity : Z) (s : dstate) :
  wp (evaluate_domain_severity c subgroup i_dom domain_name severity) s
     (fun _ s' => recorded true domain_name severity s s')
     (fun _ s' => nothing_recorded s s') /\
  wp (evaluate_mixed_severity c severity) s
     (fun _ s' => recorded false "mixed" severity s s')
     (fun _ s' => nothing_recorded s s').
Proof.
  destruct s. split.
  - unfold evaluate_domain_severity, make_test_loader, call_get_accuracy,
      record_errs_5, py_min_workers.
    wp_go; try solve [ repeat split ]; recorded_done.
  - unfold evaluate_mixed_severity, make_test_loader, call_get_accuracy,
      record_errs_5, py_min_workers.
    wp_go; try solve [ repeat split ]; recorded_done.
Qed.

(** ** Exceptions of external calls *)

(** The exception that an event let through to the driver's caller: what
    an external call raised, unless it is the [AttributeError] of
    [model.reset()], which the driver catches. *)
Definition uncaught (ev : event) : option exn :=
  match ev with
  | EvCall (model_reset _) (Some e) =>
      if is_AttributeError e then None else Some e
  | EvCall _ (Some e) => Some e
  | _ => None
  end.

Definition clean (t : list event) : Prop :=
  Forall (fun ev => uncaught ev = None) t.

(** The run ended with [e]: either nothing uncaught was raised outside the
    driver (the driver raised [e] itself), or the last event is the call
    that raised [e]. *)
Definition ended_with (e : exn) (s : dstate) : Prop :=
  clean (trace s) \/
  exists t ev, trace s = t ++ [ev] /\ clean t /\ uncaught ev = Some e.

Lemma clean_snoc t ev : clean t -> uncaught ev = None -> clean (t ++ [ev]).
Proof.
  intros Ht Hev. apply Forall_app. split; [ exact Ht | ].
  constructor; [ exact Hev | constructor ].
Qed.

Ltac clean_done :=
  unfold ended_with; st_simpl;
  first
    [ assumption
    | solve [ repeat (apply clean_snoc; [ | first [ reflexivity
                | cbn [uncaught];
                  match goal with H : is_AttributeError _ = _ |- _ =>
                    rewrite H end; reflexivity ] ]); assumption ]
    | solve [ left; repeat (apply clean_snoc; [ | first [ reflexivity
                | cbn [uncaught];
                  match goal with H : is_AttributeError _ = _ |- _ =>
                    rewrite H end; reflexivity ] ]); assumption ]
    | solve [ right; eexists; eexists; split; [ reflexivity | ];
              split;
              [ repeat (apply clean_snoc; [ | first [ reflexivity
                  | cbn [uncaught];
                    match goal with H : is_AttributeError _ = _ |- _ =>
                      rewrite H end; reflexivity ] ]); assumption
              | first [ reflexivity
                      | cbn [uncaught];
                        match goal with H : is_AttributeError _ = _ |- _ =>
                          rewrite H end; reflexivity ] ] ] ].

Definition stays_clean {A} (m : M A) : Prop :=
  forall s, clean (trace s) ->
            wp m s (fun _ s' => clean (trace s')) ended_with.

Lemma stays_clean_for_each A (l : list A) (body : A -> M unit) :
  (forall a, stays_clean (body a)) -> stays_clean (for_each l body).
Proof.
  intros H s Hs.
  apply (wp_for_each _ (fun _ s' => clean (trace s'))); [ exact Hs | ].
  intros _ a s' _ Hs'. apply H. exact Hs'.
Qed.

Lemma stays_clean_bind A B (m : M A) (k : A -> M B) :
  stays_clean m -> (forall a, stays_clean (k a)) -> stays_clean (bind m k).
Proof.
  intros Hm Hk s Hs. apply wp_bind.
  eapply wp_mono; [ apply Hm; exact Hs | | auto ].
  cbv beta. intros a s' Hs'. apply Hk. exact Hs'.
Qed.

Ltac straight_clean :=
  let s := fresh "s" in
  let Hs := fresh "Hs" in
  intros s Hs; destruct s; st_simpl; wp_go; clean_done.

Lemma clean_evaluate_domain_severity c subgroup i_dom domain_name severity :
  stays_clean (evaluate_domain_severity c subgroup i_dom domain_name severity).
Proof.
  unfold evaluate_domain_severity, make_test_loader, call_get_accuracy,
    record_errs_5, py_min_workers.
  straight_clean.
Qed.

Lemma clean_run_domain c subgroup i_dom :
  stays_clean (run_domain c subgroup i_dom).
Proof.
  unfold run_domain. apply stays_clean_bind.
  - straight_clean.
  - intros domain_name. apply stays_clean_for_each. intros severity.
    apply clean_evaluate_domain_severity.
Qed.

Lemma clean_run_cycle c subgroup cycle :
  stays_clean (run_cycle c subgroup cycle).
Proof.
  unfold run_cycle.
  apply stays_clean_bind; [ straight_clean | intros _ ].
  apply stays_clean_bind;
    [ apply stays_clean_for_each; intros i; apply clean_run_domain
    | intros _ ].
  straight_clean.
Qed.

Lemma clean_reset_model c subgroup : stays_clean (reset_model c subgroup).
Proof. unfold reset_model. straight_clean. Qed.

Lemma clean_run_cycles c subgroup : stays_clean (run_cycles c subgroup).
Proof.
  unfold run_cycles.
  apply stays_clean_bind;
    [ apply stays_clean_for_each; intros i; apply clean_run_cycle
    | intros _ ].
  straight_clean.
Qed.

Lemma clean_run_subgroup c subgroup : stays_clean (run_subgroup c subgroup).
Proof.
  unfold run_subgroup.
  apply stays_clean_bind; [ straight_clean | intros _ ].
  apply stays_clean_bind; [ apply clean_reset_model | intros _ ].
  apply clean_run_cycles.
Qed.

Lemma clean_report_averages : stays_clean report_averages.
Proof.
  unfold report_averages.
  apply stays_clean_bind; [ straight_clean | intros d ].
  apply stays_clean_bind;
    [ apply stays_clean_for_each; intros kv; straight_clean | intros _ ].
  apply stays_clean_bind; [ straight_clean | intros sa ].
  apply stays_clean_bind;
    [ apply stays_clean_for_each; intros ia; straight_clean | intros _ ].
  straight_clean.
Qed.

Lemma clean_mixed_pass c : stays_clean (mixed_pass c).
Proof.
  unfold mixed_pass.
  destruct (String.eqb (SETTING (cfg c)) "continual_mixed_domain").
  - apply stays_clean_for_each. intros severity.
    unfold evaluate_mixed_severity, make_test_loader, call_get_accuracy,
      record_errs_5, py_min_workers.
    straight_clean.
  - straight_clean.
Qed.

Lemma clean_finish c : stays_clean (finish c).
Proof. unfold finish. straight_clean. Qed.

Lemma clean_evaluation c : stays_clean (evaluation c).
Proof.
  unfold evaluation.
  apply stays_clean_bind;
    [ apply stays_clean_for_each; intros sg; apply clean_run_subgroup
    | intros _ ].
  apply stays_clean_bind; [ apply clean_report_averages | intros _ ].
  apply stays_clean_bind; [ apply clean_mixed_pass | intros _ ].
  apply clean_finish.
Qed.

Lemma clean_setup description : stays_clean (setup description).
Proof.
  unfold setup, load_and_validate, prepare, describe_ours,
    get_domain_sequence, get_severities.
  straight_clean.
Qed.

Lemma clean_evaluate_body description :
  stays_clean (evaluate_body description).
Proof.
  unfold evaluate_body. apply stays_clean_bind.
  - apply clean_setup.
  - intros c. apply clean_evaluation.
Qed.

Lemma uncaught_is_last t0 ev0 t ev t' e :
  clean t0 -> t0 ++ [ev0] = t ++ ev :: t' -> uncaught ev = Some e ->
  t' = [] /\ ev = ev0.
Proof.
  intros Hclean Heq Hev.
  destruct (exists_last (l := ev :: t')) as (l & x & Hl); [ discriminate | ].
  rewrite Hl, app_assoc in Heq. apply app_inj_tail in Heq.
  destruct Heq as [Ht0 Hx]. subst x.
  destruct l as [|y l].
  - cbn in Hl. injection Hl as <- <-. split; reflexivity.
  - exfalso. cbn in Hl. injection Hl as <- _.
    unfold clean in Hclean. rewrite Ht0, Forall_app in Hclean.
    destruct Hclean as [_ Hc]. inversion Hc as [|? ? Hy _]. congruence.
Qed.

(** C6: every subgroup starts with the attempt of [model.reset()].  When
    it succeeds, or raises [AttributeError], the subgroup goes on with its
    two cycles: after an [AttributeError] the warning is logged, and the
    handler touches neither the model nor any local, so the cycles start
    in the world that the failed call left.  Any other exception of
    [model.reset()] ends [evaluate].  And so does every exception of any
    other external call anywhere in [evaluate]: a call that raised
    something other than the caught [AttributeError] is the last event of
    the run, and what it raised is what [evaluate] raises. *)
Theorem C6_reset_recovery :
  (forall (c : ctx) (subgroup : py_range) (s : dstate),
     let reset := model_reset (model c) in
     let s0 := set_subgroup_cycle_errs [] s in
     match handle reset (world s) with
     | (Ok _, w') =>
         run_subgroup c subgroup s
         = run_cycles c subgroup
             (set_world w'
                ((trace s ++ [EvCall reset None])
                   ++ [EvLog INFO (MsgResetting subgroup)]) s0)
     | (Raise e, w') =>
         if is_AttributeError e then
           run_subgroup c subgroup s
           = run_cycles c subgroup
               (set_world w'
                  ((trace s ++ [EvCall reset (Some AttributeError)])
                     ++ [EvLog WARNING MsgResetUnavailable]) s0)
         else
           run_subgroup c subgroup s
           = (Raise e, set_world w' (trace s ++ [EvCall reset (Some e)]) s0)
     end) /\
  (forall (description : string) (w : World),
     let (r, s) := evaluate description w in
     forall t ev t' e,
       trace s = t ++ ev :: t' -> uncaught ev = Some e ->
       t' = [] /\ r = Raise e).
Proof.
  split.
  - intros c subgroup s reset s0.
    unfold run_subgroup, reset_model, try_except_AttributeError, bind,
      modify, ext, log. fold s0. fold reset.
    replace (world s0) with (world s) by reflexivity.
    replace (trace s0) with (trace s) by reflexivity.
    destruct (handle reset (world s)) as [[[]|e] w']; cbn [raised].
    + reflexivity.
    + destruct e; reflexivity.
  - intros description w.
    pose proof (@clean_evaluate_body description (initial w)) as Hwp.
    unfold wp in Hwp. unfold evaluate.
    destruct (evaluate_body description (initial w)) as [[[]|e0] s];
      intros t ev t' e Htrace Hev.
    + exfalso. specialize (Hwp (Forall_nil _)).
      unfold clean in Hwp. rewrite Htrace, Forall_app in Hwp.
      destruct Hwp as [_ Hc]. inversion Hc as [|? ? Hy _]. congruence.
    + destruct (Hwp (Forall_nil _)) as [Hc|(t0 & ev0 & Ht0 & Hclean & Hev0)].
      * exfalso. unfold clean in Hc. rewrite Htrace, Forall_app in Hc.
        destruct Hc as [_ Hc]. inversion Hc as [|? ? Hy _]. congruence.
      * rewrite Ht0 in Htrace.
        edestruct uncaught_is_last as [Ht' Hevs];
          [ exact Hclean | exact Htrace | exact Hev | ].
        subst. split; [ reflexivity | ]. congruence.
Qed.

(** C3: in every completed run of [evaluate], the errors recorded in the
    loop split into the errors [ps] of the two cycles of each of the five
    subgroups (one error for each domain of the subgroup and each
    severity), and the averages reported are: for each cycle the
    arithmetic mean of that cycle's errors, for each subgroup the
    arithmetic mean of its two cycle averages, and as the total the
    arithmetic mean of the five subgroup averages.  The arithmetic mean
    is [arithmetic_mean]: the entries added up from the first one on,
    divided by their number. *)
Theorem C3_reported_averages (description : string) (w : World) (c : ctx)
    (s1 s : dstate) :
  setup description (initial w) = (Ok c, s1) ->
  evaluate description w = (Ok tt, s) ->
  exists ps : list cycle_pair,
    List.length ps = 5%nat /\
    Forall2 (full_cycles c) subgroups ps /\
    (exists mixed, errs s = flat_map (fun p => fst p ++ snd p) ps ++ mixed) /\
    reports (trace s)
      = flat_map (fun sp : py_range * cycle_pair =>
                    let (subgroup, p) := sp in
                    let (cycle_1, cycle_2) := p in
                    [ CycleReport subgroup 1 (arithmetic_mean cycle_1);
                      CycleReport subgroup 2 (arithmetic_mean cycle_2);
                      SubgroupReport subgroup
                        (arithmetic_mean [arithmetic_mean cycle_1;
                                          arithmetic_mean cycle_2]) ])
                 (combine subgroups ps)
        ++ [ TotalReport
               (arithmetic_mean
                  (map (fun p : cycle_pair =>
                          arithmetic_mean [arithmetic_mean (fst p);
                                           arithmetic_mean (snd p)]) ps)) ].
Proof.
  intros Hsetup Hrun.
  pose proof (setup_ready _ _ Hsetup) as (Hb & _).
  pose proof (books_evaluation c Hb) as Hwp.
  rewrite (evaluate_after_setup _ _ Hsetup) in Hrun.
  unfold wp in Hwp. rewrite Hrun in Hwp.
  destruct Hwp as (_ & ps & mixed & Hps & He & Hr).
  exists ps. split.
  { apply Forall2_length in Hps. rewrite <- Hps. reflexivity. }
  split; [ exact Hps | ]. split; [ exists mixed; exact He | ].
  rewrite Hr. f_equal.
  - apply flat_map_ext. intros [subgroup [l1 l2]].
    unfold subgroup_reports, subgroup_avg_of. cbn [fst snd].
    rewrite !mean_of_arithmetic. reflexivity.
  - rewrite mean_of_arithmetic. do 3 f_equal.
    apply map_ext. intros [l1 l2]. unfold subgroup_avg_of.
    rewrite !mean_of_arithmetic. reflexivity.
Qed.

(** C7, as the code has it: [evaluate] indexes the looped domain sequence
    at every index from 0 to 14, so with fewer than 15 entries (with the
    single entry "mixed" in every setting that contains "mixed_domains")
    the evaluation never completes; the exception is the [IndexError] of
    the subgroup loop whenever there is a severity to evaluate or fewer
    than three entries, unless something outside the driver fails first. *)
Theorem C7_short_sequence (description : string) (w : World) (c : ctx)
    (s1 : dstate) :
  setup description (initial w) = (Ok c, s1) ->
  (List.length (domain_seq_loop c) < 15)%nat ->
  (py_in_str "mixed_domains" (SETTING (cfg c)) = true ->
   domain_seq_loop c = [ "mixed" ]) /\
  (let (r, s) := evaluate description w in
   exists e,
     r = Raise e /\
     (severities c <> [] \/ (List.length (domain_seq_loop c) < 3)%nat ->
      e = IndexError \/ env_failure e s)).
Proof.
  intros Hsetup Hlen.
  pose proof (setup_ready _ _ Hsetup) as (Hb & _ & _ & Hloop).
  split.
  { intros Hmixed. rewrite Hloop. unfold get_domain_seq_loop.
    rewrite Hmixed. reflexivity. }
  rewrite (evaluate_after_setup _ _ Hsetup).
  pose proof (books_evaluation c Hb) as Hwp. unfold wp in Hwp.
  assert (Hshort : ~ (forall sg, In sg subgroups ->
                                 in_sequence c (range_list sg))).
  { intros Hin. specialize (Hin (Range 12 15)).
    assert (H14 : (14 < List.length (domain_seq_loop c))%nat).
    { apply Hin; cbn; auto 10. }
    lia. }
  destruct (evaluation c s1) as [[[]|e] s].
  - exfalso. apply Hshort, Hwp.
  - exists e. split; [ reflexivity | ]. intros Hsev.
    destruct Hwp as [Hin|[Henv|(sg & Hsg & [Hidx|Hempty])]].
    + exfalso. apply Hshort, Hin.
    + right. exact Henv.
    + left. apply Hidx.
    + exfalso. destruct Hempty as (_ & Hin & Hsize).
      assert (H2 : In (stop sg - 1)%nat (range_list sg) /\
                   (2 <= stop sg - 1)%nat /\
                   (1 <= List.length (range_list sg))%nat).
      { cbn in Hsg.
        repeat (destruct Hsg as [<-|Hsg];
                [ cbn; split; [ auto 10 | lia ] | ]).
        destruct Hsg. }
      destruct H2 as (H2 & H2' & H2''). apply Hin in H2.
      destruct Hsev as [Hsev|Hsev]; [ | lia ].
      destruct (severities c); [ congruence | ]. cbn in Hsize. lia.
Qed.

(** C4: with the configuration that [load_cfg_from_args] returns,
    [evaluate] passes the validation of the setting exactly when
    [cfg.SETTING] is one of the nine supported strings, and then goes on
    with the rest of the function; for any other setting it raises the
    assertion error, and the call that loaded the configuration is the
    only call made: no model was built and no data was loaded. *)
Theorem C4_setting_validation (description : string) (w w' : World)
    (cfg : Cfg) :
  handle (load_cfg_from_args description) w = (Ok cfg, w') ->
  let s1 := set_world w' [EvCall (load_cfg_from_args description) None]
                      (initial w) in
  let supported :=
    SETTING cfg = "reset_each_shift" \/ SETTING cfg = "continual" \/
    SETTING cfg = "gradual" \/ SETTING cfg = "mixed_domains" \/
    SETTING cfg = "correlated" \/ SETTING cfg = "mixed_domains_correlated" \/
    SETTING cfg = "gradual_correlated" \/
    SETTING cfg = "reset_each_shift_correlated" \/
    SETTING cfg = "continual_mixed_domain" in
  (load_and_validate description (initial w) = (Ok cfg, s1) <-> supported) /\
  (supported ->
   evaluate description w = bind (prepare cfg) evaluation s1) /\
  (~ supported ->
   evaluate description w
     = (Raise (AssertionError
                 (SettingNotSupported (SETTING cfg) valid_settings)), s1) /\
   trace s1 = [EvCall (load_cfg_from_args description) None]).
Proof.
  intros H s1 supported.
  assert (Hs : supported <-> py_in (SETTING cfg) valid_settings = true).
  { rewrite py_in_In. unfold supported, valid_settings. cbn [In].
    intuition congruence. }
  assert (Hl : load_and_validate description (initial w)
               = if py_in (SETTING cfg) valid_settings then (Ok cfg, s1)
                 else (Raise (AssertionError
                         (SettingNotSupported (SETTING cfg) valid_settings)),
                       s1)).
  { unfold load_and_validate, bind, ext. cbn [world initial]. rewrite H.
    cbn [raised]. fold s1.
    destruct (py_in (SETTING cfg) valid_settings); reflexivity. }
  repeat split.
  - intros Hv. apply Hs. rewrite Hl in Hv.
    destruct (py_in (SETTING cfg) valid_settings); [ reflexivity | discriminate ].
  - intros Hv. apply Hs in Hv. rewrite Hl, Hv. reflexivity.
  - intros Hv. apply Hs in Hv.
    unfold evaluate, evaluate_body, setup. unfold bind at 1 2.
    rewrite Hl, Hv. reflexivity.
  - assert (Hv : py_in (SETTING cfg) valid_settings = false).
    { destruct (py_in (SETTING cfg) valid_settings); [ | reflexivity ].
      exfalso. apply H0, Hs. reflexivity. }
    unfold evaluate, evaluate_body, setup. unfold bind at 1 2.
    rewrite Hl, Hv. reflexivity.
Qed.

(** ** What a run that completes has done *)

Lemma wp_conj A (m : M A) s (Q1 Q2 : A -> dstate -> Prop)
    (E1 E2 : exn -> dstate -> Prop) :
  wp m s Q1 E1 -> wp m s Q2 E2 ->
  wp m s (fun a s' => Q1 a s' /\ Q2 a s') (fun e s' => E1 e s' /\ E2 e s').
Proof. unfold wp. destruct (m s) as [[a|e] s']; auto. Qed.

Lemma errs_evaluate_mixed_severity c severity s :
  wp (evaluate_mixed_severity c severity) s
     (fun _ s' => exists err, errs s' = errs s ++ [err]) (fun _ _ => True).
Proof.
  destruct s.
  unfold evaluate_mixed_severity, make_test_loader, call_get_accuracy,
    record_errs_5, py_min_workers.
  wp_go; trivial; eexists; reflexivity.
Qed.

(** The final pass records one error for each severity. *)
Definition mixed_pass_size (c : ctx) : nat :=
  if String.eqb (SETTING (cfg c)) "continual_mixed_domain"
  then List.length (severities c) else 0%nat.

Lemma errs_mixed_pass c s :
  wp (mixed_pass c) s
     (fun _ s' => exists l, List.length l = mixed_pass_size c /\
                            errs s' = errs s ++ l)
     (fun _ _ => True).
Proof.
  unfold mixed_pass, mixed_pass_size.
  destruct (String.eqb (SETTING (cfg c)) "continual_mixed_domain").
  - apply (wp_for_each _
             (fun done s' => exists l, List.length l = List.length done /\
                                       errs s' = errs s ++ l)).
    + exists []. rewrite app_nil_r. split; reflexivity.
    + intros done severity s' _ (l & Hl & Hs').
      eapply wp_mono;
        [ apply errs_evaluate_mixed_severity | | auto ].
      cbv beta. intros _ s'' (err & Hs''). exists (l ++ [err]).
      rewrite !length_app, Hl, Hs'', Hs', app_assoc.
      split; reflexivity.
  - exists []. rewrite app_nil_r. split; reflexivity.
Qed.

Lemma full_cycles_size c ps :
  Forall2 (full_cycles c) subgroups ps ->
  List.length (flat_map (fun p : cycle_pair => fst p ++ snd p) ps)
  = (30 * List.length (severities c))%nat /\
  severities c <> [].
Proof.
  unfold subgroups. intros H.
  repeat match goal with
         | H : Forall2 _ (_ :: _) _ |- _ =>
             inversion H as [|? ? ? ? [? [? [? ?]]] ?]; subst; clear H
         | H : Forall2 _ [] _ |- _ => inversion H; subst; clear H
         end.
  unfold cycle_size, range_list in *.
  cbn [start stop Nat.sub seq List.length] in *.
  split.
  - cbn [flat_map]. rewrite !length_app. cbn [List.length].
    repeat match goal with
           | H : List.length (fst _) = _ |- _ => rewrite H; clear H
           | H : List.length (snd _) = _ |- _ => rewrite H; clear H
           end.
    cbn [List.length seq Nat.sub]. lia.
  - intros Hsev.
    match goal with
    | H : fst ?p <> [], H' : List.length (fst ?p) = _ |- _ =>
        apply H; rewrite Hsev, Nat.mul_0_r in H';
        destruct (fst p); [ reflexivity | discriminate H' ]
    end.
Qed.

(** A run of [evaluate] that completes went through all fifteen domain
    indices with at least one severity: the looped sequence has at least
    fifteen entries, the setting does not contain "mixed_domains", and
    the global error list holds one error for each of the thirty
    (cycle, domain) pairs and each severity, and one more for each
    severity after the final pass of [continual_mixed_domain]. *)
Theorem completed_run_size (description : string) (w : World) (c : ctx)
    (s1 s : dstate) :
  setup description (initial w) = (Ok c, s1) ->
  evaluate description w = (Ok tt, s) ->
  (15 <= List.length (domain_seq_loop c))%nat /\
  severities c <> [] /\
  py_in_str "mixed_domains" (SETTING (cfg c)) = false /\
  List.length (errs s)
  = (30 * List.length (severities c) + mixed_pass_size c)%nat.
Proof.
  intros Hsetup Hrun.
  pose proof (setup_ready _ _ Hsetup) as (Hb & _ & _ & Hloop).
  rewrite (evaluate_after_setup _ _ Hsetup) in Hrun.
  assert (Hwp : wp (evaluation c) s1
            (fun _ s' =>
               (forall sg, In sg subgroups -> in_sequence c (range_list sg)) /\
               exists ps mixed,
                 Forall2 (full_cycles c) subgroups ps /\
                 List.length mixed = mixed_pass_size c /\
                 errs s'
                 = flat_map (fun p : cycle_pair => fst p ++ snd p) ps
                     ++ mixed)
            (fun _ _ => True)).
  { unfold evaluation. apply wp_bind.
    eapply wp_mono; [ apply (books_subgroup_loop c subgroups Hb) | | auto ].
    cbv beta. intros _ s2 (Hin & ps & ce & sce & Hps & Hs2).
    apply wp_bind.
    eapply wp_mono; [ apply (books_report_averages Hs2) | | auto ].
    cbv beta. intros _ s3 Hs3. apply wp_bind.
    eapply wp_mono;
      [ apply wp_conj;
        [ apply (books_mixed_pass c Hs3) | apply errs_mixed_pass ]
      | | auto ].
    cbv beta. intros _ s4 ((l & Hs4) & (mixed & Hlen & He4)).
    eapply wp_mono; [ apply (books_finish c Hs4) | | auto ].
    cbv beta. intros _ s5 Hs5.
    split; [ exact Hin | ]. exists ps, mixed.
    split; [ exact Hps | ]. split; [ exact Hlen | ].
    destruct Hs5 as (He5 & _). destruct Hs4 as (He4' & _).
    destruct Hs3 as (He3 & _).
    rewrite He5, <- He4', He4, He3. reflexivity. }
  unfold wp in Hwp. rewrite Hrun in Hwp.
  destruct Hwp as (Hin & ps & mixed & Hps & Hlen & He).
  destruct (full_cycles_size Hps) as [Hsize Hsev].
  assert (H15 : (15 <= List.length (domain_seq_loop c))%nat).
  { assert (H14 : (14 < List.length (domain_seq_loop c))%nat).
    { apply (Hin (Range 12 15)); cbn; auto 10. }
    lia. }
  split; [ exact H15 | ]. split; [ exact Hsev | ]. split.
  - destruct (py_in_str "mixed_domains" (SETTING (cfg c))) eqn:Hm;
      [ | reflexivity ].
    exfalso. rewrite Hloop in H15. unfold get_domain_seq_loop in H15.
    rewrite Hm in H15. cbn in H15. lia.
  - rewrite He, length_app, Hsize, Hlen. reflexivity.
Qed.

(** With an empty severity sequence and at least three domains, the first
    cycle of the first subgroup evaluates nothing and its average divides
    by zero: [evaluate] raises [ZeroDivisionError] without having loaded
    any data, unless [model.reset()] fails first. *)
Theorem empty_severities_divide_by_zero (description : string) (w : World)
    (c : ctx) (s1 : dstate) :
  setup description (initial w) = (Ok c, s1) ->
  severities c = [] ->
  (3 <= List.length (domain_seq_loop c))%nat ->
  let (r, s) := evaluate description w in
  (exists e, r = Raise e /\ (e = ZeroDivisionError \/ env_failure e s)) /\
  step_calls (trace s) = [].
Proof.
  intros Hsetup Hsev Hlen.
  pose proof (setup_ready _ _ Hsetup) as (Hb & _).
  pose proof (setup_makes_no_step_call _ _ Hsetup) as Hnone.
  rewrite (evaluate_after_setup _ _ Hsetup).
  pose proof (emits_evaluation c s1) as Hemits.
  assert (Hplan : planned_calls c ++ mixed_pass_calls c = []).
  { unfold planned_calls, combinations, mixed_pass_calls.
    rewrite Hsev.
    destruct (String.eqb (SETTING (cfg c)) "continual_mixed_domain");
      reflexivity. }
  rewrite Hplan in Hemits.
  pose proof (books_run_subgroup c (Range 0 3) Hb) as Hwp.
  unfold wp in Hwp. unfold evaluation, subgroups in *.
  cbn [for_each] in *. unfold bind at 1 2 in Hemits. unfold bind at 1 2.
  destruct (run_subgroup c (Range 0 3) s1) as [[[]|e] s].
  - exfalso. destruct Hwp as (_ & l1 & _ & Hl1 & _ & Hn1 & _).
    unfold cycle_size in Hl1. rewrite Hsev, Nat.mul_0_r in Hl1.
    apply Hn1. destruct l1; [ reflexivity | discriminate Hl1 ].
  - split.
    + exists e. split; [ reflexivity | ].
      destruct Hwp as [Henv|[(_ & i & Hi & Hle)|(He & _)]].
      * right. exact Henv.
      * exfalso. cbn in Hi.
        destruct Hi as [<-|[<-|[<-|[]]]]; lia.
      * left. exact He.
    + destruct Hemits as (p & q & Hpq & Hk).
      symmetry in Hpq. apply app_eq_nil in Hpq. destruct Hpq as [-> _].
      unfold step_calls in *. rewrite Hk, Hnone. reflexivity.
Qed.

(** ** Properties of every event of a run *)

Section Keeps.
Variable P : event -> Prop.

(** [m] adds to the trace only events that satisfy [P], however it
    ends. *)
Definition keeps {A} (m : M A) : Prop :=
  forall s, Forall P (trace s) ->
    wp m s (fun _ s' => Forall P (trace s'))
           (fun _ s' => Forall P (trace s')).

Lemma Forall_snoc (t : list event) ev :
  Forall P t -> P ev -> Forall P (t ++ [ev]).
Proof.
  intros Ht Hev. apply Forall_app. split; [ exact Ht | ].
  constructor; [ exact Hev | constructor ].
Qed.

Lemma keeps_silent A (m : M A) :
  (forall s, trace (snd (m s)) = trace s) -> keeps m.
Proof.
  intros H s Hs. unfold wp. specialize (H s).
  destruct (m s) as [[a|e] s']; cbn in H; rewrite H; exact Hs.
Qed.

Lemma keeps_ret A (a : A) : keeps (ret a).
Proof. apply keeps_silent. reflexivity. Qed.

Lemma keeps_gets A (f : dstate -> A) : keeps (gets f).
Proof. apply keeps_silent. reflexivity. Qed.

Lemma keeps_lift A (r : outcome A) : keeps (lift r).
Proof. apply keeps_silent. reflexivity. Qed.

Lemma keeps_throw A e : keeps (@throw _ _ A e).
Proof. apply keeps_silent. reflexivity. Qed.

Lemma keeps_assert b m : keeps (py_assert b m).
Proof. destruct b; [ apply keeps_ret | apply keeps_throw ]. Qed.

Lemma keeps_modify f : (forall s, trace (f s) = trace s) -> keeps (modify f).
Proof. intros H. apply keeps_silent. intros s. apply H. Qed.

Lemma keeps_log l m : P (EvLog l m) -> keeps (log l m).
Proof. intros H s Hs. apply wp_log. st_simpl. apply Forall_snoc; assumption. Qed.

Lemma keeps_ext c :
  (forall exc, P (EvCall c exc)) -> keeps (ext c).
Proof.
  intros H s Hs. apply (wp_ext c). intros r w _.
  destruct r; st_simpl; apply Forall_snoc; auto.
Qed.

Lemma keeps_bind A B (m : M A) (k : A -> M B) :
  keeps m -> (forall a, keeps (k a)) -> keeps (bind m k).
Proof.
  intros Hm Hk s Hs. apply wp_bind.
  eapply wp_mono; [ apply Hm; exact Hs | | auto ].
  cbv beta. intros a s' Hs'. apply Hk. exact Hs'.
Qed.

(** A pure step, whose value the events of the rest depend on. *)
Lemma keeps_bind_lift A B (r : outcome A) (k : A -> M B) :
  (forall a, r = Ok a -> keeps (k a)) -> keeps (bind (lift r) k).
Proof.
  intros H s Hs. unfold wp, bind, lift. destruct r as [a|e].
  - apply (H a eq_refl s Hs).
  - exact Hs.
Qed.

Lemma keeps_bind_assert B b m (k : unit -> M B) :
  (b = true -> keeps (k tt)) -> keeps (bind (py_assert b m) k).
Proof.
  intros H s Hs. unfold wp, bind, py_assert. destruct b.
  - apply (H eq_refl s Hs).
  - exact Hs.
Qed.

Lemma keeps_for_each A (l : list A) (body : A -> M unit) :
  (forall a, In a l -> keeps (body a)) -> keeps (for_each l body).
Proof.
  intros H s Hs.
  apply (wp_for_each _ (fun _ s' => Forall P (trace s'))); [ exact Hs | ].
  intros d a s' [r Hr] Hs'. apply H; [ | exact Hs' ].
  rewrite Hr. apply in_or_app. right. left. reflexivity.
Qed.

Lemma keeps_try body handler :
  keeps body -> keeps handler ->
  keeps (try_except_AttributeError body handler).
Proof.
  intros Hb Hh s Hs. apply wp_try.
  eapply wp_mono; [ apply Hb; exact Hs | auto | ].
  cbv beta. intros e s' Hs'.
  destruct (is_AttributeError e); [ apply Hh | ]; exact Hs'.
Qed.

End Keeps.

(** Walks a computation; [side] proves that its events satisfy the
    property, from what is known where they are added. *)
Ltac keeps_walk side :=
  lazymatch goal with
  | |- keeps _ (bind (lift _) _) =>
      apply keeps_bind_lift; intros ? ?; keeps_walk side
  | |- keeps _ (bind (py_assert _ _) _) =>
      apply keeps_bind_assert; intros ?; keeps_walk side
  | |- keeps _ (bind _ _) =>
      apply keeps_bind; [ keeps_walk side | intros ?; keeps_walk side ]
  | |- keeps _ (ret _) => apply keeps_ret
  | |- keeps _ (gets _) => apply keeps_gets
  | |- keeps _ (lift _) => apply keeps_lift
  | |- keeps _ (throw _) => apply keeps_throw
  | |- keeps _ (py_assert _ _) => apply keeps_assert
  | |- keeps _ (modify _) => apply keeps_modify; intros ?; reflexivity
  | |- keeps _ (log _ _) => apply keeps_log; side
  | |- keeps ?P (ext ?c) => apply (@keeps_ext P c); intros ?; side
  | |- keeps _ (for_each _ _) =>
      apply keeps_for_each; intros ? ?; keeps_walk side
  | |- keeps _ (try_except_AttributeError _ _) =>
      apply keeps_try; keeps_walk side
  | |- keeps _ (if ?b then _ else _) =>
      let E := fresh "Hif" in destruct b eqn:E; keeps_walk side
  | |- keeps _ (match ?r with (_, _) => _ end) =>
      destruct r; keeps_walk side
  end.

Ltac unfold_driver :=
  unfold evaluation, run_subgroup, reset_model, run_cycles, run_cycle,
    run_domain, evaluate_domain_severity, report_averages, mixed_pass,
    evaluate_mixed_severity, make_test_loader, call_get_accuracy,
    record_errs_5, finish, setup, load_and_validate, prepare, describe_ours,
    get_domain_sequence, get_severities.

(** ** [eval_domain_dict] is never reached *)

Definition not_eval_domain_dict (ev : event) : Prop :=
  match ev with
  | EvCall (eval_domain_dict _ _) _ => False
  | _ => True
  end.

Lemma never_eval_setup description :
  keeps not_eval_domain_dict (setup description).
Proof. unfold_driver. keeps_walk ltac:(exact I). Qed.

Lemma never_eval_loop c :
  keeps not_eval_domain_dict (for_each subgroups (run_subgroup c)).
Proof. unfold_driver. keeps_walk ltac:(exact I). Qed.

Lemma never_eval_rest c :
  py_in_str "mixed_domains" (SETTING (cfg c)) = false ->
  keeps not_eval_domain_dict
    (bind report_averages (fun _ => bind (mixed_pass c) (fun _ => finish c))).
Proof.
  intros Hm. unfold_driver. rewrite Hm. cbn [andb].
  keeps_walk ltac:(exact I).
Qed.

(** No run of [evaluate] calls [eval_domain_dict]: the call is guarded by
    a setting that contains "mixed_domains", and in such a setting the
    looped sequence is the single entry "mixed", so that the loop over
    the subgroups raises before the end of the function is reached. *)
Theorem eval_domain_dict_never_called (description : string) (w : World) :
  Forall not_eval_domain_dict (trace (snd (evaluate description w))).
Proof.
  assert (Hwp : wp (evaluate_body description) (initial w)
                  (fun _ s => Forall not_eval_domain_dict (trace s))
                  (fun _ s => Forall not_eval_domain_dict (trace s))).
  { unfold evaluate_body. apply wp_bind.
    eapply wp_mono;
      [ apply wp_conj;
        [ apply setup_ready_wp
        | apply never_eval_setup; constructor ]
      | | intros e s [_ H]; exact H ].
    cbv beta. intros c s1 [(Hb & _ & _ & Hloop) HP].
    unfold evaluation. apply wp_bind.
    eapply wp_mono;
      [ apply wp_conj;
        [ apply (books_subgroup_loop c subgroups Hb)
        | apply never_eval_loop; exact HP ]
      | | intros e s [_ H]; exact H ].
    cbv beta. intros _ s2 [(Hin & _) HP2].
    apply never_eval_rest; [ | exact HP2 ].
    destruct (py_in_str "mixed_domains" (SETTING (cfg c))) eqn:Hm;
      [ | reflexivity ].
    exfalso.
    assert (H14 : (14 < List.length (domain_seq_loop c))%nat).
    { apply (Hin (Range 12 15)); cbn; auto 10. }
    rewrite Hloop in H14. unfold get_domain_seq_loop in H14.
    rewrite Hm in H14. cbn in H14. lia. }
  unfold wp in Hwp. unfold evaluate.
  destruct (evaluate_body description (initial w)) as [[a|e] s];
    exact Hwp.
Qed.

(** ** Closing the wandb run *)








Lemma snoc2 A (t : list A) a b : (t ++ [a]) ++ [b] = t ++ [a; b].
Proof. rewrite <- app_assoc. reflexivity. Qed.




(** ** The arguments of every data loader *)

(** What the driver passes to [get_test_loader]: the stream is never
    shuffled, the workers never exceed the configured number, the
    severity is one of the sequence, and the domain is one of the looped
    sequence under the configured setting, or the mixed stream under
    "mixed_domains" in the final pass of [continual_mixed_domain]. *)
Definition loader_args_ok (c : ctx) (a : LoaderArgs) : Prop :=
  tl_shuffle a = false /\
  (tl_workers a <= TEST_NUM_WORKERS (cfg c))%Z /\
  In (tl_severity a) (severities c) /\
  tl_domain_names_all a = domain_sequence c /\
  tl_batch_size a = TEST_BATCH_SIZE (cfg c) /\
  ((tl_setting a = SETTING (cfg c) /\
    In (tl_domain_name a) (domain_seq_loop c)) \/
   (SETTING (cfg c) = "continual_mixed_domain" /\
    tl_setting a = "mixed_domains" /\ tl_domain_name a = "mixed")).

Definition loaders_ok (c : ctx) (ev : event) : Prop :=
  match ev with
  | EvCall (get_test_loader a) _ => loader_args_ok c a
  | _ => True
  end.

Lemma py_min_workers_le n cpus k :
  py_min_workers n cpus = Ok k -> (k <= n)%Z.
Proof.
  destruct cpus as [m|]; [ | discriminate ]. intros [= <-]. apply Z.le_min_l.
Qed.

Lemma py_index_In A (l : list A) i a : py_index l i = Ok a -> In a l.
Proof.
  unfold py_index. destruct (nth_error l i) eqn:E; [ | discriminate ].
  intros [= <-]. eapply nth_error_In. exact E.
Qed.

Ltac loaders_side :=
  first
    [ exact I
    | cbn [loaders_ok]; unfold loader_args_ok;
      cbn [tl_shuffle tl_workers tl_severity tl_domain_names_all
           tl_batch_size tl_setting tl_domain_name];
      repeat match goal with
             | |- _ /\ _ => split
             end;
      first
        [ reflexivity
        | assumption
        | eapply py_min_workers_le; eassumption
        | left; split; [ reflexivity | eapply py_index_In; eassumption ]
        | right; split; [ apply String.eqb_eq; assumption | ];
          split; reflexivity ] ].

Lemma loaders_ok_setup c description :
  keeps (loaders_ok c) (setup description).
Proof. unfold_driver. keeps_walk ltac:(exact I). Qed.

Lemma loaders_ok_evaluation c : keeps (loaders_ok c) (evaluation c).
Proof. unfold_driver. keeps_walk loaders_side. Qed.

(** Every call of [get_test_loader] that a run makes, whether it raised
    or not, asks for an unshuffled stream, for at most
    [cfg.TEST.NUM_WORKERS] workers, for a severity of the severity
    sequence and, under the configured setting, for a domain of the
    looped sequence; the "mixed_domains" loader of the stream "mixed" is
    asked for in the setting [continual_mixed_domain] only. *)
Theorem loader_arguments (description : string) (w : World) (c : ctx)
    (s1 : dstate) :
  setup description (initial w) = (Ok c, s1) ->
  Forall (loaders_ok c) (trace (snd (evaluate description w))).
Proof.
  intros Hsetup.
  rewrite (evaluate_after_setup _ _ Hsetup).
  pose proof (@loaders_ok_setup c description (initial w) (Forall_nil _))
    as H1.
  unfold wp in H1. rewrite Hsetup in H1.
  pose proof (@loaders_ok_evaluation c s1 H1) as H2. unfold wp in H2.
  destruct (evaluation c s1) as [[u|e] s]; exact H2.
Qed.

(** ** Projections of the trace, for any key *)

Section EmitsAny.
Variable K : Type.
Variable key : event -> list K.

Lemma emits_eq_any A (m : M A) e e' :
  emits key m e -> e = e' -> emits key m e'.
Proof. intros H <-. exact H. Qed.

Lemma emits_if_any A (b : bool) (m1 m2 : M A) e :
  emits key m1 e -> emits key m2 e -> emits key (if b then m1 else m2) e.
Proof. destruct b; trivial. Qed.

Lemma emits_assert_any b m : emits key (py_assert b m) [].
Proof. destruct b; [ apply emits_ret | apply emits_throw ]. Qed.

Lemma emits_lift_any A (r : outcome A) : emits key (lift r) [].
Proof. apply emits_lift. destruct r; trivial. Qed.

Lemma emits_for_each_nil_any A (l : list A) (body : A -> M unit) :
  (forall a, emits key (body a) []) -> emits key (for_each l body) [].
Proof.
  intros H. induction l as [|a l IH]; cbn [for_each].
  - apply emits_ret.
  - apply (@emits_bind _ _ _ _ _ _ _ _ [] []); [ apply H | intros _; exact IH ].
Qed.

(** What a completed computation added is all of [exp]; what a failed
    one added is a prefix of it. *)
Lemma emits_run A (m : M A) exp s :
  emits key m exp ->
  (exists rest, keys key (trace s) ++ exp
                = keys key (trace (snd (m s))) ++ rest) /\
  (forall a, fst (m s) = Ok a ->
             keys key (trace (snd (m s))) = keys key (trace s) ++ exp).
Proof.
  intros H. specialize (H s). destruct (m s) as [[a|e] s']; cbn [fst snd].
  - split; [ exists []; rewrite app_nil_r; symmetry; exact H | ].
    intros _ _. exact H.
  - destruct H as (p & q & -> & H). split; [ | discriminate ].
    exists q. rewrite H, app_assoc. reflexivity.
Qed.

End EmitsAny.

Create HintDb marks_db.

(** Walks a computation and collects what it emits under [key]. *)
Ltac emits_walk key kc :=
  lazymatch goal with
  | |- emits _ (bind _ _) _ =>
      eapply emits_bind; [ emits_walk key kc | intro; emits_walk key kc ]
  | |- emits _ (ret _) _ => apply emits_ret
  | |- emits _ (gets _) _ => apply emits_gets
  | |- emits _ (modify _) _ => apply emits_modify; intro; reflexivity
  | |- emits _ (log ?l ?m) _ =>
      let k := eval cbn in (key (EvLog l m)) in
      exact (emits_log key l m : emits key (log l m) k)
  | |- emits _ (ext ?c) _ =>
      let k := eval cbn in (key (EvCall c None)) in
      exact (emits_ext key kc c : emits key (ext c) k)
  | |- emits _ (lift _) _ => apply emits_lift_any
  | |- emits _ (throw _) _ => apply emits_throw
  | |- emits _ (py_assert _ _) _ => apply emits_assert_any
  | |- emits _ (if _ then _ else _) _ =>
      apply emits_if_any;
      (eapply emits_eq_any; [ emits_walk key kc | reflexivity ])
  | |- emits _ (match ?r with (_, _) => _ end) _ =>
      destruct r; emits_walk key kc
  | |- emits _ (try_except_AttributeError _ _) _ =>
      apply emits_try;
      (eapply emits_eq_any; [ emits_walk key kc | reflexivity ])
  | |- emits _ (for_each _ _) _ =>
      first [ apply emits_for_each_nil_any; intro;
              eapply emits_eq_any; [ emits_walk key kc | reflexivity ]
            | eapply emits_for_each; intro; emits_walk key kc ]
  | |- _ => solve [ eauto with marks_db | typeclasses eauto with marks_db ]
  end.

Ltac emits_found key kc :=
  eapply emits_eq_any;
  [ emits_walk key kc
  | cbn [app]; rewrite ?flat_map_const_nil; cbn [app];
    rewrite ?app_nil_r; reflexivity ].

(** ** Resets and transforms among the evaluations *)

(** The calls that mark the progress of the evaluation phase. *)
Inductive landmark : Type :=
| Reset
| Load (domain_name : string) (severity : Z)
| ReadTransform
| Accuracy (domain_name : string).

Definition landmarks_of (ev : event) : list landmark :=
  match ev with
  | EvCall (model_reset _) _ => [ Reset ]
  | EvCall (get_test_loader a) _ =>
      [ Load (tl_domain_name a) (tl_severity a) ]
  | EvCall (loader_dataset_transform _) _ => [ ReadTransform ]
  | EvCall (get_accuracy a) _ => [ Accuracy (ga_domain_name a) ]
  | _ => []
  end.

Definition landmarks (t : list event) : list landmark :=
  keys landmarks_of t.

Lemma landmarks_of_call c e :
  landmarks_of (EvCall c e) = landmarks_of (EvCall c None).
Proof. destruct c; reflexivity. Qed.

(** One evaluation inside a cycle: the loader, its transform when the
    domain is the first of the subgroup, the accuracy. *)
Definition evaluation_marks (subgroup : py_range) (i_dom : nat)
    (domain_name : string) (severity : Z) : list landmark :=
  Load domain_name severity
    :: (if Nat.eqb i_dom (start subgroup) then [ ReadTransform ] else [])
    ++ [ Accuracy domain_name ].

Definition domain_marks (c : ctx) (subgroup : py_range) (i_dom : nat)
    : list landmark :=
  flat_map (evaluation_marks subgroup i_dom (nth i_dom (domain_seq_loop c) ""))
           (severities c).

Definition cycle_marks (c : ctx) (subgroup : py_range) : list landmark :=
  flat_map (domain_marks c subgroup) (range_list subgroup).

(** One subgroup: the reset, then the two cycles. *)
Definition subgroup_marks (c : ctx) (subgroup : py_range) : list landmark :=
  Reset :: flat_map (fun _ : nat => cycle_marks c subgroup) (seq 0 2).

Definition mixed_pass_marks (c : ctx) : list landmark :=
  if String.eqb (SETTING (cfg c)) "continual_mixed_domain" then
    flat_map (fun severity =>
                [ Load "mixed" severity; ReadTransform; Accuracy "mixed" ])
             (severities c)
  else [].

Definition evaluation_landmarks (c : ctx) : list landmark :=
  flat_map (subgroup_marks c) subgroups ++ mixed_pass_marks c.

Lemma marks_make_test_loader c setting domain_name severity :
  emits landmarks_of (make_test_loader c setting domain_name severity)
        [ Load domain_name severity ].
Proof.
  unfold make_test_loader. emits_found landmarks_of landmarks_of_call.
Qed.

Lemma marks_call_get_accuracy c loader setting domain_name :
  emits landmarks_of (call_get_accuracy c loader setting domain_name)
        [ Accuracy domain_name ].
Proof.
  unfold call_get_accuracy. emits_found landmarks_of landmarks_of_call.
Qed.

Lemma marks_record_errs_5 severity domain_name err :
  emits landmarks_of (record_errs_5 severity domain_name err) [].
Proof.
  unfold record_errs_5. emits_found landmarks_of landmarks_of_call.
Qed.

Hint Resolve marks_make_test_loader marks_call_get_accuracy
  marks_record_errs_5 : marks_db.

Lemma marks_evaluate_domain_severity c subgroup i_dom domain_name severity :
  emits landmarks_of
        (evaluate_domain_severity c subgroup i_dom domain_name severity)
        (evaluation_marks subgroup i_dom domain_name severity).
Proof.
  unfold evaluate_domain_severity, evaluation_marks.
  destruct (Nat.eqb i_dom (start subgroup));
    emits_found landmarks_of landmarks_of_call.
Qed.

Lemma marks_run_domain c subgroup i_dom :
  emits landmarks_of (run_domain c subgroup i_dom)
        (domain_marks c subgroup i_dom).
Proof.
  unfold run_domain, domain_marks. apply emits_bind_lift. intros d Hd.
  apply emits_for_each. intros severity.
  rewrite (py_index_nth _ _ "" Hd). apply marks_evaluate_domain_severity.
Qed.

Hint Resolve emits_for_each marks_run_domain : marks_db.

Lemma marks_run_cycle c subgroup cycle :
  emits landmarks_of (run_cycle c subgroup cycle) (cycle_marks c subgroup).
Proof.
  unfold run_cycle, cycle_marks. emits_found landmarks_of landmarks_of_call.
Qed.

Hint Resolve marks_run_cycle : marks_db.

(** The reset is one call, whether it succeeds, raises the
    [AttributeError] that is caught, or raises anything else. *)
Lemma marks_reset_model c subgroup :
  emits landmarks_of (reset_model c subgroup) [ Reset ].
Proof.
  intros s. unfold reset_model, try_except_AttributeError, bind, ext, log,
    modify.
  destruct (handle (model_reset (model c)) (world s)) as [[u|e] w'];
    cbn [raised]; st_simpl.
  - rewrite !keys_snoc. cbn [landmarks_of]. rewrite ?app_nil_r.
    reflexivity.
  - destruct (is_AttributeError e); st_simpl.
    + rewrite !keys_snoc. cbn [landmarks_of]. rewrite ?app_nil_r.
      reflexivity.
    + exists [ Reset ], []. split; [ reflexivity | ].
      rewrite !keys_snoc. cbn [landmarks_of]. rewrite ?app_nil_r.
      reflexivity.
Qed.

Hint Resolve marks_reset_model : marks_db.

Lemma marks_run_subgroup c subgroup :
  emits landmarks_of (run_subgroup c subgroup) (subgroup_marks c subgroup).
Proof.
  unfold run_subgroup, run_cycles, subgroup_marks.
  emits_found landmarks_of landmarks_of_call.
Qed.

Hint Resolve marks_run_subgroup : marks_db.

Lemma marks_report_averages : emits landmarks_of report_averages [].
Proof.
  unfold report_averages. emits_found landmarks_of landmarks_of_call.
Qed.

Lemma marks_evaluate_mixed_severity c severity :
  emits landmarks_of (evaluate_mixed_severity c severity)
        [ Load "mixed" severity; ReadTransform; Accuracy "mixed" ].
Proof.
  unfold evaluate_mixed_severity. cbn [Nat.eqb].
  emits_found landmarks_of landmarks_of_call.
Qed.

Hint Resolve marks_evaluate_mixed_severity : marks_db.

Lemma marks_mixed_pass c :
  emits landmarks_of (mixed_pass c) (mixed_pass_marks c).
Proof.
  unfold mixed_pass, mixed_pass_marks.
  destruct (String.eqb (SETTING (cfg c)) "continual_mixed_domain").
  - emits_found landmarks_of landmarks_of_call.
  - apply emits_ret.
Qed.

Lemma marks_finish c : emits landmarks_of (finish c) [].
Proof. unfold finish. emits_found landmarks_of landmarks_of_call. Qed.

Hint Resolve marks_report_averages marks_mixed_pass marks_finish : marks_db.

Lemma marks_evaluation c :
  emits landmarks_of (evaluation c) (evaluation_landmarks c).
Proof.
  unfold evaluation, evaluation_landmarks.
  emits_found landmarks_of landmarks_of_call.
Qed.

Lemma marks_setup description : emits landmarks_of (setup description) [].
Proof.
  unfold_driver. emits_found landmarks_of landmarks_of_call.
Qed.

Definition is_reset (m : landmark) : bool :=
  match m with Reset => true | _ => false end.

Lemma filter_flat_map_nil A B (f : B -> bool) (g : A -> list B) l :
  (forall a, filter f (g a) = []) -> filter f (flat_map g l) = [].
Proof.
  intros H. induction l as [|a l IH]; cbn [flat_map]; [ reflexivity | ].
  rewrite filter_app, H, IH. reflexivity.
Qed.

Lemma resets_of_subgroup c subgroup :
  filter is_reset (subgroup_marks c subgroup) = [ Reset ].
Proof.
  unfold subgroup_marks. cbn [filter is_reset]. f_equal.
  apply filter_flat_map_nil. intros _.
  apply filter_flat_map_nil. intros i_dom.
  apply filter_flat_map_nil. intros severity.
  unfold evaluation_marks.
  destruct (Nat.eqb i_dom (start subgroup)); reflexivity.
Qed.

Lemma resets_of_evaluation c :
  filter is_reset (evaluation_landmarks c)
  = [ Reset; Reset; Reset; Reset; Reset ].
Proof.
  unfold evaluation_landmarks, subgroups. cbn [flat_map].
  rewrite !filter_app, !resets_of_subgroup.
  assert (Hm : filter is_reset (mixed_pass_marks c) = []).
  { unfold mixed_pass_marks.
    destruct (String.eqb (SETTING (cfg c)) "continual_mixed_domain");
      [ | reflexivity ].
    apply filter_flat_map_nil. reflexivity. }
  rewrite Hm. reflexivity.
Qed.

(** In the evaluation phase, [model.reset()] is attempted once at the
    start of each subgroup and nowhere else (not between the two cycles,
    not between domains, whatever the setting): five times in a run that
    completes.  The transform of a loader is read for the evaluations of
    the first domain index of each subgroup, and for every evaluation of
    the final pass, only.  A run that stops early has made a prefix of
    these calls. *)
Theorem resets_and_transforms (description : string) (w : World) (c : ctx)
    (s1 : dstate) :
  setup description (initial w) = (Ok c, s1) ->
  let (r, s) := evaluate description w in
  (exists rest, evaluation_landmarks c = landmarks (trace s) ++ rest) /\
  (r = Ok tt ->
   landmarks (trace s) = evaluation_landmarks c /\
   filter is_reset (landmarks (trace s))
   = [ Reset; Reset; Reset; Reset; Reset ]).
Proof.
  intros Hsetup.
  rewrite (evaluate_after_setup _ _ Hsetup).
  assert (H1 : landmarks (trace s1) = []).
  { pose proof (marks_setup description (initial w)) as E.
    rewrite Hsetup in E. exact E. }
  pose proof (emits_run s1 (marks_evaluation c)) as [Hpre Hall].
  unfold landmarks in *. rewrite H1 in Hpre, Hall. cbn [app] in Hpre, Hall.
  destruct (evaluation c s1) as [[[]|e] s]; cbn [fst snd] in *.
  - split; [ exact Hpre | ]. intros _.
    rewrite (Hall tt eq_refl).
    split; [ reflexivity | apply resets_of_evaluation ].
  - split; [ exact Hpre | discriminate ].
Qed.

(** ** The averages across the subgroups *)

(** The two kinds of summary lines that follow the loop over the
    subgroups. *)
Inductive summary : Type :=
| AcrossReport (cycle : Z) (avg : num)
| FinalReport (idx : Z) (avg : num).

Definition summaries_of (ev : event) : list summary :=
  match ev with
  | EvLog _ (MsgCycleAcross cycle avg) => [ AcrossReport cycle avg ]
  | EvLog _ (MsgFinalSubgroup idx avg) => [ FinalReport idx avg ]
  | _ => []
  end.

Definition summaries (t : list event) : list summary := keys summaries_of t.

Lemma summaries_of_call c e :
  summaries_of (EvCall c e) = summaries_of (EvCall c None).
Proof. reflexivity. Qed.

Lemma emits_wp K (key : event -> list K) A (m : M A) exp s :
  emits key m exp ->
  wp m s (fun _ s' => keys key (trace s') = keys key (trace s) ++ exp)
     (fun _ _ => True).
Proof.
  intros H. specialize (H s). unfold wp.
  destruct (m s) as [[a|e] s']; [ exact H | exact I ].
Qed.

Lemma no_summary_setup description :
  emits summaries_of (setup description) [].
Proof. unfold_driver. emits_found summaries_of summaries_of_call. Qed.

Lemma no_summary_loop c :
  emits summaries_of (for_each subgroups (run_subgroup c)) [].
Proof. unfold_driver. emits_found summaries_of summaries_of_call. Qed.

Lemma no_summary_mixed_pass c : emits summaries_of (mixed_pass c) [].
Proof. unfold_driver. emits_found summaries_of summaries_of_call. Qed.

Lemma no_summary_finish c : emits summaries_of (finish c) [].
Proof. unfold_driver. emits_found summaries_of summaries_of_call. Qed.

Definition final_reports (l : list (Z * num)) : list summary :=
  map (fun ia => FinalReport (fst ia + 1) (snd ia)) l.

Lemma summaries_final_logs (l : list (Z * num)) s :
  wp (for_each l (fun ia =>
        log INFO (MsgFinalSubgroup (fst ia + 1) (snd ia)))) s
     (fun _ s' =>
        summaries (trace s') = summaries (trace s) ++ final_reports l /\
        subgroup_avgs s' = subgroup_avgs s)
     (fun _ _ => True).
Proof.
  apply (wp_for_each _
           (fun done s' =>
              summaries (trace s')
              = summaries (trace s) ++ final_reports done /\
              subgroup_avgs s' = subgroup_avgs s)).
  - rewrite app_nil_r. split; reflexivity.
  - intros done ia s' _ [Ht Hsa]. apply wp_log. st_simpl.
    split; [ | exact Hsa ].
    unfold summaries in *. rewrite keys_snoc, Ht.
    unfold final_reports. rewrite map_app, app_assoc. reflexivity.
Qed.

(** The summary lines, from the books at the end of the loop. *)
Definition report_summaries (b : books) : list summary :=
  [ AcrossReport 1 (mean_of (b_cycle_1 b));
    AcrossReport 2 (mean_of (b_cycle_2 b)) ]
    ++ final_reports (enumerate (b_subgroup_avgs b)).

Lemma summaries_report_averages s b :
  has_books s b ->
  wp report_averages s
     (fun _ s' =>
        summaries (trace s') = summaries (trace s) ++ report_summaries b)
     (fun _ _ => True).
Proof.
  intros Hb. unfold report_averages.
  apply wp_bind, wp_gets.
  destruct Hb as (He & Hce & Hsce & Hsa & Hca & Hr).
  rewrite Hca. cbn [for_each fst snd].
  destruct s. st_simpl. subst. wp_go; trivial.
  apply py_mean_Ok in Hlift, Hlift0.
  destruct Hlift as [_ ->], Hlift0 as [_ ->].
  eapply wp_mono; [ apply summaries_final_logs | | auto ].
  cbv beta. intros _ s' [Ht Hsa']. destruct s'. st_simpl. subst.
  wp_go; trivial.
  unfold summaries in *. rewrite keys_snoc, Ht, !keys_snoc.
  cbn [summaries_of]. unfold report_summaries.
  rewrite app_nil_r, <- !app_assoc. reflexivity.
Qed.

(** A run that completes logs, after the loop over the subgroups: for
    each of the two cycles the arithmetic mean of the five subgroups'
    averages of that cycle, then the five subgroup averages once more,
    numbered from 1.  The arithmetic mean is [arithmetic_mean], and the
    errors [ps] of the cycles are those recorded in the loop. *)
Theorem reported_across_subgroups (description : string) (w : World)
    (c : ctx) (s1 s : dstate) :
  setup description (initial w) = (Ok c, s1) ->
  evaluate description w = (Ok tt, s) ->
  exists ps : list cycle_pair,
    Forall2 (full_cycles c) subgroups ps /\
    (exists mixed, errs s = flat_map (fun p => fst p ++ snd p) ps ++ mixed) /\
    summaries (trace s)
    = [ AcrossReport 1
          (arithmetic_mean (map (fun p => arithmetic_mean (fst p)) ps));
        AcrossReport 2
          (arithmetic_mean (map (fun p => arithmetic_mean (snd p)) ps)) ]
        ++ map (fun ip : Z * cycle_pair =>
                  FinalReport (fst ip)
                    (arithmetic_mean [arithmetic_mean (fst (snd ip));
                                      arithmetic_mean (snd (snd ip))]))
               (combine [1; 2; 3; 4; 5]%Z ps).
Proof.
  intros Hsetup Hrun.
  pose proof (setup_ready _ _ Hsetup) as (Hb & _).
  assert (H1 : summaries (trace s1) = []).
  { pose proof (no_summary_setup description (initial w)) as E.
    rewrite Hsetup in E. exact E. }
  rewrite (evaluate_after_setup _ _ Hsetup) in Hrun.
  assert (Hwp : wp (evaluation c) s1
            (fun _ s' =>
               exists ps mixed,
                 Forall2 (full_cycles c) subgroups ps /\
                 errs s' = flat_map (fun p => fst p ++ snd p) ps ++ mixed /\
                 summaries (trace s')
                 = report_summaries
                     (after_subgroups subgroups ps [] [] empty_books))
            (fun _ _ => True)).
  { unfold evaluation. apply wp_bind.
    eapply wp_mono;
      [ apply wp_conj;
        [ apply (books_subgroup_loop c subgroups Hb)
        | apply (emits_wp s1 (no_summary_loop c)) ]
      | | auto ].
    cbv beta. intros _ s2 [(_ & ps & ce & sce & Hps & Hs2) Ht2].
    apply wp_bind.
    eapply wp_mono;
      [ apply wp_conj;
        [ apply (books_report_averages Hs2)
        | apply (summaries_report_averages Hs2) ]
      | | auto ].
    cbv beta. intros _ s3 [Hs3 Ht3]. apply wp_bind.
    eapply wp_mono;
      [ apply wp_conj;
        [ apply (books_mixed_pass c Hs3)
        | apply (emits_wp s3 (no_summary_mixed_pass c)) ]
      | | auto ].
    cbv beta. intros _ s4 [(mixed & Hs4) Ht4].
    eapply wp_mono;
      [ apply wp_conj;
        [ apply (books_finish c Hs4)
        | apply (emits_wp s4 (no_summary_finish c)) ]
      | | auto ].
    cbv beta. intros _ s5 [Hs5 Ht5].
    exists ps, mixed. split; [ exact Hps | ].
    destruct Hs5 as (He5 & _). split; [ exact He5 | ].
    unfold summaries in *.
    rewrite Ht5, Ht4, Ht3, Ht2, H1, !app_nil_r. reflexivity. }
  unfold wp in Hwp. rewrite Hrun in Hwp.
  destruct Hwp as (ps & mixed & Hps & He & Ht).
  exists ps. split; [ exact Hps | ]. split; [ exists mixed; exact He | ].
  rewrite Ht. clear - Hps. unfold subgroups in Hps.
  repeat match goal with
         | H : Forall2 _ (_ :: _) _ |- _ =>
             inversion H as [|? ? ? ? _ ?]; subst; clear H
         | H : Forall2 _ [] _ |- _ => inversion H; subst; clear H
         end.
  unfold report_summaries, after_subgroups, subgroup_avg_of, final_reports,
    enumerate.
  cbn -[mean_of arithmetic_mean].
  rewrite !mean_of_arithmetic. reflexivity.
Qed.

(** ** The description of the method "ours" *)

Definition student_keys : list string :=
  [ "ce_s_t1"; "ce_s_t2"; "ce_s_aug_t1"; "differ_loss" ].

Definition t2_keys : list string :=
  [ "contr_t2_proto"; "mse_t2_proto"; "contr_t2"; "im_loss"; "mem_loss";
    "kld_t2_proto" ].

(** The display names of the entries of [l] that are in [keep], in the
    order of [l] and with its repetitions. *)
Definition chosen (keep l : list string) : list string :=
  flat_map (fun x => match dict_get loss_name x with
                     | Ok v => [v]
                     | Raise _ => []
                     end)
           (filter (fun x => py_in x keep) l).

Lemma select_names_chosen keep l :
  (forall x, In x keep -> exists v, dict_get loss_name x = Ok v) ->
  select_names loss_name keep l = Ok (chosen keep l).
Proof.
  intros Hkeep. unfold chosen.
  induction l as [|x l IH]; cbn [select_names filter flat_map];
    [ reflexivity | ].
  destruct (py_in x keep) eqn:Hx; [ | exact IH ].
  apply py_in_In in Hx. destruct (Hkeep x Hx) as [v Hv].
  cbn [flat_map]. rewrite Hv, IH. reflexivity.
Qed.

Lemma student_keys_named x :
  In x student_keys -> exists v, dict_get loss_name x = Ok v.
Proof.
  unfold student_keys. cbn [In].
  intros H. repeat (destruct H as [<-|H]; [ eexists; reflexivity | ]).
  destruct H.
Qed.

Lemma t2_keys_named x :
  In x t2_keys -> exists v, dict_get loss_name x = Ok v.
Proof.
  unfold t2_keys. cbn [In].
  intros H. repeat (destruct H as [<-|H]; [ eexists; reflexivity | ]).
  destruct H.
Qed.

Lemma ours_description_pieces (cfg : Cfg) :
  select_names loss_name student_keys (Ours_LOSSES cfg)
  = Ok (chosen student_keys (Ours_LOSSES cfg)) /\
  select_names loss_name t2_keys (Ours_LOSSES cfg)
  = Ok (chosen t2_keys (Ours_LOSSES cfg)).
Proof.
  split; apply select_names_chosen;
    [ apply student_keys_named | apply t2_keys_named ].
Qed.

(** Building the description of "ours" never fails on a loss name:
    whatever [cfg.Ours.LOSSES] holds, the two selections keep the names
    of the listed losses, in their order and with their repetitions, and
    drop every other entry; [describe_ours] raises only what
    [wandb.summary] raises. *)
Theorem ours_description_total (cfg : Cfg) (s : dstate) :
  select_names loss_name student_keys (Ours_LOSSES cfg)
  = Ok (chosen student_keys (Ours_LOSSES cfg)) /\
  select_names loss_name t2_keys (Ours_LOSSES cfg)
  = Ok (chosen t2_keys (Ours_LOSSES cfg)) /\
  wp (describe_ours cfg) s
     (fun _ s' =>
        if String.eqb (MODEL_ADAPTATION cfg) "ours" then
          exists desc,
            trace s' = trace s
                         ++ [ EvCall (wandb_summary_set "description" desc) None;
                              EvLog INFO (MsgDescription desc) ]
        else s' = s)
     (fun e s' =>
        exists desc,
          trace s' = trace s
                       ++ [ EvCall (wandb_summary_set "description" desc)
                              (Some e) ]).
Proof.
  destruct (ours_description_pieces cfg) as [Hs Ht].
  split; [ exact Hs | ]. split; [ exact Ht | ].
  unfold describe_ours. fold student_keys t2_keys. rewrite Hs, Ht.
  destruct s.
  destruct (String.eqb (MODEL_ADAPTATION cfg) "ours"); [ | reflexivity ].
  wp_go; try discriminate; eexists; rewrite ?snoc2; reflexivity.
Qed.

(** ** The exceptions of [evaluate] *)

(** The exceptions that the driver raises by itself: the two assertions,
    an index past the end of a list, the average of an empty list. *)
Definition own_exception (e : exn) : Prop :=
  (exists setting,
      e = AssertionError (SettingNotSupported setting valid_settings) /\
      py_in setting valid_settings = false) \/
  (exists adaptation names,
      e = AssertionError (AdaptationNotSupported adaptation names) /\
      py_in adaptation names = false) \/
  e = IndexError \/
  e = ZeroDivisionError.

Definition raises_listed {A} (m : M A) : Prop :=
  forall s, wp m s (fun _ _ => True)
                   (fun e s' => env_failure e s' \/ own_exception e).

Lemma raises_listed_bind A B (m : M A) (k : A -> M B) :
  raises_listed m -> (forall a, raises_listed (k a)) ->
  raises_listed (bind m k).
Proof.
  intros Hm Hk s. apply wp_bind.
  eapply wp_mono; [ apply Hm | | auto ].
  cbv beta. intros a s' _. apply Hk.
Qed.

Lemma raises_listed_for_each A (l : list A) (body : A -> M unit) :
  (forall a, raises_listed (body a)) -> raises_listed (for_each l body).
Proof.
  intros H s.
  apply (wp_for_each _ (fun _ _ => True)); [ exact I | ].
  intros _ a s' _ _. apply H.
Qed.

Lemma py_index_Raise A (l : list A) i e :
  py_index l i = Raise e -> e = IndexError.
Proof.
  unfold py_index. destruct (nth_error l i); [ discriminate | ].
  intros [= <-]. reflexivity.
Qed.

Ltac listed :=
  first
    [ exact I
    | solve [ left; env_fail ]
    | solve [ left;
              match goal with
              | a : ret_ty os_cpu_count |- _ =>
                  destruct a; [ discriminate | ]
              end; env_fail ]
    | solve [ right; left; eexists; split; [ reflexivity | assumption ] ]
    | solve [ right; right; left; eexists; eexists;
              split; [ reflexivity | assumption ] ]
    | solve [ right; right; right; left;
              eapply py_index_Raise; eassumption ]
    | solve [ right; right; right; right;
              match goal with
              | H : py_mean _ = Raise _ |- _ =>
                  apply py_mean_Raise in H; destruct H as [_ ->]
              end; reflexivity ] ].

Ltac straight_listed :=
  let s := fresh "s" in
  intros s; destruct s; st_simpl; wp_go; listed.

Lemma raises_listed_describe_ours cfg : raises_listed (describe_ours cfg).
Proof.
  intros s.
  destruct (ours_description_pieces cfg) as [Hs Ht].
  unfold describe_ours. fold student_keys t2_keys. rewrite Hs, Ht.
  destruct s.
  destruct (String.eqb (MODEL_ADAPTATION cfg) "ours"); [ | exact I ].
  wp_go; try discriminate; listed.
Qed.

Lemma raises_listed_setup description : raises_listed (setup description).
Proof.
  unfold setup, load_and_validate, prepare, get_domain_sequence,
    get_severities.
  intros s; destruct s; st_simpl.
  wp_go; try solve [ listed ].
  eapply wp_mono; [ apply raises_listed_describe_ours | | auto ].
  cbv beta. intros _ s' _. destruct s'.
  wp_go; listed.
Qed.

Lemma raises_listed_report_averages : raises_listed report_averages.
Proof.
  unfold report_averages.
  apply raises_listed_bind; [ straight_listed | intros d ].
  apply raises_listed_bind;
    [ apply raises_listed_for_each; intros kv; straight_listed | intros _ ].
  apply raises_listed_bind; [ straight_listed | intros sa ].
  apply raises_listed_bind;
    [ apply raises_listed_for_each; intros ia; straight_listed | intros _ ].
  straight_listed.
Qed.

Lemma raises_listed_mixed_pass c : raises_listed (mixed_pass c).
Proof.
  unfold mixed_pass.
  destruct (String.eqb (SETTING (cfg c)) "continual_mixed_domain").
  - apply raises_listed_for_each. intros severity.
    unfold evaluate_mixed_severity, make_test_loader, call_get_accuracy,
      record_errs_5, py_min_workers.
    straight_listed.
  - straight_listed.
Qed.

Lemma raises_listed_finish c : raises_listed (finish c).
Proof. unfold finish. straight_listed. Qed.

(** Whatever [evaluate] raises is on a short list: the exception of an
    external call, raised by the last call made (or the [TypeError] of
    [min] when [os.cpu_count()] returned [None]); one of the two
    assertion errors, for a setting or an adaptation that is not in the
    list it is checked against; [IndexError], from [cfg.CORRUPTION.TYPE[0]]
    or from the looped sequence; [ZeroDivisionError], from the average
    of an empty list.  In particular no [KeyError] comes from the two
    dictionaries of the function. *)
Theorem exceptions_of_evaluate (description : string) (w : World) :
  let (r, s) := evaluate description w in
  forall e, r = Raise e -> env_failure e s \/ own_exception e.
Proof.
  assert (Hwp : wp (evaluate_body description) (initial w)
                  (fun _ _ => True)
                  (fun e s => env_failure e s \/ own_exception e)).
  { unfold evaluate_body. apply wp_bind.
    eapply wp_mono;
      [ apply wp_conj;
        [ apply setup_ready_wp | apply raises_listed_setup ]
      | | intros e s [_ H]; exact H ].
    cbv beta. intros c s1 [(Hb & _) _].
    unfold evaluation. apply wp_bind.
    eapply wp_mono; [ apply (books_subgroup_loop c subgroups Hb) | | ].
    - cbv beta. intros _ s2 _.
      apply raises_listed_bind; [ apply raises_listed_report_averages | ].
      intros _.
      apply raises_listed_bind; [ apply raises_listed_mixed_pass | ].
      intros _. apply raises_listed_finish.
    - intros e s [H|(sg & _ & [(-> & _)|(-> & _)])].
      + left. exact H.
      + right. right. right. left. reflexivity.
      + right. right. right. right. reflexivity. }
  unfold wp in Hwp. unfold evaluate.
  destruct (evaluate_body description (initial w)) as [[u|e0] s].
  - discriminate.
  - intros e [= <-]. exact Hwp.
Qed.

(** ** What the loops are run with *)

(** The severities of the gradual setting replace the configured one. *)
Definition ramp_condition (cfg : Cfg) : bool :=
  py_in_str "gradual" (SETTING cfg)
  && py_in (CORRUPTION_DATASET cfg) [ "cifar10_c"; "cifar100_c"; "imagenet_c" ]
  && Nat.eqb (List.length (CORRUPTION_SEVERITY cfg)) 1.

Definition builtin_domains : list string :=
  [ "clipart"; "infograph"; "painting"; "real"; "sketch" ].

Definition context_ok (c : ctx) : Prop :=
  severities c
  = (if ramp_condition (cfg c) then [1; 2; 3; 4; 5; 4; 3; 2; 1]%Z
     else CORRUPTION_SEVERITY (cfg c)) /\
  domain_seq_loop c
  = (if py_in_str "mixed_domains" (SETTING (cfg c)) then [ "mixed" ]
     else domain_sequence c) /\
  (String.eqb (CORRUPTION_DATASET (cfg c)) "domainnet126" = false ->
   if py_in (CORRUPTION_DATASET (cfg c)) [ "imagenet_d"; "imagenet_d109" ]
   then
     exists type0 rest,
       CORRUPTION_TYPE (cfg c) = type0 :: rest /\
       domain_sequence c
       = (if String.eqb type0 "" then builtin_domains
          else CORRUPTION_TYPE (cfg c))
   else domain_sequence c = CORRUPTION_TYPE (cfg c)) /\
  (device c = "cuda" \/ device c = "cpu").

Lemma py_index_0 A (l : list A) a :
  py_index l 0 = Ok a -> exists rest, l = a :: rest.
Proof.
  destruct l as [|x rest]; [ discriminate | ]. intros [= <-].
  exists rest. reflexivity.
Qed.

Ltac context_rewrite :=
  repeat match goal with
         | H : ?b = true |- context [if ?b then _ else _] => rewrite H
         | H : ?b = false |- context [if ?b then _ else _] => rewrite H
         end.

Lemma setup_context_wp description w :
  wp (setup description) (initial w) (fun c _ => context_ok c)
     (fun _ _ => True).
Proof.
  unfold setup, load_and_validate, prepare, describe_ours,
    get_domain_sequence, get_severities, initial.
  wp_go; trivial;
    unfold context_ok, ramp_condition, get_domain_seq_loop;
    cbn [cfg severities domain_seq_loop domain_sequence device];
    (split; [ context_rewrite; reflexivity | ]);
    (split; [ reflexivity | ]);
    (split; [ | match goal with
                | |- context [if ?b then "cuda" else "cpu"] =>
                    destruct b; auto
                end ]);
    intros Hd; try congruence; context_rewrite; try reflexivity;
    match goal with
    | H : py_index _ 0 = Ok _ |- _ =>
        apply py_index_0 in H; destruct H as [rest H]; rewrite H;
        eexists; eexists; split; [ reflexivity | ]
    end;
    context_rewrite; reflexivity.
Qed.

(** When the loops start: the severities are the configured ones, except
    in a "gradual" setting on one of the three corruption datasets with
    exactly one configured severity, where they are 1 to 5 and back
    whatever the configured value is; the looped sequence is the single
    entry "mixed" under a setting that contains "mixed_domains", and the
    domain sequence otherwise; for ImageNet-D the configured types must
    have a first entry (an empty list ends the setup), and the five
    built-in domains replace them when that entry is the empty string. *)
Theorem setup_context (description : string) (w : World) (c : ctx)
    (s1 : dstate) :
  setup description (initial w) = (Ok c, s1) -> context_ok c.
Proof.
  intros H. pose proof (setup_context_wp description w) as Hwp.
  unfold wp in Hwp. rewrite H in Hwp. exact Hwp.
Qed.

(** C1: once [evaluate] reaches the evaluation phase, the plan of its
    four nested loops is: the five subgroups of domain indices 0-2, 3-6,
    7-9, 10-11 and 12-14, two cycles for each, the indices of the
    subgroup in increasing order, and for each index the severities in
    their order; each combination calls [get_test_loader] once and then
    [get_accuracy] once.  The severities are the configured ones, except
    in a gradual setting on one of the three corruption datasets with a
    single configured severity, where they are the ramp 1, 2, 3, 4, 5, 4,
    3, 2, 1.  The calls that a run makes are a prefix of the plan,
    followed in the [continual_mixed_domain] setting by the calls of the
    final mixed pass: a run that stops early has made a proper part of
    them, a subgroup loop that completes has made exactly the planned
    calls, and a run that completes has made them all. *)
Theorem C1_iteration_plan (description : string) (w : World) (c : ctx)
    (s1 : dstate) :
  setup description (initial w) = (Ok c, s1) ->
  map range_list subgroups
    = [ [0; 1; 2]; [3; 4; 5; 6]; [7; 8; 9]; [10; 11]; [12; 13; 14] ]%nat /\
  severities c
    = (if ramp_condition (cfg c) then [1; 2; 3; 4; 5; 4; 3; 2; 1]%Z
       else CORRUPTION_SEVERITY (cfg c)) /\
  (let (r, s) := for_each subgroups (run_subgroup c) s1 in
   (exists rest, planned_calls c = step_calls (trace s) ++ rest) /\
   (r = Ok tt -> step_calls (trace s) = planned_calls c)) /\
  (let (r, s) := evaluate description w in
   (exists rest,
      planned_calls c ++ mixed_pass_calls c = step_calls (trace s) ++ rest) /\
   (r = Ok tt ->
    step_calls (trace s) = planned_calls c ++ mixed_pass_calls c)).
Proof.
  intros H.
  destruct (calls_follow_plan _ _ H) as (Hsub & Hloop & Hrun).
  pose proof (setup_context_wp description w) as Hwp.
  unfold wp in Hwp. rewrite H in Hwp. destruct Hwp as (Hsev & _).
  split; [ exact Hsub | ].
  split; [ exact Hsev | ].
  split; [ exact Hloop | exact Hrun ].
Qed.

(** ** The two overall means *)

(** The lists that [np.mean] is called on. *)
Definition means_of (ev : event) : list (list num) :=
  match ev with
  | EvCall (np_mean l) _ => [ l ]
  | _ => []
  end.

Definition means (t : list event) : list (list num) := keys means_of t.

Lemma means_of_call c e : means_of (EvCall c e) = means_of (EvCall c None).
Proof. destruct c; reflexivity. Qed.

Lemma no_mean_setup description : emits means_of (setup description) [].
Proof. unfold_driver. emits_found means_of means_of_call. Qed.

Lemma no_mean_loop c :
  emits means_of (for_each subgroups (run_subgroup c)) [].
Proof. unfold_driver. emits_found means_of means_of_call. Qed.

Lemma no_mean_report : emits means_of report_averages [].
Proof. unfold_driver. emits_found means_of means_of_call. Qed.

Lemma no_mean_mixed_pass c : emits means_of (mixed_pass c) [].
Proof. unfold_driver. emits_found means_of means_of_call. Qed.

(** What the last lines of [evaluate] average. *)
Definition final_means (s : dstate) : list (list num) :=
  match errs_5 s with
  | [] => [ errs s ]
  | _ :: _ => [ errs s; errs_5 s ]
  end.

Lemma means_finish c s :
  wp (finish c) s
     (fun _ s' =>
        means (trace s') = means (trace s) ++ final_means s /\
        errs s' = errs s /\ errs_5 s' = errs_5 s)
     (fun _ _ => True).
Proof.
  destruct s. unfold finish, final_means. st_simpl.
  wp_go; trivial;
    (split; [ | split; reflexivity ]);
    unfold means; rewrite !keys_snoc; cbn [means_of];
    rewrite ?app_nil_r, <- ?app_assoc;
    destruct errs_6; try discriminate; reflexivity.
Qed.

(** In a run that completes, [np.mean] is called at the very end only:
    on the global error list, which holds every evaluation of both
    cycles of every subgroup and of the final pass, and then on the
    severity-5 list when that list is not empty.  So the logged "mean
    error" weighs all evaluations equally, unlike the total average,
    which is a mean of subgroup means. *)
Theorem final_mean_errors (description : string) (w : World) (c : ctx)
    (s1 s : dstate) :
  setup description (initial w) = (Ok c, s1) ->
  evaluate description w = (Ok tt, s) ->
  means (trace s) = final_means s /\
  List.length (errs s)
  = (30 * List.length (severities c) + mixed_pass_size c)%nat.
Proof.
  intros Hsetup Hrun.
  pose proof (setup_ready _ _ Hsetup) as (Hb & _).
  assert (H1 : means (trace s1) = []).
  { pose proof (no_mean_setup description (initial w)) as E.
    rewrite Hsetup in E. exact E. }
  rewrite (evaluate_after_setup _ _ Hsetup) in Hrun.
  assert (Hwp : wp (evaluation c) s1
            (fun _ s' =>
               means (trace s') = final_means s' /\
               exists ps mixed,
                 Forall2 (full_cycles c) subgroups ps /\
                 List.length mixed = mixed_pass_size c /\
                 errs s'
                 = flat_map (fun p : cycle_pair => fst p ++ snd p) ps
                     ++ mixed)
            (fun _ _ => True)).
  { unfold evaluation. apply wp_bind.
    eapply wp_mono;
      [ apply wp_conj;
        [ apply (books_subgroup_loop c subgroups Hb)
        | apply (emits_wp s1 (no_mean_loop c)) ]
      | | auto ].
    cbv beta. intros _ s2 [(_ & ps & ce & sce & Hps & Hs2) Ht2].
    apply wp_bind.
    eapply wp_mono;
      [ apply wp_conj;
        [ apply (books_report_averages Hs2)
        | apply (emits_wp s2 no_mean_report) ]
      | | auto ].
    cbv beta. intros _ s3 [Hs3 Ht3]. apply wp_bind.
    eapply wp_mono;
      [ apply wp_conj;
        [ apply wp_conj;
          [ apply (books_mixed_pass c Hs3) | apply errs_mixed_pass ]
        | apply (emits_wp s3 (no_mean_mixed_pass c)) ]
      | | auto ].
    cbv beta. intros _ s4 [[(l & Hs4) (mixed & Hlen & He4)] Ht4].
    eapply wp_mono; [ apply means_finish | | auto ].
    cbv beta. intros _ s5 (Ht5 & He5 & He5').
    split.
    - unfold means in *.
      rewrite Ht5, Ht4, Ht3, Ht2, H1, !app_nil_r. cbn [app].
      unfold final_means. rewrite He5, He5'. reflexivity.
    - exists ps, mixed. split; [ exact Hps | ]. split; [ exact Hlen | ].
      destruct Hs3 as (He3 & _).
      rewrite He5, He4, He3. reflexivity. }
  unfold wp in Hwp. rewrite Hrun in Hwp.
  destruct Hwp as (Hm & ps & mixed & Hps & Hlen & He).
  split; [ exact Hm | ].
  destruct (full_cycles_size Hps) as [Hsize _].
  rewrite He, length_app, Hsize, Hlen. reflexivity.
Qed.

(** ** When the two assertions fire *)

(** The steps of the setup that build something. *)
Inductive setup_mark : Type :=
| BuiltModel
| AttachedPreprocess
| ListedAdaptations
| LookedUp
| Constructed.

Definition setup_marks_of (ev : event) : list setup_mark :=
  match ev with
  | EvCall (get_model _ _ _) _ => [ BuiltModel ]
  | EvCall (set_model_preprocess _ _) _ => [ AttachedPreprocess ]
  | EvCall registered_names _ => [ ListedAdaptations ]
  | EvCall (registry_get _) _ => [ LookedUp ]
  | EvCall (build_adaptation _ _ _ _) _ => [ Constructed ]
  | _ => []
  end.

Definition setup_marks (t : list event) : list setup_mark :=
  flat_map setup_marks_of t.

(** What was built when the setup ended with [e], raised by the driver
    itself. *)
Definition built_before (e : exn) (t : list event) : Prop :=
  match e with
  | AssertionError (SettingNotSupported _ _) => setup_marks t = []
  | AssertionError (AdaptationNotSupported _ _) =>
      setup_marks t = [ BuiltModel; AttachedPreprocess; ListedAdaptations ]
  | _ => True
  end.

Ltac built_done :=
  first
    [ exact I
    | solve [ intros Hclean; exfalso;
              unfold clean in Hclean; rewrite Forall_app in Hclean;
              destruct Hclean as [_ Hlast];
              inversion Hlast as [|? ? Hev _]; discriminate Hev ]
    | solve [ intros _; unfold built_before, setup_marks;
              rewrite ?flat_map_app; reflexivity ]
    | solve [ unfold setup_marks; rewrite ?flat_map_app; reflexivity ]
    | solve [ intros _; unfold built_before;
              match goal with
              | H : py_index _ _ = Raise ?e |- _ =>
                  apply py_index_Raise in H; subst e; exact I
              end ]
    | solve [ exfalso;
              match goal with
              | H : select_names _ _ (Ours_LOSSES ?c) = Raise _ |- _ =>
                  destruct (ours_description_pieces c) as [Hs Ht];
                  unfold student_keys, t2_keys in *; congruence
              end ] ].

Lemma setup_order_wp description w :
  wp (setup description) (initial w)
     (fun _ s =>
        setup_marks (trace s)
        = [ BuiltModel; AttachedPreprocess; ListedAdaptations; LookedUp;
            Constructed ])
     (fun e s => clean (trace s) -> built_before e (trace s)).
Proof.
  unfold setup, load_and_validate, prepare, get_domain_sequence,
    get_severities, describe_ours, initial.
  wp_go; built_done.
Qed.

(** A setting that is not supported is rejected before anything is
    built.  An adaptation that is not registered is rejected later: the
    base model has been built by [get_model] and its preprocessing
    attached, and only the lookup in the registry and the construction
    of the adaptation are spared.  A setup that succeeds has made the
    five calls once each, in this order.  A setup that raises ends
    [evaluate] with the same exception. *)
Theorem validation_order (description : string) (w : World) :
  match setup description (initial w) with
  | (Ok _, s) =>
      setup_marks (trace s)
      = [ BuiltModel; AttachedPreprocess; ListedAdaptations; LookedUp;
          Constructed ]
  | (Raise e, s) =>
      evaluate description w = (Raise e, s) /\
      (clean (trace s) -> built_before e (trace s))
  end.
Proof.
  pose proof (setup_order_wp description w) as Hwp. unfold wp in Hwp.
  unfold evaluate, evaluate_body, bind.
  destruct (setup description (initial w)) as [[c|e] s].
  - exact Hwp.
  - split; [ reflexivity | exact Hwp ].
Qed.

End DriverFacts.

(* ================================================================== *)
(** * Reasoning about the loss functions *)
(* ================================================================== *)

Module LossFacts.
Import Losses.

Section Facts.
Context {N : Numeric} {L : TensorLib}.
Local Open Scope string_scope.
Local Open Scope list_scope.
Local Open Scope nat_scope.

(** ** Calls only allocate *)

(** From [h] to [h'] tensors were allocated and nothing else happened:
    every object of [h] is in [h'] where and as it was, modules
    included. *)
Definition preserves (h h' : store) : Prop :=
  (exists new, tensors h' = tensors h ++ new) /\
  (exists new, indices h' = indices h ++ new) /\
  modules h' = modules h.

Lemma preserves_refl h : preserves h h.
Proof.
  repeat split; try (exists []; rewrite app_nil_r; reflexivity).
Qed.

Lemma preserves_trans h1 h2 h3 :
  preserves h1 h2 -> preserves h2 h3 -> preserves h1 h3.
Proof.
  intros ((n1 & H1) & (i1 & H1') & H1'') ((n2 & H2) & (i2 & H2') & H2'').
  repeat split.
  - exists (n1 ++ n2). rewrite H2, H1, app_assoc. reflexivity.
  - exists (i1 ++ i2). rewrite H2', H1', app_assoc. reflexivity.
  - congruence.
Qed.

Definition only_allocates {A} (m : T A) : Prop :=
  forall h, preserves h (snd (m h)).

Lemma only_allocates_ret A (a : A) : only_allocates (ret a).
Proof. intros h. apply preserves_refl. Qed.

Lemma only_allocates_lift A (r : outcome A) : only_allocates (lift r).
Proof. intros h. apply preserves_refl. Qed.

Lemma only_allocates_bind A B (m : T A) (k : A -> T B) :
  only_allocates m -> (forall a, only_allocates (k a)) ->
  only_allocates (bind m k).
Proof.
  intros Hm Hk h. unfold bind. specialize (Hm h).
  destruct (m h) as [[a|e] h']; cbn in *; [ | exact Hm ].
  eapply preserves_trans; [ exact Hm | apply Hk ].
Qed.

Lemma only_allocates_read r : only_allocates (read r).
Proof.
  intros h. unfold read. destruct (nth_error (tensors h) r);
    apply preserves_refl.
Qed.

Lemma only_allocates_read_index r : only_allocates (read_index r).
Proof.
  intros h. unfold read_index. destruct (nth_error (indices h) r);
    apply preserves_refl.
Qed.

Lemma only_allocates_getattr self name : only_allocates (getattr self name).
Proof.
  intros h. unfold getattr. destruct (nth_error (modules h) self) as [a|];
    [ destruct (find _ a) | ]; apply preserves_refl.
Qed.

Lemma only_allocates_alloc t : only_allocates (alloc t).
Proof.
  intros h. cbn. repeat split; [ exists [t]; reflexivity | ].
  exists []. rewrite app_nil_r. reflexivity.
Qed.

Lemma only_allocates_alloc_index l : only_allocates (alloc_index l).
Proof.
  intros h. cbn. repeat split; [ | exists [l]; reflexivity ].
  exists []. rewrite app_nil_r. reflexivity.
Qed.

Create HintDb alloc_db.
Hint Resolve only_allocates_ret only_allocates_lift only_allocates_read
  only_allocates_read_index only_allocates_getattr only_allocates_alloc
  only_allocates_alloc_index : alloc_db.

Ltac alloc_walk :=
  repeat first
    [ apply only_allocates_bind; [ | intro ]
    | solve [ auto with alloc_db ]
    | match goal with
      | |- only_allocates (match ?o with Some _ => _ | None => _ end) =>
          destruct o
      end ].

Lemma only_allocates_op1 f a : only_allocates (op1 f a).
Proof. unfold op1. alloc_walk. Qed.

Lemma only_allocates_op2 f a b : only_allocates (op2 f a b).
Proof. unfold op2. alloc_walk. Qed.

Lemma only_allocates_argmax a : only_allocates (t_argmax_dim1 a).
Proof. unfold t_argmax_dim1. alloc_walk. Qed.

Lemma only_allocates_index_select a i :
  only_allocates (t_index_select_last a i).
Proof. unfold t_index_select_last. alloc_walk. Qed.

Lemma only_allocates_size0 a : only_allocates (t_size0 a).
Proof. unfold t_size0. alloc_walk. Qed.

Hint Resolve only_allocates_op1 only_allocates_op2 only_allocates_argmax
  only_allocates_index_select only_allocates_size0 : alloc_db.

Ltac unfold_ops :=
  unfold softmax, log_softmax, t_mul, t_sub, t_div, t_sum_dim1, t_neg,
    scalar_mul, add_scalar, pow_scalar, scalar_sub, div_scalar, torch_log,
    torch_clamp, ones_like, t_sum, t_mean, t_mean_dim0, t_diag, t_view_rows,
    t_transpose, t_mm.

Lemma only_allocates_Entropy self logits :
  only_allocates (Entropy_call self logits).
Proof. unfold Entropy_call. unfold_ops. alloc_walk. Qed.

Lemma only_allocates_SymmetricCrossEntropy self x x_ema :
  only_allocates (SymmetricCrossEntropy_call self x x_ema).
Proof. unfold SymmetricCrossEntropy_call. unfold_ops. alloc_walk. Qed.

Lemma only_allocates_AugCrossEntropy self x x_aug x_ema :
  only_allocates (AugCrossEntropy_call self x x_aug x_ema).
Proof. unfold AugCrossEntropy_call. unfold_ops. alloc_walk. Qed.

Lemma only_allocates_SoftLikelihoodRatio self logits :
  only_allocates (SoftLikelihoodRatio_call self logits).
Proof. unfold SoftLikelihoodRatio_call. unfold_ops. alloc_walk. Qed.

Lemma only_allocates_GeneralizedCrossEntropy self logits targets :
  only_allocates (GeneralizedCrossEntropy_call self logits targets).
Proof. unfold GeneralizedCrossEntropy_call. unfold_ops. alloc_walk. Qed.

Lemma only_allocates_entropy_loss probs : only_allocates (entropy_loss probs).
Proof. unfold entropy_loss. unfold_ops. alloc_walk. Qed.

Lemma only_allocates_diversity_loss probs :
  only_allocates (diversity_loss probs).
Proof. unfold diversity_loss. unfold_ops. alloc_walk. Qed.

Hint Resolve only_allocates_entropy_loss only_allocates_diversity_loss
  : alloc_db.

Lemma only_allocates_info_max_loss probs :
  only_allocates (info_max_loss probs).
Proof. unfold info_max_loss. unfold_ops. alloc_walk. Qed.

Lemma only_allocates_orthogonal_loss prototypes :
  only_allocates (orthogonal_loss prototypes).
Proof. unfold orthogonal_loss. unfold_ops. alloc_walk. Qed.

(** ** Calls depend on the values of their arguments only *)

Definition same_tensor (h1 h2 : store) (r1 r2 : tref) : Prop :=
  exists t, nth_error (tensors h1) r1 = Some t /\
            nth_error (tensors h2) r2 = Some t.

Definition same_index (h1 h2 : store) (r1 r2 : iref) : Prop :=
  exists l, nth_error (indices h1) r1 = Some l /\
            nth_error (indices h2) r2 = Some l.

Definition same_module (h1 h2 : store) (r1 r2 : mref) : Prop :=
  exists a, nth_error (modules h1) r1 = Some a /\
            nth_error (modules h2) r2 = Some a.

Lemma nth_error_grows A (l new : list A) r a :
  nth_error l r = Some a -> nth_error (l ++ new) r = Some a.
Proof.
  intros H. rewrite nth_error_app1; [ exact H | ].
  apply nth_error_Some. congruence.
Qed.

Lemma nth_error_snoc A (l : list A) a :
  nth_error (l ++ [a]) (List.length l) = Some a.
Proof.
  rewrite nth_error_app2, Nat.sub_diag; [ reflexivity | apply Nat.le_refl ].
Qed.

Lemma same_tensor_preserved h1 h2 h1' h2' r1 r2 :
  preserves h1 h1' -> preserves h2 h2' ->
  same_tensor h1 h2 r1 r2 -> same_tensor h1' h2' r1 r2.
Proof.
  intros ((n1 & H1) & _) ((n2 & H2) & _) (t & Ht1 & Ht2).
  exists t. rewrite H1, H2. split; apply nth_error_grows; assumption.
Qed.

Lemma same_index_preserved h1 h2 h1' h2' r1 r2 :
  preserves h1 h1' -> preserves h2 h2' ->
  same_index h1 h2 r1 r2 -> same_index h1' h2' r1 r2.
Proof.
  intros (_ & (n1 & H1) & _) (_ & (n2 & H2) & _) (t & Ht1 & Ht2).
  exists t. rewrite H1, H2. split; apply nth_error_grows; assumption.
Qed.

Lemma same_module_preserved h1 h2 h1' h2' r1 r2 :
  preserves h1 h1' -> preserves h2 h2' ->
  same_module h1 h2 r1 r2 -> same_module h1' h2' r1 r2.
Proof.
  intros (_ & _ & H1) (_ & _ & H2) (t & Ht1 & Ht2).
  exists t. rewrite H1, H2. split; assumption.
Qed.

(** The two runs end the same way: with the same exception, or with
    results related by [R] in stores that only grew. *)
Definition agree {A} (R : A -> A -> store -> store -> Prop)
    (h1 h2 : store) (p1 p2 : outcome A * store) : Prop :=
  match p1, p2 with
  | (Ok a1, h1'), (Ok a2, h2') =>
      preserves h1 h1' /\ preserves h2 h2' /\ R a1 a2 h1' h2'
  | (Raise e1, _), (Raise e2, _) => e1 = e2
  | _, _ => False
  end.

Definition rwp {A} (m1 m2 : T A) (h1 h2 : store)
    (R : A -> A -> store -> store -> Prop) : Prop :=
  agree R h1 h2 (m1 h1) (m2 h2).

Lemma rwp_bind A B (m1 m2 : T A) (k1 k2 : A -> T B) h1 h2
    (R : B -> B -> store -> store -> Prop) :
  rwp m1 m2 h1 h2 (fun a1 a2 h1' h2' => rwp (k1 a1) (k2 a2) h1' h2' R) ->
  rwp (bind m1 k1) (bind m2 k2) h1 h2 R.
Proof.
  unfold rwp, agree, bind.
  destruct (m1 h1) as [[a1|e1] h1'], (m2 h2) as [[a2|e2] h2'];
    try solve [ intros [] | trivial ].
  intros (Hp1 & Hp2 & H).
  destruct (k1 a1 h1') as [[b1|e1] h1''], (k2 a2 h2') as [[b2|e2] h2''];
    try solve [ destruct H | trivial ].
  destruct H as (Hq1 & Hq2 & H).
  repeat split; try exact H; eapply preserves_trans; eassumption.
Qed.

Lemma rwp_ret A (a1 a2 : A) h1 h2 (R : A -> A -> store -> store -> Prop) :
  R a1 a2 h1 h2 -> rwp (ret a1) (ret a2) h1 h2 R.
Proof.
  intros H. repeat split; try apply preserves_refl. exact H.
Qed.

Lemma rwp_lift A (r : outcome A) h1 h2
    (R : A -> A -> store -> store -> Prop) :
  (forall a, r = Ok a -> R a a h1 h2) -> rwp (lift r) (lift r) h1 h2 R.
Proof.
  intros H. unfold rwp, agree, lift. destruct r as [a|e]; [ | reflexivity ].
  repeat split; try apply preserves_refl. apply H. reflexivity.
Qed.

Lemma rwp_read r1 r2 h1 h2 (R : tensor -> tensor -> store -> store -> Prop) :
  same_tensor h1 h2 r1 r2 ->
  (forall t, R t t h1 h2) ->
  rwp (read r1) (read r2) h1 h2 R.
Proof.
  intros (t & H1 & H2) H. unfold rwp, agree, read. rewrite H1, H2.
  repeat split; try apply preserves_refl. apply H.
Qed.

Lemma rwp_read_index r1 r2 h1 h2
    (R : itensor -> itensor -> store -> store -> Prop) :
  same_index h1 h2 r1 r2 ->
  (forall l, R l l h1 h2) ->
  rwp (read_index r1) (read_index r2) h1 h2 R.
Proof.
  intros (t & H1 & H2) H. unfold rwp, agree, read_index. rewrite H1, H2.
  repeat split; try apply preserves_refl. apply H.
Qed.

Lemma rwp_getattr r1 r2 name h1 h2
    (R : num -> num -> store -> store -> Prop) :
  same_module h1 h2 r1 r2 ->
  (forall v, R v v h1 h2) ->
  rwp (getattr r1 name) (getattr r2 name) h1 h2 R.
Proof.
  intros (a & H1 & H2) H. unfold rwp, agree, getattr. rewrite H1, H2.
  destruct (find _ a); [ | reflexivity ].
  repeat split; try apply preserves_refl. apply H.
Qed.

Lemma rwp_alloc t h1 h2 (R : tref -> tref -> store -> store -> Prop) :
  (forall r1 r2 h1' h2',
      preserves h1 h1' -> preserves h2 h2' -> same_tensor h1' h2' r1 r2 ->
      R r1 r2 h1' h2') ->
  rwp (alloc t) (alloc t) h1 h2 R.
Proof.
  intros H. unfold rwp, agree.
  pose proof (only_allocates_alloc t h1) as Hp1.
  pose proof (only_allocates_alloc t h2) as Hp2.
  cbn in *. repeat split; try (exact (proj1 Hp1)); try (exact (proj1 Hp2));
    try (exact (proj1 (proj2 Hp1))); try (exact (proj1 (proj2 Hp2))).
  apply H; try assumption.
  exists t. cbn. split; apply nth_error_snoc.
Qed.

Lemma rwp_alloc_index l h1 h2
    (R : iref -> iref -> store -> store -> Prop) :
  (forall r1 r2 h1' h2',
      preserves h1 h1' -> preserves h2 h2' -> same_index h1' h2' r1 r2 ->
      R r1 r2 h1' h2') ->
  rwp (alloc_index l) (alloc_index l) h1 h2 R.
Proof.
  intros H. unfold rwp, agree.
  pose proof (only_allocates_alloc_index l h1) as Hp1.
  pose proof (only_allocates_alloc_index l h2) as Hp2.
  cbn in *. repeat split; try (exact (proj1 Hp1)); try (exact (proj1 Hp2));
    try (exact (proj1 (proj2 Hp1))); try (exact (proj1 (proj2 Hp2))).
  apply H; try assumption.
  exists l. cbn. split; apply nth_error_snoc.
Qed.

Lemma rwp_op1 f a1 a2 h1 h2 (R : tref -> tref -> store -> store -> Prop) :
  same_tensor h1 h2 a1 a2 ->
  (forall r1 r2 h1' h2',
      preserves h1 h1' -> preserves h2 h2' -> same_tensor h1' h2' r1 r2 ->
      R r1 r2 h1' h2') ->
  rwp (op1 f a1) (op1 f a2) h1 h2 R.
Proof.
  intros Ha H. unfold op1.
  apply rwp_bind, rwp_read; [ exact Ha | intros t ].
  apply rwp_bind, rwp_lift. intros t' _. apply rwp_alloc. exact H.
Qed.

Lemma rwp_op2 f a1 a2 b1 b2 h1 h2
    (R : tref -> tref -> store -> store -> Prop) :
  same_tensor h1 h2 a1 a2 -> same_tensor h1 h2 b1 b2 ->
  (forall r1 r2 h1' h2',
      preserves h1 h1' -> preserves h2 h2' -> same_tensor h1' h2' r1 r2 ->
      R r1 r2 h1' h2') ->
  rwp (op2 f a1 b1) (op2 f a2 b2) h1 h2 R.
Proof.
  intros Ha Hb H. unfold op2.
  apply rwp_bind, rwp_read; [ exact Ha | intros ta ].
  apply rwp_bind, rwp_read; [ exact Hb | intros tb ].
  apply rwp_bind, rwp_lift. intros t' _. apply rwp_alloc. exact H.
Qed.

Lemma rwp_argmax a1 a2 h1 h2 (R : iref -> iref -> store -> store -> Prop) :
  same_tensor h1 h2 a1 a2 ->
  (forall r1 r2 h1' h2',
      preserves h1 h1' -> preserves h2 h2' -> same_index h1' h2' r1 r2 ->
      R r1 r2 h1' h2') ->
  rwp (t_argmax_dim1 a1) (t_argmax_dim1 a2) h1 h2 R.
Proof.
  intros Ha H. unfold t_argmax_dim1.
  apply rwp_bind, rwp_read; [ exact Ha | intros t ].
  apply rwp_bind, rwp_lift. intros l _. apply rwp_alloc_index. exact H.
Qed.

Lemma rwp_index_select a1 a2 i1 i2 h1 h2
    (R : tref -> tref -> store -> store -> Prop) :
  same_tensor h1 h2 a1 a2 -> same_index h1 h2 i1 i2 ->
  (forall r1 r2 h1' h2',
      preserves h1 h1' -> preserves h2 h2' -> same_tensor h1' h2' r1 r2 ->
      R r1 r2 h1' h2') ->
  rwp (t_index_select_last a1 i1) (t_index_select_last a2 i2) h1 h2 R.
Proof.
  intros Ha Hi H. unfold t_index_select_last.
  apply rwp_bind, rwp_read; [ exact Ha | intros t ].
  apply rwp_bind, rwp_read_index; [ exact Hi | intros l ].
  apply rwp_bind, rwp_lift. intros t' _. apply rwp_alloc. exact H.
Qed.

Lemma rwp_size0 a1 a2 h1 h2 (R : Z -> Z -> store -> store -> Prop) :
  same_tensor h1 h2 a1 a2 ->
  (forall n, R n n h1 h2) ->
  rwp (t_size0 a1) (t_size0 a2) h1 h2 R.
Proof.
  intros Ha H. unfold t_size0.
  apply rwp_bind, rwp_read; [ exact Ha | intros t ].
  apply rwp_lift. intros n _. apply H.
Qed.

(** Moves what is known of the two stores to the stores after a step. *)
Ltac step_intro :=
  let r1 := fresh "r" in
  let r2 := fresh "r" in
  let h1' := fresh "h" in
  let h2' := fresh "h" in
  let Hp1 := fresh "Hp" in
  let Hp2 := fresh "Hp" in
  let Hr := fresh "Hr" in
  intros r1 r2 h1' h2' Hp1 Hp2 Hr;
  repeat match goal with
         | H : same_tensor _ _ _ _ |- _ =>
             apply (same_tensor_preserved Hp1 Hp2) in H
         | H : same_index _ _ _ _ |- _ =>
             apply (same_index_preserved Hp1 Hp2) in H
         | H : same_module _ _ _ _ |- _ =>
             apply (same_module_preserved Hp1 Hp2) in H
         end;
  clear Hp1 Hp2.

Ltac det_step :=
  lazymatch goal with
  | |- rwp (bind _ _) (bind _ _) _ _ _ => apply rwp_bind
  | |- rwp (op1 _ _) (op1 _ _) _ _ _ =>
      apply rwp_op1; [ eassumption | step_intro ]
  | |- rwp (op2 _ _ _) (op2 _ _ _) _ _ _ =>
      apply rwp_op2; [ eassumption | eassumption | step_intro ]
  | |- rwp (getattr _ _) (getattr _ _) _ _ _ =>
      apply rwp_getattr; [ eassumption | intro ]
  | |- rwp (t_argmax_dim1 _) (t_argmax_dim1 _) _ _ _ =>
      apply rwp_argmax; [ eassumption | step_intro ]
  | |- rwp (t_index_select_last _ _) (t_index_select_last _ _) _ _ _ =>
      apply rwp_index_select; [ eassumption | eassumption | step_intro ]
  | |- rwp (t_size0 _) (t_size0 _) _ _ _ =>
      apply rwp_size0; [ eassumption | intro ]
  | |- rwp (ret _) (ret _) _ _ _ => apply rwp_ret
  | |- same_tensor _ _ _ _ => eassumption
  | |- same_index _ _ _ _ => eassumption
  end.

Ltac det_walk := repeat det_step.

Definition same_result (r1 r2 : tref) (h1 h2 : store) : Prop :=
  same_tensor h1 h2 r1 r2.

Lemma det_Entropy self1 self2 x1 x2 h1 h2 :
  same_tensor h1 h2 x1 x2 ->
  rwp (Entropy_call self1 x1) (Entropy_call self2 x2) h1 h2 same_result.
Proof.
  intros Hx. unfold Entropy_call, same_result. unfold_ops. det_walk.
Qed.

Lemma det_SymmetricCrossEntropy self1 self2 x1 x2 y1 y2 h1 h2 :
  same_module h1 h2 self1 self2 ->
  same_tensor h1 h2 x1 x2 -> same_tensor h1 h2 y1 y2 ->
  rwp (SymmetricCrossEntropy_call self1 x1 y1)
      (SymmetricCrossEntropy_call self2 x2 y2) h1 h2 same_result.
Proof.
  intros Hs Hx Hy. unfold SymmetricCrossEntropy_call, same_result.
  unfold_ops. det_walk.
Qed.


Lemma det_SoftLikelihoodRatio self1 self2 x1 x2 h1 h2 :
  same_module h1 h2 self1 self2 ->
  same_tensor h1 h2 x1 x2 ->
  rwp (SoftLikelihoodRatio_call self1 x1)
      (SoftLikelihoodRatio_call self2 x2) h1 h2 same_result.
Proof.
  intros Hs Hx. unfold SoftLikelihoodRatio_call, same_result.
  unfold_ops. det_walk.
Qed.

Lemma det_GeneralizedCrossEntropy_argmax self1 self2 x1 x2 h1 h2 :
  same_module h1 h2 self1 self2 ->
  same_tensor h1 h2 x1 x2 ->
  rwp (GeneralizedCrossEntropy_call self1 x1 None)
      (GeneralizedCrossEntropy_call self2 x2 None) h1 h2 same_result.
Proof.
  intros Hs Hx. unfold GeneralizedCrossEntropy_call, same_result.
  unfold_ops. det_walk.
Qed.

Lemma det_GeneralizedCrossEntropy_targets self1 self2 x1 x2 t1 t2 h1 h2 :
  same_module h1 h2 self1 self2 ->
  same_tensor h1 h2 x1 x2 -> same_index h1 h2 t1 t2 ->
  rwp (GeneralizedCrossEntropy_call self1 x1 (Some t1))
      (GeneralizedCrossEntropy_call self2 x2 (Some t2)) h1 h2 same_result.
Proof.
  intros Hs Hx Ht. unfold GeneralizedCrossEntropy_call, same_result.
  unfold_ops. det_walk.
Qed.

Lemma det_entropy_loss x1 x2 h1 h2 :
  same_tensor h1 h2 x1 x2 ->
  rwp (entropy_loss x1) (entropy_loss x2) h1 h2 same_result.
Proof.
  intros Hx. unfold entropy_loss, same_result. unfold_ops. det_walk.
Qed.

Lemma det_diversity_loss x1 x2 h1 h2 :
  same_tensor h1 h2 x1 x2 ->
  rwp (diversity_loss x1) (diversity_loss x2) h1 h2 same_result.
Proof.
  intros Hx. unfold diversity_loss, same_result. unfold_ops. det_walk.
Qed.

Lemma rwp_mono A (m1 m2 : T A) h1 h2
    (R R' : A -> A -> store -> store -> Prop) :
  rwp m1 m2 h1 h2 R ->
  (forall a1 a2 h1' h2',
      preserves h1 h1' -> preserves h2 h2' -> R a1 a2 h1' h2' ->
      R' a1 a2 h1' h2') ->
  rwp m1 m2 h1 h2 R'.
Proof.
  unfold rwp, agree.
  destruct (m1 h1) as [[a1|e1] h1'], (m2 h2) as [[a2|e2] h2'];
    intros H HR; try exact H.
  destruct H as (Hp1 & Hp2 & H).
  split; [ exact Hp1 | split; [ exact Hp2 | auto ] ].
Qed.

Lemma det_info_max_loss x1 x2 h1 h2 :
  same_tensor h1 h2 x1 x2 ->
  rwp (info_max_loss x1) (info_max_loss x2) h1 h2 same_result.
Proof.
  intros Hx. unfold info_max_loss, same_result.
  apply rwp_bind.
  eapply rwp_mono; [ apply det_entropy_loss; exact Hx | ].
  unfold same_result. step_intro.
  apply rwp_bind.
  eapply rwp_mono; [ apply det_diversity_loss; exact Hx | ].
  unfold same_result. step_intro.
  unfold_ops. det_walk.
Qed.

Lemma det_orthogonal_loss x1 x2 h1 h2 :
  same_tensor h1 h2 x1 x2 ->
  rwp (orthogonal_loss x1) (orthogonal_loss x2) h1 h2 same_result.
Proof.
  intros Hx. unfold orthogonal_loss, same_result. unfold_ops. det_walk.
Qed.

(** ** Values of the losses on well-shaped tensors *)

Lemma broadcast_dim_same n : broadcast_dim n n = Some n.
Proof. unfold broadcast_dim. rewrite Nat.eqb_refl. reflexivity. Qed.

Lemma expand_same A n (l : list A) : List.length l = n -> expand n l = l.
Proof.
  intros <-. unfold expand. rewrite Nat.eqb_refl. reflexivity.
Qed.

Lemma map_expand_same c (rows : list (list num)) :
  Forall (fun r => List.length r = c) rows -> map (expand c) rows = rows.
Proof.
  induction 1 as [|r rows Hr _ IH]; cbn; [ reflexivity | ].
  rewrite IH, expand_same by exact Hr. reflexivity.
Qed.

Lemma elementwise_T2 f c rows1 rows2 :
  Forall (fun r => List.length r = c) rows1 ->
  Forall (fun r => List.length r = c) rows2 ->
  List.length rows1 = List.length rows2 ->
  elementwise f (T2 c rows1) (T2 c rows2)
  = Ok (T2 c (map2 (map2 f) rows1 rows2)).
Proof.
  intros H1 H2 Hlen. unfold elementwise, as_rows.
  rewrite Hlen, !broadcast_dim_same.
  rewrite !map_expand_same by assumption.
  rewrite !expand_same by congruence.
  reflexivity.
Qed.

Lemma elementwise_T1 f l1 l2 :
  List.length l1 = List.length l2 ->
  elementwise f (T1 l1) (T1 l2) = Ok (T1 (map2 f l1 l2)).
Proof.
  intros Hlen. unfold elementwise, as_rows.
  rewrite Hlen, !broadcast_dim_same. cbn [map].
  rewrite !(expand_same (n := List.length l2)) by congruence.
  rewrite !expand_same by reflexivity.
  reflexivity.
Qed.

Lemma map2_length A B C (f : A -> B -> C) l1 l2 :
  List.length l1 = List.length l2 ->
  List.length (map2 f l1 l2) = List.length l1.
Proof.
  revert l2. induction l1 as [|a l1 IH]; intros [|b l2] H; cbn in *;
    try discriminate; [ reflexivity | ].
  rewrite IH; [ reflexivity | congruence ].
Qed.

Lemma nth_map2 A B C (f : A -> B -> C) l1 l2 i da db dc :
  List.length l1 = List.length l2 -> i < List.length l1 ->
  nth i (map2 f l1 l2) dc = f (nth i l1 da) (nth i l2 db).
Proof.
  revert l2 i. induction l1 as [|a l1 IH]; intros [|b l2] i H Hi; cbn in *;
    try discriminate; [ lia | ].
  destruct i as [|i]; [ reflexivity | ].
  apply IH; [ congruence | lia ].
Qed.

Lemma map2_as_map A B C (f : A -> B -> C) l1 l2 da db :
  List.length l1 = List.length l2 ->
  map2 f l1 l2
  = map (fun c => f (nth c l1 da) (nth c l2 db)) (seq 0 (List.length l1)).
Proof.
  revert l2. induction l1 as [|a l1 IH]; intros [|b l2] H; cbn in *;
    try discriminate; [ reflexivity | ].
  f_equal. rewrite <- seq_shift, map_map. apply IH. congruence.
Qed.

Lemma Forall_map_length (f : list num -> list num) c rows :
  (forall r, List.length (f r) = List.length r) ->
  Forall (fun r => List.length r = c) rows ->
  Forall (fun r => List.length r = c) (map f rows).
Proof.
  intros Hf H. induction H as [|r rows Hr _ IH]; cbn; constructor;
    [ rewrite Hf; exact Hr | exact IH ].
Qed.

Lemma Forall_map2_length (f : num -> num -> num) c rows1 rows2 :
  Forall (fun r => List.length r = c) rows1 ->
  Forall (fun r => List.length r = c) rows2 ->
  Forall (fun r => List.length r = c) (map2 (map2 f) rows1 rows2).
Proof.
  intros H1. revert rows2.
  induction H1 as [|r1 rows1 Hr1 _ IH]; intros rows2 H2; cbn;
    [ constructor | ].
  destruct H2 as [|r2 rows2 Hr2 H2]; constructor.
  - rewrite map2_length; congruence.
  - apply IH. exact H2.
Qed.

(** What a call returns: the value of its result, or its exception. *)
Definition value_of (p : outcome tref * store) : outcome (option tensor) :=
  match p with
  | (Ok r, h) => Ok (nth_error (tensors h) r)
  | (Raise e, _) => Raise e
  end.

Lemma agree_value h1 h2 p1 p2 t :
  agree same_result h1 h2 p1 p2 ->
  value_of p2 = Ok (Some t) -> value_of p1 = Ok (Some t).
Proof.
  destruct p1 as [[r1|e1] h1'], p2 as [[r2|e2] h2']; cbn;
    try solve [ intros [] | discriminate ].
  intros (_ & _ & t' & H1 & H2) [= H]. rewrite H1. congruence.
Qed.

Lemma getattr_Ok self name h v :
  getattr self name h = (Ok v, h) ->
  exists attrs kv,
    nth_error (modules h) self = Some attrs /\
    find (fun kv => String.eqb (fst kv) name) attrs = Some kv /\
    snd kv = v.
Proof.
  unfold getattr. destruct (nth_error (modules h) self) as [attrs|];
    [ | discriminate ].
  destruct (find _ attrs) as [kv|] eqn:Hf; [ | discriminate ].
  intros [= <-]. exists attrs, kv. auto.
Qed.

Lemma nth_map_at A B (f : A -> B) l i d d' :
  i < List.length l -> nth i (map f l) d = f (nth i l d').
Proof.
  revert i. induction l as [|a l IH]; intros i Hi; cbn in *; [ lia | ].
  destruct i as [|i]; [ reflexivity | ]. apply IH. lia.
Qed.

Lemma Forall_nth_length c (rows : list (list num)) i :
  Forall (fun r => List.length r = c) rows -> i < List.length rows ->
  List.length (nth i rows []) = c.
Proof.
  intros H Hi. rewrite Forall_forall in H. apply H, nth_In, Hi.
Qed.

Ltac shape_side :=
  repeat first
    [ assumption
    | reflexivity
    | apply Forall_map2_length
    | apply Forall_map_length;
      [ first [ exact softmax_row_length | exact log_softmax_row_length ] | ]
    | rewrite length_map
    | rewrite map2_length
    | congruence ].


(** One term of the symmetric cross-entropy, for sample [i]:
    [sum_c softmax(a)[i,c] * log_softmax(b)[i,c]]. *)
Definition cross_term (classes : nat) (a b : list (list num)) (i : nat)
    : num :=
  reduce_sum
    (map (fun c =>
            mul (nth c (softmax_row (nth i a [])) (of_int 0))
                (nth c (log_softmax_row (nth i b [])) (of_int 0)))
         (seq 0 classes)).

Lemma cross_term_nth classes (a b : list (list num)) i :
  Forall (fun r => List.length r = classes) a ->
  Forall (fun r => List.length r = classes) b ->
  List.length a = List.length b -> i < List.length a ->
  nth i (map reduce_sum
           (map2 (map2 mul) (map softmax_row a) (map log_softmax_row b)))
      (of_int 0)
  = cross_term classes a b i.
Proof.
  intros Ha Hb Hlen Hi.
  rewrite nth_map_at with (d' := [])
    by (rewrite map2_length; rewrite !length_map; congruence).
  rewrite nth_map2 with (da := []) (db := [])
    by (rewrite !length_map; congruence).
  rewrite nth_map_at with (d' := []) by exact Hi.
  rewrite nth_map_at with (d' := []) by congruence.
  assert (Hai : List.length (nth i a []) = classes)
    by (apply Forall_nth_length; assumption).
  assert (Hbi : List.length (nth i b []) = classes)
    by (apply Forall_nth_length; [ exact Hb | congruence ]).
  unfold cross_term.
  rewrite map2_as_map with (da := of_int 0) (db := of_int 0)
    by (rewrite softmax_row_length, log_softmax_row_length; congruence).
  rewrite softmax_row_length, Hai. reflexivity.
Qed.


(** ** Entropy, diversity and information maximisation *)

Lemma elementwise_T0 f a b : elementwise f (T0 a) (T0 b) = Ok (T0 (f a b)).
Proof. reflexivity. Qed.

(** The small constant that keeps the logarithm away from zero. *)
Definition log_eps : num := lit (1 # 10000000000000000)%Q.

(** [-sum_c p[c] * log(p[c] + 1e-16)]: the entropy of one distribution, as
    both losses compute it. *)
Definition entropy_of (p : list num) : num :=
  neg (reduce_sum
         (map2 mul p (map t_log (map (fun v => add v log_eps) p)))).

(** The mean of the distributions [rows] across the samples. *)
Definition mean_distribution (classes : nat) (rows : list (list num))
    : list num :=
  map (fun j => reduce_mean (column j rows)) (seq 0 classes).

Lemma map_entropy_of (f : num -> num) g rows :
  (forall r, neg (reduce_sum (map2 mul r (map f (map g r)))) = entropy_of r) ->
  map neg (map reduce_sum (map2 (map2 mul) rows (map (map f) (map (map g) rows))))
  = map entropy_of rows.
Proof.
  intros H. induction rows as [|r rows IH]; cbn; [ reflexivity | ].
  rewrite IH, H. reflexivity.
Qed.

Lemma Forall_map_map_length (f : num -> num) c rows :
  Forall (fun r => List.length r = c) rows ->
  Forall (fun r => List.length r = c) (map (map f) rows).
Proof.
  intros H. induction H as [|r rows Hr _ IH]; cbn; constructor;
    [ rewrite length_map; exact Hr | exact IH ].
Qed.

Ltac shape_side2 :=
  repeat first
    [ assumption
    | reflexivity
    | apply Forall_map_map_length
    | rewrite length_map
    | rewrite length_seq
    | congruence ].

(** C10: for probabilities [p] of shape (samples, classes),
    [entropy_loss] is the mean over the samples of the entropy of each
    row, [diversity_loss] is the entropy of the mean distribution, and
    [info_max_loss] is the first minus the second. *)
Theorem C10_info_max (h : store) (probs : tref) (classes : nat)
    (P : list (list num)) :
  nth_error (tensors h) probs = Some (T2 classes P) ->
  well_shaped (T2 classes P) ->
  let ent := reduce_mean (map entropy_of P) in
  let div := entropy_of (mean_distribution classes P) in
  value_of (entropy_loss probs h) = Ok (Some (T0 ent)) /\
  value_of (diversity_loss probs h) = Ok (Some (T0 div)) /\
  value_of (info_max_loss probs h) = Ok (Some (T0 (sub ent div))).
Proof.
  intros Hp HP ent div. cbn [well_shaped] in HP.
  pose (h0 := {| tensors := [T2 classes P]; indices := []; modules := [] |}).
  assert (H0 : same_tensor h h0 probs 0).
  { exists (T2 classes P). split; [ exact Hp | reflexivity ]. }
  assert (Hent : value_of (entropy_loss 0 h0) = Ok (Some (T0 ent))).
  { unfold entropy_loss, h0.
    unfold_ops; unfold op1, op2, total, bind, read, lift, alloc.
    cbn -[elementwise].
    rewrite elementwise_T2 by shape_side2. cbn -[elementwise].
    unfold ent. rewrite map_entropy_of; reflexivity. }
  assert (Hdiv : value_of (diversity_loss 0 h0) = Ok (Some (T0 div))).
  { unfold diversity_loss, h0.
    unfold_ops; unfold op1, op2, total, bind, read, lift, alloc.
    cbn -[elementwise].
    rewrite elementwise_T1 by shape_side2. cbn -[elementwise].
    reflexivity. }
  assert (Him : value_of (info_max_loss 0 h0)
                = Ok (Some (T0 (sub ent div)))).
  { unfold info_max_loss, entropy_loss, diversity_loss, h0.
    unfold_ops; unfold op1, op2, total, bind, read, lift, alloc.
    cbn -[elementwise].
    rewrite elementwise_T2 by shape_side2. cbn -[elementwise].
    rewrite elementwise_T1 by shape_side2. cbn -[elementwise].
    unfold ent. rewrite map_entropy_of; reflexivity. }
  split; [ | split ].
  - eapply agree_value; [ apply det_entropy_loss; exact H0 | exact Hent ].
  - eapply agree_value; [ apply det_diversity_loss; exact H0 | exact Hdiv ].
  - eapply agree_value; [ apply det_info_max_loss; exact H0 | exact Him ].
Qed.

(** ** The orthogonality loss *)

Lemma map_nth_seq A (l : list A) d :
  map (fun k => nth k l d) (seq 0 (List.length l)) = l.
Proof.
  apply nth_ext with (d := d) (d' := d).
  - rewrite length_map, length_seq. reflexivity.
  - rewrite length_map, length_seq. intros k Hk.
    rewrite nth_map_at with (d' := 0) by (rewrite length_seq; exact Hk).
    rewrite seq_nth by exact Hk. reflexivity.
Qed.

(** Column [j] of the transposed matrix is row [j] of the matrix. *)
Lemma column_transpose d (P : list (list num)) j :
  Forall (fun r => List.length r = d) P -> j < List.length P ->
  column j (map (fun k => column k P) (seq 0 d)) = nth j P [].
Proof.
  intros HP Hj. unfold column. rewrite map_map.
  etransitivity; [ | apply (map_nth_seq (nth j P []) (of_int 0%Z)) ].
  rewrite Forall_nth_length with (c := d) by assumption.
  apply map_ext. intros k.
  apply (nth_map_at (fun r => nth k r (of_int 0%Z)) P (of_int 0%Z) [] Hj).
Qed.

(** The Gram matrix of the prototypes: entry [(i, j)] is the product of
    prototype [i] with prototype [j]. *)
Definition gram (P : list (list num)) : list (list num) :=
  map (fun ri => map (fun rj => dot ri rj) P) P.

Definition squared_gram_sum (P : list (list num)) : num :=
  reduce_sum
    (List.concat (map (map (fun g => pow g (of_int 2%Z))) (gram P))).

Lemma mm_transpose d (P : list (list num)) :
  Forall (fun r => List.length r = d) P ->
  map (fun r =>
         map (fun j => dot r (column j (map (fun k => column k P) (seq 0 d))))
             (seq 0 (List.length P))) P
  = gram P.
Proof.
  intros HP. unfold gram. apply map_ext. intros r.
  etransitivity;
    [ | apply (f_equal (map (fun rj => dot r rj)) (map_nth_seq P [])) ].
  rewrite map_map.
  apply map_ext_in. intros j Hj. apply in_seq in Hj.
  rewrite column_transpose by (assumption || lia). reflexivity.
Qed.

Lemma agree_raise h1 h2 (p1 p2 : outcome tref * store) e :
  agree same_result h1 h2 p1 p2 ->
  value_of p2 = Raise e -> value_of p1 = Raise e.
Proof.
  destruct p1 as [[r1|e1] h1'], p2 as [[r2|e2] h2']; cbn;
    try solve [ intros [] | discriminate ].
  intros -> H. exact H.
Qed.

(** The prototypes of a tensor of one dimension or more: its slices
    along dimension 0, the entries of each in one row. *)
Definition prototype_rows (t : tensor) : list (list num) :=
  match t with
  | T0 _ => []
  | T1 l => map (fun v => [v]) l
  | T2 _ rows => rows
  | TN _ _ _ rows => rows
  end.

Definition prototype_size (t : tensor) : nat :=
  match t with
  | T0 _ => 0
  | T1 _ => 1
  | T2 cols _ => cols
  | TN d1 d2 dims _ => numel (d1 :: d2 :: dims)
  end.

Lemma prototype_rows_shaped (t : tensor) :
  well_shaped t ->
  Forall (fun r => List.length r = prototype_size t) (prototype_rows t).
Proof.
  destruct t as [v|l|c rows|d1 d2 dims rows];
    cbn [well_shaped prototype_rows prototype_size]; intros H.
  - constructor.
  - apply Forall_map. apply Forall_forall. reflexivity.
  - exact H.
  - exact H.
Qed.

Lemma view_rows_prototypes (t : tensor) :
  1 <= rank t ->
  view_rows t =
    if Nat.eqb (List.length (prototype_rows t)) 0 then Raise RuntimeError
    else Ok (T2 (prototype_size t) (prototype_rows t)).
Proof.
  destruct t as [v|l|c rows|d1 d2 dims rows];
    cbn [rank view_rows prototype_rows prototype_size]; intros H.
  - lia.
  - rewrite length_map. reflexivity.
  - reflexivity.
  - reflexivity.
Qed.

Lemma size0_prototypes (t : tensor) :
  1 <= rank t ->
  size0 t = Ok (Z.of_nat (List.length (prototype_rows t))).
Proof.
  destruct t as [v|l|c rows|d1 d2 dims rows];
    cbn [rank size0 prototype_rows];
    intros H; [ lia | rewrite length_map | | ]; reflexivity.
Qed.

Lemma orthogonal_loss_value (h : store) (prototypes : tref) (t : tensor) :
  nth_error (tensors h) prototypes = Some t ->
  well_shaped t ->
  1 <= rank t ->
  let P := prototype_rows t in
  value_of (orthogonal_loss prototypes h) =
    if Nat.eqb (List.length P) 0 then Raise RuntimeError
    else
      let n := Z.of_nat (List.length P) in
      Ok (Some (T0 (div (squared_gram_sum P) (of_int (n * (n - 1))%Z)))).
Proof.
  intros Hp Ht Hrank P.
  pose proof (prototype_rows_shaped t Ht) as HP. fold P in HP.
  pose (h0 := {| tensors := [t]; indices := []; modules := [] |}).
  assert (H0 : same_tensor h h0 prototypes 0).
  { exists t. split; [ exact Hp | reflexivity ]. }
  assert (Hv : value_of (orthogonal_loss 0 h0) =
    if Nat.eqb (List.length P) 0 then Raise RuntimeError
    else
      let n := Z.of_nat (List.length P) in
      Ok (Some (T0 (div (squared_gram_sum P) (of_int (n * (n - 1))%Z))))).
  { unfold orthogonal_loss, h0.
    unfold_ops; unfold t_size0, op1, op2, total, bind, read, lift, alloc.
    cbn [nth_error tensors].
    rewrite (size0_prototypes t Hrank), (view_rows_prototypes t Hrank).
    fold P.
    destruct (Nat.eqb (List.length P) 0); [ reflexivity | ].
    cbn -[Nat.mul Nat.eqb Z.mul Z.sub Z.of_nat numel prototype_size].
    rewrite length_map, length_seq, Nat.eqb_refl.
    cbn -[Nat.mul Nat.eqb Z.mul Z.sub Z.of_nat numel prototype_size].
    rewrite mm_transpose by exact HP. reflexivity. }
  destruct (Nat.eqb (List.length P) 0).
  - eapply agree_raise; [ apply det_orthogonal_loss; exact H0 | exact Hv ].
  - eapply agree_value; [ apply det_orthogonal_loss; exact H0 | exact Hv ].
Qed.

(** C9: the prototypes are the slices of the argument along its first
    dimension, [n] of them, each flattened to one row by [view(n, -1)].
    For [n >= 1], [orthogonal_loss] is the sum of the squared entries of
    their Gram matrix divided by [n * (n - 1)], whatever the size of a
    prototype.  For a single prototype the divisor is zero and the
    division is carried out all the same; without prototypes the view
    raises [RuntimeError].  Where a division by zero is not finite, as
    for IEEE numbers, a finite result needs at least two prototypes. *)
Theorem C9_orthogonal_loss (is_finite : num -> bool) (h : store)
    (prototypes : tref) (t : tensor) :
  (forall x, is_finite (div x (of_int 0%Z)) = false) ->
  nth_error (tensors h) prototypes = Some t ->
  well_shaped t ->
  1 <= rank t ->
  let P := prototype_rows t in
  let n := Z.of_nat (List.length P) in
  let result := value_of (orthogonal_loss prototypes h) in
  (List.length P <> 0 ->
   result = Ok (Some (T0 (div (squared_gram_sum P)
                              (of_int (n * (n - 1))%Z))))) /\
  (List.length P = 1 ->
   result = Ok (Some (T0 (div (squared_gram_sum P) (of_int 0%Z))))) /\
  (List.length P = 0 -> result = Raise RuntimeError) /\
  (forall v, result = Ok (Some (T0 v)) -> is_finite v = true ->
             2 <= List.length P).
Proof.
  intros Hfin Hp Ht Hrank P n result.
  pose proof (@orthogonal_loss_value h prototypes t Hp Ht Hrank) as Hv.
  cbv zeta in Hv. fold P in Hv. fold result in Hv. fold n in Hv.
  destruct (Nat.eqb (List.length P) 0) eqn:E.
  - apply Nat.eqb_eq in E.
    split; [ intros Hne; contradiction | ].
    split; [ intros H1; rewrite H1 in E; discriminate | ].
    split; [ intros _; exact Hv | ].
    intros v Hr. rewrite Hv in Hr. discriminate.
  - apply Nat.eqb_neq in E.
    split; [ intros _; exact Hv | ].
    split; [ | split; [ intros H0; contradiction | ] ].
    + intros H1. rewrite Hv. subst n. rewrite H1. reflexivity.
    + intros v Hr Hv'. rewrite Hv in Hr. injection Hr as <-.
      destruct (List.length P) as [|[|k]] eqn:Hlen; [ lia | | lia ].
      exfalso. subst n. cbn in Hv'. rewrite Hfin in Hv'. discriminate.
Qed.

(** ** The other modules of the file *)

(** On logits of shape (batch, classes), [Entropy] returns for each
    sample the entropy of its softmax,
    [-sum_c softmax(x)[i,c] * log_softmax(x)[i,c]]; its [self] is not
    read. *)
Theorem Entropy_value (h : store) (self : mref) (logits : tref)
    (classes : nat) (X : list (list num)) :
  nth_error (tensors h) logits = Some (T2 classes X) ->
  well_shaped (T2 classes X) ->
  exists v,
    value_of (Entropy_call self logits h) = Ok (Some (T1 v)) /\
    List.length v = List.length X /\
    forall i, i < List.length X ->
      nth i v (of_int 0) = neg (cross_term classes X X i).
Proof.
  intros Hx HX. cbn [well_shaped] in HX.
  pose (h0 := {| tensors := [T2 classes X]; indices := [];
                 modules := [] |}).
  assert (Hrun : value_of (Entropy_call 0 0 h0)
                 = Ok (Some (T1 (map neg
                      (map reduce_sum
                         (map2 (map2 mul) (map softmax_row X)
                            (map log_softmax_row X))))))).
  { unfold Entropy_call, h0.
    unfold_ops; unfold op1, op2, total, bind, read, lift, alloc.
    cbn -[elementwise].
    rewrite elementwise_T2 by shape_side. reflexivity. }
  eexists. split; [ | split ].
  - eapply agree_value; [ | exact Hrun ].
    apply det_Entropy.
    exists (T2 classes X). split; [ exact Hx | reflexivity ].
  - shape_side.
  - intros i Hi.
    rewrite nth_map_at with (d' := of_int 0) by shape_side.
    rewrite cross_term_nth with (classes := classes)
      by (assumption || congruence).
    reflexivity.
Qed.


Lemma map2_map_left A B C (f : B -> A -> C) (g : A -> B) l :
  map2 f (map g l) l = map (fun x => f (g x) x) l.
Proof. induction l as [|a l IH]; cbn; [ reflexivity | rewrite IH; reflexivity ]. Qed.

Lemma map2_map_right A B C (f : A -> B -> C) (g : A -> B) l :
  map2 f l (map g l) = map (fun x => f x (g x)) l.
Proof. induction l as [|a l IH]; cbn; [ reflexivity | rewrite IH; reflexivity ]. Qed.

Lemma map2_map_both A B C D (f : B -> C -> D) (g : A -> B) (k : A -> C) l :
  map2 f (map g l) (map k l) = map (fun x => f (g x) (k x)) l.
Proof. induction l as [|a l IH]; cbn; [ reflexivity | rewrite IH; reflexivity ]. Qed.

Lemma rows_map_left (f : num -> num -> num) (k : num -> num)
    (P : list (list num)) :
  map2 (map2 f) (map (map k) P) P = map (map (fun x => f (k x) x)) P.
Proof.
  rewrite map2_map_left. apply map_ext. intros r. apply map2_map_left.
Qed.

Lemma rows_map_right (f : num -> num -> num) (k : num -> num)
    (P : list (list num)) :
  map2 (map2 f) P (map (map k) P) = map (map (fun x => f x (k x))) P.
Proof.
  rewrite map2_map_right. apply map_ext. intros r. apply map2_map_right.
Qed.

Ltac shape_rows :=
  repeat first
    [ assumption
    | reflexivity
    | apply Forall_map_map_length
    | apply Forall_map2_length
    | apply Forall_map_length;
      [ first [ exact softmax_row_length | exact log_softmax_row_length ] | ]
    | rewrite length_map
    | rewrite map2_length
    | congruence ].

(** One term of the soft likelihood ratio, for a clamped probability. *)
Definition likelihood_term (eps p : num) : num :=
  mul p (t_log (add (div p (sub (lit 1) p)) eps)).

(** A [SoftLikelihoodRatio] module keeps the parameters it is built with,
    0.99 and 1e-5 when they are left out.  On logits of shape (batch,
    classes) its call returns for each sample
    [-sum_c p * log(p / (1 - p) + eps)], where [p] is the softmax entry
    clamped to [0, clip]. *)
Theorem SoftLikelihoodRatio_value (h : store) (clip eps : option num)
    (logits : tref) (classes : nat) (X : list (list num)) :
  nth_error (tensors h) logits = Some (T2 classes X) ->
  well_shaped (T2 classes X) ->
  let clip' := default (lit (99 # 100)) clip in
  let eps' := default (lit (1 # 100000)) eps in
  let (r, h1) := SoftLikelihoodRatio_init clip eps h in
  exists self,
    r = Ok self /\
    getattr self "clip" h1 = (Ok clip', h1) /\
    getattr self "eps" h1 = (Ok eps', h1) /\
    value_of (SoftLikelihoodRatio_call self logits h1)
    = Ok (Some (T1
        (map (fun row =>
                neg (reduce_sum
                       (map (fun s =>
                               likelihood_term eps'
                                 (t_clamp s (lit 0) clip'))
                            (softmax_row row))))
             X))).
Proof.
  intros Hx HX clip' eps'. cbn [well_shaped] in HX.
  unfold SoftLikelihoodRatio_init, new_module. fold clip' eps'.
  set (attrs := [("eps", eps'); ("clip", clip')]).
  exists (List.length (modules h)).
  split; [ reflexivity | ].
  assert (Hself : nth_error (modules h ++ [attrs]) (List.length (modules h))
                  = Some attrs) by apply nth_error_snoc.
  split; [ | split ].
  - unfold getattr. cbn [modules]. rewrite Hself. reflexivity.
  - unfold getattr. cbn [modules]. rewrite Hself. reflexivity.
  - pose (h0 := {| tensors := [T2 classes X]; indices := [];
                   modules := [attrs] |}).
    eapply agree_value.
    + apply (det_SoftLikelihoodRatio (h2 := h0) (self2 := 0) (x2 := 0)).
      * exists attrs. split; [ exact Hself | reflexivity ].
      * exists (T2 classes X). split; [ exact Hx | reflexivity ].
    + unfold SoftLikelihoodRatio_call, h0, attrs.
      unfold_ops; unfold op1, op2, total, bind, read, lift, alloc, getattr.
      cbn -[elementwise].
      rewrite elementwise_T2 by shape_rows. cbn -[elementwise].
      rewrite rows_map_left.
      rewrite elementwise_T2 by shape_rows. cbn -[elementwise].
      rewrite rows_map_right.
      rewrite elementwise_T2 by shape_rows. cbn -[elementwise].
      do 3 f_equal.
      rewrite !map_map, map2_map_both, map_map.
      apply map_ext. intros row.
      rewrite !map_map, map2_map_both. reflexivity.
Qed.

(** ** The generalized cross-entropy *)

Definition in_range (classes : nat) (t : Z) : Prop :=
  (0 <= t < Z.of_nat classes)%Z.

Lemma select_in_range (r : list num) (idx : list Z) :
  Forall (in_range (List.length r)) idx ->
  select r idx = Ok (map (fun i => nth (Z.to_nat i) r (of_int 0)) idx).
Proof.
  induction 1 as [|i idx [Hi0 Hi] _ IH]; cbn [select map]; [ reflexivity | ].
  destruct (Z.ltb_spec i 0) as [Hneg|_]; [ lia | ].
  destruct (nth_error r (Z.to_nat i)) as [v|] eqn:E.
  - rewrite IH. rewrite (nth_error_nth _ _ _ E). reflexivity.
  - apply nth_error_None in E. lia.
Qed.

Lemma select_rows_in_range classes (rows : list (list num)) (idx : list Z) :
  Forall (fun r => List.length r = classes) rows ->
  Forall (in_range classes) idx ->
  select_rows rows idx
  = Ok (map (fun r => map (fun i => nth (Z.to_nat i) r (of_int 0)) idx)
            rows).
Proof.
  intros Hrows Hidx.
  induction Hrows as [|r rows Hr _ IH]; cbn [select_rows map];
    [ reflexivity | ].
  rewrite select_in_range by (rewrite Hr; exact Hidx).
  rewrite IH. reflexivity.
Qed.

Lemma range_check_passes classes (idx : list Z) :
  Forall (in_range classes) idx ->
  existsb (fun i => (i <? 0)%Z || (Z.of_nat classes <=? i)%Z) idx = false.
Proof.
  induction 1 as [|i idx [Hi0 Hi] _ IH]; cbn [existsb]; [ reflexivity | ].
  rewrite IH.
  destruct (Z.ltb_spec i 0); [ lia | ].
  destruct (Z.leb_spec (Z.of_nat classes) i); [ lia | ]. reflexivity.
Qed.

Lemma range_check_fails classes (idx : list Z) :
  Exists (fun t => ~ in_range classes t) idx ->
  existsb (fun i => (i <? 0)%Z || (Z.of_nat classes <=? i)%Z) idx = true.
Proof.
  intros H. apply existsb_exists. apply Exists_exists in H.
  destruct H as (t & Hin & Ht). exists t. split; [ exact Hin | ].
  unfold in_range in Ht.
  destruct (Z.ltb_spec t 0); [ reflexivity | ].
  destruct (Z.leb_spec (Z.of_nat classes) t); [ reflexivity | lia ].
Qed.

(** The diagonal of the selected columns pairs each row with the index
    at its own position, as far as both go. *)
Lemma diagonal_selected A (g : A -> Z -> num) (rows : list A) (idx : list Z)
    k :
  diagonal k (map (fun r => map (g r) idx) rows)
  = map (fun ri => g (fst ri) (snd ri)) (combine rows (skipn k idx)).
Proof.
  revert k. induction rows as [|r rows IH]; intros k;
    cbn [map diagonal combine]; [ reflexivity | ].
  rewrite nth_error_map.
  destruct (nth_error idx k) as [i|] eqn:E; cbn [option_map].
  - rewrite IH.
    assert (Hs : skipn k idx = i :: skipn (S k) idx).
    { clear - E. revert k E. induction idx as [|j idx IH]; intros [|k] E;
        cbn in *; try discriminate.
      - injection E as ->. reflexivity.
      - apply IH. exact E. }
    rewrite Hs. reflexivity.
  - apply nth_error_None in E. rewrite skipn_all2 by exact E.
    reflexivity.
Qed.

(** The loss of one sample with the probability [p] of its target. *)
Definition gce_term (q p : num) : num :=
  div (sub (lit 1) (pow p q)) q.

(** With a vector of [targets] given, [GeneralizedCrossEntropy] selects
    for each sample the softmax probability of its target and returns
    [(1 - p ** q) / q].  The samples and the targets are paired by
    position: with fewer targets than samples, or more, the result has
    as many entries as the shorter of the two, and no error is raised.
    A target that is negative or not below the number of classes makes
    [index_select] raise [RuntimeError]. *)
Theorem GeneralizedCrossEntropy_targets (h : store) (self : mref)
    (logits : tref) (targets : iref) (q : num) (classes : nat)
    (X : list (list num)) (ts : list Z) :
  getattr self "q" h = (Ok q, h) ->
  nth_error (tensors h) logits = Some (T2 classes X) ->
  nth_error (indices h) targets = Some (I1 ts) ->
  well_shaped (T2 classes X) ->
  let result :=
    value_of (GeneralizedCrossEntropy_call self logits (Some targets) h) in
  (Forall (in_range classes) ts ->
   result
   = Ok (Some (T1
       (map (fun rt =>
               gce_term q (nth (Z.to_nat (snd rt)) (softmax_row (fst rt))
                             (of_int 0)))
            (combine X ts))))) /\
  (Exists (fun t => ~ in_range classes t) ts -> result = Raise RuntimeError).
Proof.
  intros Hattr Hx Ht HX result.
  apply getattr_Ok in Hattr.
  destruct Hattr as (attrs & kv & Hself & Hfind & Hkv).
  cbn [well_shaped] in HX.
  pose (h0 := {| tensors := [T2 classes X]; indices := [I1 ts];
                 modules := [attrs] |}).
  assert (Hdet : agree same_result h h0
            (GeneralizedCrossEntropy_call self logits (Some targets) h)
            (GeneralizedCrossEntropy_call 0 0 (Some 0) h0)).
  { apply det_GeneralizedCrossEntropy_targets.
    - exists attrs. split; [ exact Hself | reflexivity ].
    - exists (T2 classes X). split; [ exact Hx | reflexivity ].
    - exists (I1 ts). split; [ exact Ht | reflexivity ]. }
  assert (HP : Forall (fun r => List.length r = classes)
                 (map softmax_row X)).
  { apply Forall_map_length; [ exact softmax_row_length | exact HX ]. }
  split.
  - intros Hts. eapply agree_value; [ exact Hdet | ].
    unfold GeneralizedCrossEntropy_call, h0.
    unfold_ops;
      unfold op1, op2, total, bind, read, read_index, lift, alloc, getattr,
        ret, t_index_select_last.
    cbn -[find index_select_last].
    unfold index_select_last.
    rewrite (range_check_passes Hts).
    rewrite (select_rows_in_range HP Hts).
    cbn -[find]. rewrite Hfind. cbn -[find]. rewrite Hfind. cbn -[find].
    rewrite (diagonal_selected
               (fun r i => nth (Z.to_nat i) r (of_int 0))).
    cbn [skipn]. rewrite Hkv, !map_map.
    do 3 f_equal.
    unfold gce_term. clear. revert ts.
    induction X as [|r X IH]; intros [|t ts]; cbn; try reflexivity.
    rewrite IH. reflexivity.
  - intros Hts. eapply agree_raise; [ exact Hdet | ].
    unfold GeneralizedCrossEntropy_call, h0.
    unfold_ops;
      unfold op1, op2, total, bind, read, read_index, lift, alloc, getattr,
        ret, t_index_select_last.
    cbn -[find index_select_last].
    unfold index_select_last.
    rewrite (range_check_fails Hts). reflexivity.
Qed.

Lemma combine_map_both A B C (f : A -> B) (g : A -> C) (l : list A) :
  combine (map f l) (map g l) = map (fun x => (f x, g x)) l.
Proof. induction l as [|a l IH]; cbn; [ reflexivity | rewrite IH; reflexivity ]. Qed.

Lemma argmax_in_range classes (P : list (list num)) :
  classes <> 0 ->
  Forall (fun r => List.length r = classes) P ->
  Forall (in_range classes) (map (fun r => Z.of_nat (argmax_row r)) P).
Proof.
  intros Hc HP. apply Forall_map.
  eapply Forall_impl; [ | exact HP ]. cbv beta. intros r Hr.
  unfold in_range. split; [ lia | ].
  assert (Hne : r <> []) by (destruct r; [ cbn in Hr; congruence | discriminate ]).
  pose proof (argmax_row_range Hne). lia.
Qed.

(** Without [targets], [GeneralizedCrossEntropy] takes for each sample
    the class where its softmax is largest, so that the loss of a sample
    is [(1 - p ** q) / q] for its largest probability [p]; without
    classes there is no largest one and the call raises [IndexError]. *)
Theorem GeneralizedCrossEntropy_default (h : store) (self : mref)
    (logits : tref) (q : num) (classes : nat) (X : list (list num)) :
  getattr self "q" h = (Ok q, h) ->
  nth_error (tensors h) logits = Some (T2 classes X) ->
  well_shaped (T2 classes X) ->
  value_of (GeneralizedCrossEntropy_call self logits None h)
  = if Nat.eqb classes 0 then Raise IndexError
    else
      Ok (Some (T1
        (map (fun row =>
                let p := softmax_row row in
                gce_term q (nth (argmax_row p) p (of_int 0)))
             X))).
Proof.
  intros Hattr Hx HX.
  apply getattr_Ok in Hattr.
  destruct Hattr as (attrs & kv & Hself & Hfind & Hkv).
  cbn [well_shaped] in HX.
  pose (h0 := {| tensors := [T2 classes X]; indices := [];
                 modules := [attrs] |}).
  assert (Hdet : agree same_result h h0
            (GeneralizedCrossEntropy_call self logits None h)
            (GeneralizedCrossEntropy_call 0 0 None h0)).
  { apply det_GeneralizedCrossEntropy_argmax.
    - exists attrs. split; [ exact Hself | reflexivity ].
    - exists (T2 classes X). split; [ exact Hx | reflexivity ]. }
  assert (HP : Forall (fun r => List.length r = classes)
                 (map softmax_row X)).
  { apply Forall_map_length; [ exact softmax_row_length | exact HX ]. }
  destruct (Nat.eqb classes 0) eqn:Hc.
  - eapply agree_raise; [ exact Hdet | ].
    unfold GeneralizedCrossEntropy_call, h0.
    unfold_ops;
      unfold op1, op2, total, bind, read, read_index, lift, alloc, getattr,
        ret, t_index_select_last, t_argmax_dim1, argmax_dim1.
    cbn -[find index_select_last Nat.eqb]. rewrite Hc. reflexivity.
  - apply Nat.eqb_neq in Hc.
    pose proof (argmax_in_range Hc HP) as Hts.
    eapply agree_value; [ exact Hdet | ].
    unfold GeneralizedCrossEntropy_call, h0.
    unfold_ops;
      unfold op1, op2, total, bind, read, read_index, lift, alloc, getattr,
        ret, t_index_select_last, t_argmax_dim1, argmax_dim1, alloc_index.
    cbn -[find index_select_last Nat.eqb].
    apply Nat.eqb_neq in Hc. rewrite Hc.
    cbn -[find index_select_last].
    unfold index_select_last.
    rewrite (range_check_passes Hts).
    rewrite (select_rows_in_range HP Hts).
    cbn -[find]. rewrite Hfind. cbn -[find]. rewrite Hfind. cbn -[find].
    rewrite (diagonal_selected
               (fun r i => nth (Z.to_nat i) r (of_int 0))).
    cbn [skipn]. rewrite Hkv, !map_map.
    do 3 f_equal.
    rewrite combine_map_both.
    rewrite !map_map. apply map_ext. intros row. cbn [fst snd].
    rewrite Nat2Z.id. reflexivity.
Qed.

(** ** Arguments of the wrong shape *)

(** Logits that are not two-dimensional have no dimension 1: the three
    modules that start with [softmax(1)], and the two functions that sum
    along dimension 1, raise [IndexError]; so does [orthogonal_loss] on a
    scalar, which has no dimension 0. *)
Theorem fewer_dimensions_raise (h : store) (self : mref) (x : tref)
    (t : tensor) :
  nth_error (tensors h) x = Some t ->
  rank t < 2 ->
  value_of (Entropy_call self x h) = Raise IndexError /\
  value_of (SoftLikelihoodRatio_call self x h) = Raise IndexError /\
  value_of (GeneralizedCrossEntropy_call self x None h) = Raise IndexError /\
  value_of (entropy_loss x h) = Raise IndexError /\
  value_of (info_max_loss x h) = Raise IndexError /\
  (rank t = 0 -> value_of (orthogonal_loss x h) = Raise IndexError).
Proof.
  intros Hx Hrank.
  assert (Hsoft : forall f, op1 (along_rows f) x h = (Raise IndexError, h)).
  { intros f. unfold op1, bind, read, lift. rewrite Hx.
    destruct t; cbn in *; [ reflexivity | reflexivity | lia | lia ]. }
  assert (Hent : value_of (entropy_loss x h) = Raise IndexError).
  { pose (h0 := {| tensors := [t]; indices := []; modules := [] |}).
    eapply agree_raise.
    - apply (det_entropy_loss (h2 := h0) (x2 := 0)).
      exists t. split; [ exact Hx | reflexivity ].
    - unfold entropy_loss, h0.
      unfold_ops; unfold op1, op2, total, bind, read, lift, alloc.
      destruct t as [v|l|c rows|d1 d2 dims rows]; cbn -[elementwise] in *;
        [ | | lia | lia ].
      + reflexivity.
      + rewrite elementwise_T1 by (rewrite !length_map; reflexivity).
        reflexivity. }
  split; [ | split; [ | split; [ | split; [ | split ] ] ] ].
  - unfold Entropy_call, softmax, bind. rewrite Hsoft. reflexivity.
  - unfold SoftLikelihoodRatio_call, softmax, bind. rewrite Hsoft.
    reflexivity.
  - unfold GeneralizedCrossEntropy_call, softmax, bind. rewrite Hsoft.
    reflexivity.
  - exact Hent.
  - unfold info_max_loss, bind.
    destruct (entropy_loss x h) as [[r|e] h'] eqn:E; cbn in Hent.
    + discriminate.
    + injection Hent as ->. reflexivity.
  - intros H0. unfold orthogonal_loss, t_size0, bind, read, lift.
    rewrite Hx. destruct t; cbn in *; [ reflexivity | discriminate.. ].
Qed.

(** The two logit tensors of [SymmetricCrossEntropy] must broadcast
    against each other: when their numbers of classes differ and neither
    is 1, or their batch sizes differ and neither is 1, the first product
    raises [RuntimeError]. *)
Theorem SymmetricCrossEntropy_shape_mismatch (h : store) (self : mref)
    (x x_ema : tref) (alpha : num) (c c_ema : nat)
    (X X_ema : list (list num)) :
  getattr self "alpha" h = (Ok alpha, h) ->
  nth_error (tensors h) x = Some (T2 c X) ->
  nth_error (tensors h) x_ema = Some (T2 c_ema X_ema) ->
  broadcast_dim (List.length X_ema) (List.length X) = None \/
  broadcast_dim c_ema c = None ->
  value_of (SymmetricCrossEntropy_call self x x_ema h) = Raise RuntimeError.
Proof.
  intros Hattr Hx Hx_ema Hshape.
  apply getattr_Ok in Hattr.
  destruct Hattr as (attrs & kv & Hself & Hfind & Hkv).
  pose (h0 := {| tensors := [T2 c X; T2 c_ema X_ema];
                 indices := []; modules := [attrs] |}).
  eapply agree_raise.
  - apply (det_SymmetricCrossEntropy (h2 := h0) (self2 := 0) (x2 := 0)
             (y2 := 1)).
    + exists attrs. split; [ exact Hself | reflexivity ].
    + exists (T2 c X). split; [ exact Hx | reflexivity ].
    + exists (T2 c_ema X_ema). split; [ exact Hx_ema | reflexivity ].
  - unfold SymmetricCrossEntropy_call, h0.
    unfold_ops; unfold op1, op2, total, bind, read, lift, alloc, getattr.
    cbn -[elementwise find]. rewrite Hfind. cbn -[elementwise find].
    unfold elementwise, as_rows. rewrite !length_map.
    destruct Hshape as [Hr|Hc]; [ rewrite Hr | rewrite Hc ].
    + reflexivity.
    + destruct (broadcast_dim (List.length X_ema) (List.length X));
        reflexivity.
Qed.

End Facts.
End LossFacts.

(* ================================================================== *)
(** * Runs of the losses on double-precision tensors *)
(* ================================================================== *)

Module LossRuns.
Import Losses LossFacts FloatExample.
Local Open Scope string_scope.
Local Open Scope list_scope.
Local Open Scope nat_scope.
#[local] Existing Instance FloatNum.
#[local] Existing Instance FloatLib.

Definition logits : list (list float) :=
  [ [float_of_Z 1; float_of_Z 2]; [float_of_Z 0; float_of_Z 3] ].

Definition logits_ema : list (list float) :=
  [ [float_of_Z 2; float_of_Z 1]; [float_of_Z 1; float_of_Z 1] ].

Definition probabilities : list (list float) :=
  [ [float_of_Q (1 # 4); float_of_Q (3 # 4)];
    [float_of_Q (1 # 2); float_of_Q (1 # 2)] ].

Definition one_prototype : list (list float) :=
  [ [float_of_Z 3; float_of_Z 4] ].

Definition two_prototypes : list (list float) :=
  [ [float_of_Z 1; float_of_Z 0]; [float_of_Z 0; float_of_Z 1] ].

(** The tensors above, and a [SymmetricCrossEntropy] module built with
    the default weight. *)
Definition float_store : store := {|
  tensors := [ T2 2 logits; T2 2 logits_ema; T2 2 probabilities;
               T2 2 one_prototype; T2 2 two_prototypes ];
  indices := [];
  modules := [ [("alpha", float_of_Q (1 # 2))] ]
|}.

Lemma two_columns (a b c d : float) :
  Forall (fun r : list float => List.length r = 2%nat) [ [a; b]; [c; d] ].
Proof. repeat constructor. Qed.

Lemma two_columns_one_row (a b : float) :
  Forall (fun r : list float => List.length r = 2%nat) [ [a; b] ].
Proof. repeat constructor. Qed.

(** A single prototype: the Gram matrix is [[25]], and 625 / 0 is
    infinite. *)
Lemma orthogonal_loss_one_prototype :
  value_of (orthogonal_loss 3 float_store)
  = Ok (Some (T0 PrimFloat.infinity)).
Proof. reflexivity. Qed.

(** Two orthonormal prototypes: the Gram matrix is the identity, and the
    loss is 2 / 2. *)
Lemma orthogonal_loss_two_prototypes :
  value_of (orthogonal_loss 4 float_store)
  = Ok (Some (T0 (float_of_Z 1))).
Proof. reflexivity. Qed.

(** The store after a call begins with the store before it. *)
Lemma info_max_loss_allocates :
  firstn 5 (tensors (snd (info_max_loss 2 float_store)))
  = tensors float_store /\
  modules (snd (info_max_loss 2 float_store)) = modules float_store.
Proof. split; reflexivity. Qed.


(** Prototypes of other shapes: two prototypes of the shape (1, 2),
    two prototypes without entries, and no prototype at all. *)
Definition prototype_store : store := {|
  tensors := [ TN 1 2 [] two_prototypes; T2 0 [ []; [] ]; T2 2 [] ];
  indices := [];
  modules := []
|}.

Lemma no_columns :
  Forall (fun r : list float => List.length r = 0) [ []; [] ].
Proof. repeat constructor. Qed.

(** The two prototypes of the shape (1, 2) are flattened to the rows of
    [two_prototypes]: the loss is 2 / 2 again. *)
Lemma orthogonal_loss_flattened :
  value_of (orthogonal_loss 0 prototype_store)
  = Ok (Some (T0 (float_of_Z 1))).
Proof. reflexivity. Qed.

(** Two prototypes without entries: the Gram matrix holds four zeros,
    and the loss is 0 / 2. *)
Lemma orthogonal_loss_empty_prototypes :
  value_of (orthogonal_loss 1 prototype_store)
  = Ok (Some (T0 (float_of_Z 0))).
Proof. reflexivity. Qed.

Lemma C9_witness :
  value_of (orthogonal_loss 3 float_store)
  = Ok (Some (T0 (PrimFloat.div (squared_gram_sum one_prototype)
                                (float_of_Z 0)))) /\
  value_of (orthogonal_loss 0 prototype_store)
  = Ok (Some (T0 (PrimFloat.div (squared_gram_sum two_prototypes)
                                (float_of_Z 2)))) /\
  value_of (orthogonal_loss 1 prototype_store)
  = Ok (Some (T0 (PrimFloat.div (squared_gram_sum [ []; [] ])
                                (float_of_Z 2)))) /\
  value_of (orthogonal_loss 2 prototype_store) = Raise RuntimeError.
Proof.
  split; [ | split; [ | split ] ].
  - pose proof (@C9_orthogonal_loss FloatNum FloatLib PrimFloat.is_finite
                  float_store 3 (T2 2 one_prototype)
                  div_zero_not_finite eq_refl (two_columns_one_row _ _)
                  (le_S _ _ (le_n 1)))
      as (_ & H & _).
    apply H. reflexivity.
  - pose proof (@C9_orthogonal_loss FloatNum FloatLib PrimFloat.is_finite
                  prototype_store 0 (TN 1 2 [] two_prototypes)
                  div_zero_not_finite eq_refl (two_columns _ _ _ _)
                  (le_S _ _ (le_S _ _ (le_n 1))))
      as (H & _).
    apply H. discriminate.
  - pose proof (@C9_orthogonal_loss FloatNum FloatLib PrimFloat.is_finite
                  prototype_store 1 (T2 0 [ []; [] ])
                  div_zero_not_finite eq_refl
                  no_columns
                  (le_S _ _ (le_n 1)))
      as (H & _).
    apply H. discriminate.
  - pose proof (@C9_orthogonal_loss FloatNum FloatLib PrimFloat.is_finite
                  prototype_store 2 (T2 2 [])
                  div_zero_not_finite eq_refl (Forall_nil _)
                  (le_S _ _ (le_n 1)))
      as (_ & _ & H & _).
    apply H. reflexivity.
Defined.

Lemma C10_witness :
  let ent := float_mean (map entropy_of probabilities) in
  let div := entropy_of (mean_distribution 2 probabilities) in
  value_of (entropy_loss 2 float_store) = Ok (Some (T0 ent)) /\
  value_of (diversity_loss 2 float_store) = Ok (Some (T0 div)) /\
  value_of (info_max_loss 2 float_store)
  = Ok (Some (T0 (PrimFloat.sub ent div))).
Proof.
  exact (@C10_info_max FloatNum FloatLib float_store 2%nat 2%nat
           probabilities eq_refl (two_columns _ _ _ _)).
Defined.

(** ** Runs for the other modules *)

(** A second store: logits, a vector, a single row of three classes,
    two tensors of targets, the second with a class that does not exist,
    and two modules. *)
Definition float_store_2 : store := {|
  tensors := [ T2 2 logits; T2 2 logits_ema;
               T1 [float_of_Z 1; float_of_Z 2];
               T2 3 [ [float_of_Z 1; float_of_Z 2; float_of_Z 3] ] ];
  indices := [ I1 [1; 0]%Z; I1 [2; 0]%Z ];
  modules := [ [("alpha", float_of_Q (1 # 2))];
               [("q", float_of_Q (8 # 10))] ]
|}.

Lemma Entropy_value_witness :
  exists v,
    value_of (Entropy_call 0 0 float_store) = Ok (Some (T1 v)) /\
    List.length v = 2 /\
    forall i, i < 2 ->
      nth i v (float_of_Z 0) = PrimFloat.opp (cross_term 2 logits logits i).
Proof.
  exact (@Entropy_value FloatNum FloatLib float_store 0 0 2 logits
           eq_refl (two_columns _ _ _ _)).
Defined.


Lemma SoftLikelihoodRatio_value_witness :
  let (r, h1) := SoftLikelihoodRatio_init None None float_store in
  exists self,
    r = Ok self /\
    getattr self "clip" h1 = (Ok (float_of_Q (99 # 100)), h1) /\
    getattr self "eps" h1 = (Ok (float_of_Q (1 # 100000)), h1) /\
    value_of (SoftLikelihoodRatio_call self 0 h1)
    = Ok (Some (T1
        (map (fun row =>
                PrimFloat.opp
                  (float_sum
                     (map (fun s =>
                             likelihood_term (float_of_Q (1 # 100000))
                               (float_clamp s (float_of_Q 0)
                                  (float_of_Q (99 # 100))))
                          (float_softmax_row row))))
             logits))).
Proof.
  exact (@SoftLikelihoodRatio_value FloatNum FloatLib float_store None None
           0 2 logits eq_refl (two_columns _ _ _ _)).
Defined.

Lemma targets_in_range : Forall (in_range 2) [1; 0]%Z.
Proof. repeat constructor; unfold in_range; cbn; lia. Qed.

Lemma targets_out_of_range :
  Exists (fun t => ~ in_range 2 t) [2; 0]%Z.
Proof. apply Exists_cons_hd. unfold in_range. cbn. lia. Qed.

Lemma GeneralizedCrossEntropy_targets_witness :
  value_of (GeneralizedCrossEntropy_call 1 0 (Some 0) float_store_2)
  = Ok (Some (T1
      (map (fun rt =>
              gce_term (float_of_Q (8 # 10))
                (nth (Z.to_nat (snd rt)) (float_softmax_row (fst rt))
                   (float_of_Z 0)))
           (combine logits [1; 0]%Z)))) /\
  value_of (GeneralizedCrossEntropy_call 1 0 (Some 1) float_store_2)
  = Raise RuntimeError.
Proof.
  split.
  - exact (proj1 (@GeneralizedCrossEntropy_targets FloatNum FloatLib
                    float_store_2 1 0 0 (float_of_Q (8 # 10)) 2 logits
                    [1; 0]%Z eq_refl eq_refl eq_refl (two_columns _ _ _ _))
             targets_in_range).
  - exact (proj2 (@GeneralizedCrossEntropy_targets FloatNum FloatLib
                    float_store_2 1 0 1 (float_of_Q (8 # 10)) 2 logits
                    [2; 0]%Z eq_refl eq_refl eq_refl (two_columns _ _ _ _))
             targets_out_of_range).
Defined.

Lemma GeneralizedCrossEntropy_default_witness :
  value_of (GeneralizedCrossEntropy_call 1 0 None float_store_2)
  = Ok (Some (T1
      (map (fun row =>
              let p := float_softmax_row row in
              gce_term (float_of_Q (8 # 10))
                (nth (float_argmax_row p) p (float_of_Z 0)))
           logits))).
Proof.
  exact (@GeneralizedCrossEntropy_default FloatNum FloatLib float_store_2
           1 0 (float_of_Q (8 # 10)) 2 logits eq_refl eq_refl
           (two_columns _ _ _ _)).
Defined.

Lemma fewer_dimensions_raise_witness :
  value_of (Entropy_call 0 2 float_store_2) = Raise IndexError /\
  value_of (entropy_loss 2 float_store_2) = Raise IndexError.
Proof.
  assert (Hrank : rank (T1 [float_of_Z 1; float_of_Z 2]) < 2)
    by (cbn; lia).
  pose proof (@fewer_dimensions_raise FloatNum FloatLib float_store_2 0 2
                _ eq_refl Hrank) as (H1 & _ & _ & H4 & _).
  split; [ exact H1 | exact H4 ].
Defined.

Lemma SymmetricCrossEntropy_shape_mismatch_witness :
  value_of (SymmetricCrossEntropy_call 0 0 3 float_store_2)
  = Raise RuntimeError.
Proof.
  exact (@SymmetricCrossEntropy_shape_mismatch FloatNum FloatLib
           float_store_2 0 0 3 (float_of_Q (1 # 2)) 2 3 logits
           [ [float_of_Z 1; float_of_Z 2; float_of_Z 3] ]
           eq_refl eq_refl eq_refl (or_intror eq_refl)).
Defined.

End LossRuns.

(* ================================================================== *)
(** * Runs of the driver in the example world *)
(* ================================================================== *)

Import Example.
Local Open Scope string_scope.
Local Open Scope list_scope.

Lemma run_eq A (p : outcome A * dstate) (a : A) :
  fst p = Ok a -> p = (Ok a, snd p).
Proof. destruct p as [r s]. cbn. intros ->. reflexivity. Qed.

Lemma setup_continual :
  fst (setup "Evaluation." (initial w_continual)) = Ok ctx_continual.
Proof. reflexivity. Qed.

Lemma setup_imagenet_d :
  fst (setup "Evaluation." (initial w_imagenet_d)) = Ok ctx_imagenet_d.
Proof. reflexivity. Qed.

Lemma setup_mixed :
  fst (setup "Evaluation." (initial w_mixed)) = Ok ctx_mixed.
Proof. reflexivity. Qed.

Lemma run_continual : fst (evaluate "Evaluation." w_continual) = Ok tt.
Proof. reflexivity. Qed.

Lemma setup_gradual :
  fst (setup "Evaluation." (initial w_gradual)) = Ok ctx_gradual.
Proof. reflexivity. Qed.

Lemma run_gradual : fst (evaluate "Evaluation." w_gradual) = Ok tt.
Proof. vm_compute. reflexivity. Qed.

(** The plan of [c] with the configured severities in the place of the
    severities that [evaluate] has bound. *)
Definition configured_plan (c : ctx) : list step_call :=
  planned_calls
    {| cfg := cfg c; device := device c;
       model_preprocess := model_preprocess c; model := model c;
       domain_sequence := domain_sequence c;
       domain_seq_loop := domain_seq_loop c;
       severities := CORRUPTION_SEVERITY (cfg c) |}.

(** Two runs that reach the evaluation phase and do not make one call of
    each routine for each combination of subgroup, cycle, domain and
    configured severity.  In the mixed-domains setting the plan has 30
    combinations, and the run stops with an [IndexError] after one call
    of each routine.  In the gradual setting with the configured
    severity 3 the run completes, and it has gone through the ramp of
    nine severities for each domain: 270 calls of each routine, where
    the configured severity gives 30, and the first of them at severity
    1. *)
Lemma C1_counterexample :
  (fst (setup "Evaluation." (initial w_mixed)) = Ok ctx_mixed /\
   fst (evaluate "Evaluation." w_mixed) = Raise IndexError /\
   List.length (combinations ctx_mixed) = 30%nat /\
   step_calls (trace (snd (evaluate "Evaluation." w_mixed)))
   = [ LoaderCall "mixed_domains" "mixed" 5;
       AccuracyCall "mixed_domains" "mixed" ]) /\
  (fst (setup "Evaluation." (initial w_gradual)) = Ok ctx_gradual /\
   fst (evaluate "Evaluation." w_gradual) = Ok tt /\
   CORRUPTION_SEVERITY (cfg ctx_gradual) = [3%Z] /\
   List.length (configured_plan ctx_gradual) = 60%nat /\
   List.length (step_calls (trace (snd (evaluate "Evaluation." w_gradual))))
   = 540%nat /\
   firstn 4 (step_calls (trace (snd (evaluate "Evaluation." w_gradual))))
   = [ LoaderCall "gradual" "gaussian_noise" 1;
       AccuracyCall "gradual" "gaussian_noise";
       LoaderCall "gradual" "gaussian_noise" 2;
       AccuracyCall "gradual" "gaussian_noise" ] /\
   step_calls (trace (snd (evaluate "Evaluation." w_gradual)))
   <> configured_plan ctx_gradual).
Proof.
  split.
  - split; [ exact setup_mixed | ].
    repeat split; vm_compute; reflexivity.
  - split; [ exact setup_gradual | ].
    split; [ exact run_gradual | ].
    split; [ reflexivity | ].
    split; [ vm_compute; reflexivity | ].
    split; [ vm_compute; reflexivity | ].
    split; [ vm_compute; reflexivity | ].
    intros E. apply (f_equal (@List.length step_call)) in E.
    vm_compute in E. discriminate E.
Qed.

Lemma C1_witness :
  (let c := ctx_continual in
   let run := evaluate "Evaluation." w_continual in
   fst run = Ok tt /\
   severities c = [5%Z] /\
   step_calls (trace (snd run)) = planned_calls c ++ mixed_pass_calls c /\
   List.length (planned_calls c ++ mixed_pass_calls c) = 60%nat) /\
  (let c := ctx_gradual in
   let run := evaluate "Evaluation." w_gradual in
   fst run = Ok tt /\
   severities c = [1; 2; 3; 4; 5; 4; 3; 2; 1]%Z /\
   step_calls (trace (snd run)) = planned_calls c ++ mixed_pass_calls c /\
   List.length (planned_calls c ++ mixed_pass_calls c) = 540%nat).
Proof.
  split.
  - intros c run.
    split; [ exact run_continual | ].
    destruct (C1_iteration_plan _ _ (run_eq _ setup_continual))
      as (_ & Hsev & _ & H).
    split; [ exact Hsev | ].
    split; [ | vm_compute; reflexivity ].
    fold run in H. pose proof run_continual as Hr. fold run in Hr.
    destruct run as [r s]. apply H. exact Hr.
  - intros c run.
    split; [ exact run_gradual | ].
    destruct (C1_iteration_plan _ _ (run_eq _ setup_gradual))
      as (_ & Hsev & _ & H).
    split; [ exact Hsev | ].
    split; [ | vm_compute; reflexivity ].
    fold run in H. pose proof run_gradual as Hr. fold run in Hr.
    destruct run as [r s]. apply H. exact Hr.
Defined.

(** The errors that the run in [w_continual] records in the loop, by
    subgroup and cycle: the model of the example errs on one sample in
    [k + 2] after [k] batches, and is reset at the start of a subgroup. *)
Definition continual_cycles : list cycle_pair :=
  [ ([1 # 2; 1 # 3; 1 # 4], [1 # 5; 1 # 6; 1 # 7]);
    ([1 # 2; 1 # 3; 1 # 4; 1 # 5], [1 # 6; 1 # 7; 1 # 8; 1 # 9]);
    ([1 # 2; 1 # 3; 1 # 4], [1 # 5; 1 # 6; 1 # 7]);
    ([1 # 2; 1 # 3], [1 # 4; 1 # 5]);
    ([1 # 2; 1 # 3; 1 # 4], [1 # 5; 1 # 6; 1 # 7]) ]%Q.

Lemma app_split_at A (a b l : list A) n :
  a ++ b = l -> List.length a = n -> a = firstn n l /\ b = skipn n l.
Proof.
  intros <- <-. split.
  - rewrite firstn_app, Nat.sub_diag, firstn_all. cbn.
    rewrite app_nil_r. reflexivity.
  - rewrite skipn_app, Nat.sub_diag, skipn_all. reflexivity.
Qed.

(** The recorded errors and the sizes of the cycles leave one way to
    split the errors into cycles. *)
Lemma cycles_of_continual (c : ctx) (ps : list cycle_pair)
    (mixed : list Q) :
  map (cycle_size c) subgroups = [3; 4; 3; 2; 3]%nat ->
  Forall2 (full_cycles c) subgroups ps ->
  flat_map (fun p : cycle_pair => fst p ++ snd p) continual_cycles
  = flat_map (fun p : cycle_pair => fst p ++ snd p) ps ++ mixed ->
  ps = continual_cycles.
Proof.
  intros Hsizes Hps He. symmetry in He.
  unfold subgroups in Hps, Hsizes. cbn [map] in Hsizes.
  injection Hsizes as E1 E2 E3 E4 E5.
  repeat match goal with
         | H : Forall2 _ (_ :: _) _ |- _ =>
             inversion H as [|? [? ?] ? ? (?Hl1 & ?Hl2 & _) ?]; subst;
             clear H
         | H : Forall2 _ [] _ |- _ => inversion H; subst; clear H
         end.
  cbn [fst snd] in *.
  rewrite ?E1, ?E2, ?E3, ?E4, ?E5 in *.
  cbn [flat_map fst snd continual_cycles app] in He.
  rewrite <- ?app_assoc in He.
  repeat match goal with
         | H : List.length ?l = _, He : ?l ++ _ = _ |- _ =>
             let Ha := fresh "Ha" in
             let Hb := fresh "Hb" in
             destruct (app_split_at _ _ He H) as [Ha Hb];
             cbn [firstn skipn] in Ha, Hb;
             clear He H; rename Hb into He; subst l
         end.
  reflexivity.
Qed.

Lemma errs_continual :
  errs (snd (evaluate "Evaluation." w_continual))
  = flat_map (fun p : cycle_pair => fst p ++ snd p) continual_cycles.
Proof. vm_compute. reflexivity. Qed.

Lemma sizes_continual :
  map (cycle_size ctx_continual) subgroups = [3; 4; 3; 2; 3]%nat.
Proof. vm_compute. reflexivity. Qed.

Lemma C3_witness :
  reports (trace (snd (evaluate "Evaluation." w_continual)))
  = flat_map (fun sp : py_range * cycle_pair =>
                let (subgroup, p) := sp in
                let (cycle_1, cycle_2) := p in
                [ CycleReport subgroup 1 (arithmetic_mean cycle_1);
                  CycleReport subgroup 2 (arithmetic_mean cycle_2);
                  SubgroupReport subgroup
                    (arithmetic_mean [arithmetic_mean cycle_1;
                                      arithmetic_mean cycle_2]) ])
             (combine subgroups continual_cycles)
      ++ [ TotalReport
             (arithmetic_mean
                (map (fun p : cycle_pair =>
                        arithmetic_mean [arithmetic_mean (fst p);
                                         arithmetic_mean (snd p)])
                     continual_cycles)) ] /\
  (arithmetic_mean [1 # 2; 1 # 3; 1 # 4] == 13 # 36)%Q /\
  (arithmetic_mean [1 # 5; 1 # 6; 1 # 7] == 107 # 630)%Q /\
  (arithmetic_mean [arithmetic_mean [1 # 2; 1 # 3; 1 # 4];
                    arithmetic_mean [1 # 5; 1 # 6; 1 # 7]] == 223 # 840)%Q.
Proof.
  destruct (C3_reported_averages _ _ (run_eq _ setup_continual)
              (run_eq _ run_continual)) as (ps & _ & Hps & (mixed & He) & H).
  rewrite errs_continual in He.
  rewrite (@cycles_of_continual ctx_continual ps mixed sizes_continual
             Hps He) in H.
  split; [ exact H | ].
  split; [ reflexivity | split; reflexivity ].
Defined.

Lemma C4_witness :
  evaluate "Evaluation." w_invalid
  = (Raise (AssertionError (SettingNotSupported "episodic" valid_settings)),
     set_world w_invalid
       [EvCall (load_cfg_from_args "Evaluation.") None]
       (initial w_invalid)).
Proof.
  refine (proj1 (proj2 (proj2
    (C4_setting_validation (description := "Evaluation.") w_invalid
       (w' := w_invalid) (cfg := w_cfg w_invalid) eq_refl)) _)).
  cbn. intros H.
  repeat (destruct H as [H|H]; [ discriminate H | ]). discriminate H.
Defined.

(** With the five built-in domains of ImageNet-D and no severity level the
    looped sequence has fewer than 15 entries, and yet the run does not
    end in an [IndexError]: the first cycle records no error and its
    average divides by zero. *)
Lemma C7_counterexample :
  fst (setup "Evaluation." (initial w_imagenet_d)) = Ok ctx_imagenet_d /\
  List.length (domain_seq_loop ctx_imagenet_d) = 5%nat /\
  fst (evaluate "Evaluation." w_imagenet_d) = Raise ZeroDivisionError.
Proof.
  split; [ exact setup_imagenet_d | ].
  split; [ reflexivity | vm_compute; reflexivity ].
Qed.

Lemma C7_witness :
  let (r, s) := evaluate "Evaluation." w_mixed in
  exists e,
    r = Raise e /\
    (severities ctx_mixed <> [] \/
     (List.length (domain_seq_loop ctx_mixed) < 3)%nat ->
     e = IndexError \/ env_failure e s).
Proof.
  assert (Hlen : (List.length (domain_seq_loop ctx_mixed) < 15)%nat)
    by (cbn; lia).
  pose proof (C7_short_sequence "Evaluation." w_mixed
                (run_eq _ setup_mixed) Hlen) as [_ H].
  exact H.
Defined.

Lemma run_continual_mixed :
  fst (evaluate "Evaluation." w_continual_mixed) = Ok tt.
Proof. reflexivity. Qed.

(** In the [continual_mixed_domain] run the last evaluation is that of the
    mixed stream at severity 5, in the final pass.  Its accuracy is 0, and
    the error 1 is recorded in the global list and in the severity-5 list;
    no cycle is current there, and the cycle list still holds the three
    errors of the last cycle of the last subgroup. *)
Lemma C2_counterexample :
  let run := evaluate "Evaluation." w_continual_mixed in
  fst run = Ok tt /\
  last (step_calls (trace (snd run))) (AccuracyCall "" "")
    = AccuracyCall "mixed_domains" "mixed" /\
  List.length (errs (snd run)) = 31%nat /\
  last (errs (snd run)) 0%Q = 1%Q /\
  last (errs_5 (snd run)) 0%Q = 1%Q /\
  cycle_errs (snd run) = [ 1 # 29; 1 # 30; 1 # 31 ]%Q /\
  ~ In 1%Q (cycle_errs (snd run)).
Proof.
  repeat split; try (vm_compute; reflexivity).
  vm_compute. intros [H|[H|[H|[]]]]; discriminate H.
Qed.

(** ** Runs for the further properties of the driver *)

Lemma completed_run_size_witness :
  (15 <= List.length (domain_seq_loop ctx_continual))%nat /\
  List.length (errs (snd (evaluate "Evaluation." w_continual)))
  = (30 * List.length (severities ctx_continual)
     + mixed_pass_size ctx_continual)%nat.
Proof.
  pose proof (completed_run_size _ _ (run_eq _ setup_continual)
                (run_eq _ run_continual)) as (H15 & _ & _ & Hlen).
  split; [ exact H15 | exact Hlen ].
Defined.

Lemma empty_severities_divide_by_zero_witness :
  let (r, s) := evaluate "Evaluation." w_imagenet_d in
  (exists e, r = Raise e /\ (e = ZeroDivisionError \/ env_failure e s)) /\
  step_calls (trace s) = [].
Proof.
  assert (Hlen : (3 <= List.length (domain_seq_loop ctx_imagenet_d))%nat)
    by (cbn; lia).
  exact (empty_severities_divide_by_zero "Evaluation." w_imagenet_d
           (run_eq _ setup_imagenet_d) eq_refl Hlen).
Defined.

Lemma loader_arguments_witness :
  Forall (loaders_ok ctx_continual)
         (trace (snd (evaluate "Evaluation." w_continual))).
Proof.
  exact (loader_arguments "Evaluation." w_continual
           (run_eq _ setup_continual)).
Defined.

Lemma resets_and_transforms_witness :
  let run := evaluate "Evaluation." w_continual in
  landmarks (trace (snd run)) = evaluation_landmarks ctx_continual /\
  filter is_reset (landmarks (trace (snd run)))
  = [ Reset; Reset; Reset; Reset; Reset ].
Proof.
  intros run.
  pose proof (resets_and_transforms "Evaluation." w_continual
                (run_eq _ setup_continual)) as H.
  fold run in H. pose proof run_continual as Hr. fold run in Hr.
  destruct run as [r s]. cbn [fst snd] in *.
  destruct H as [_ H]. apply H. exact Hr.
Defined.

Lemma reported_across_subgroups_witness :
  summaries (trace (snd (evaluate "Evaluation." w_continual)))
  = [ AcrossReport 1
        (arithmetic_mean
           (map (fun p => arithmetic_mean (fst p)) continual_cycles));
      AcrossReport 2
        (arithmetic_mean
           (map (fun p => arithmetic_mean (snd p)) continual_cycles)) ]
      ++ map (fun ip : Z * cycle_pair =>
                FinalReport (fst ip)
                  (arithmetic_mean [arithmetic_mean (fst (snd ip));
                                    arithmetic_mean (snd (snd ip))]))
             (combine [1; 2; 3; 4; 5]%Z continual_cycles) /\
  (arithmetic_mean
     (map (fun p => arithmetic_mean (fst p)) continual_cycles)
   == 437 # 1200)%Q.
Proof.
  destruct (reported_across_subgroups _ _ (run_eq _ setup_continual)
              (run_eq _ run_continual)) as (ps & Hps & (mixed & He) & H).
  rewrite errs_continual in He.
  rewrite (@cycles_of_continual ctx_continual ps mixed sizes_continual
             Hps He) in H.
  split; [ exact H | reflexivity ].
Defined.

Lemma setup_context_witness : context_ok ctx_imagenet_d.
Proof.
  exact (setup_context "Evaluation." w_imagenet_d
           (run_eq _ setup_imagenet_d)).
Defined.

(** The run of the mixed-domains setting never reaches the end of the
    function: it stops at the second domain index of the first cycle. *)
Lemma run_mixed_stops :
  fst (evaluate "Evaluation." w_mixed) = Raise IndexError /\
  landmarks (trace (snd (evaluate "Evaluation." w_mixed)))
  = [ Reset; Load "mixed" 5; ReadTransform; Accuracy "mixed" ].
Proof. split; vm_compute; reflexivity. Qed.


Lemma final_mean_errors_witness :
  let s := snd (evaluate "Evaluation." w_continual) in
  means (trace s) = final_means s /\
  List.length (errs s) = 30%nat.
Proof.
  exact (final_mean_errors _ _ (run_eq _ setup_continual)
           (run_eq _ run_continual)).
Defined.


(** A configuration whose adaptation is not in the registry of the
    example world. *)
Definition cfg_unregistered : @Cfg QNum :=
  let base := w_cfg w_continual in
  {| SETTING := SETTING base;
     MODEL_ADAPTATION := "cotta";
     MODEL_CKPT_PATH := MODEL_CKPT_PATH base;
     MODEL_USE_CLIP := MODEL_USE_CLIP base;
     CORRUPTION_DATASET := CORRUPTION_DATASET base;
     CORRUPTION_TYPE := CORRUPTION_TYPE base;
     CORRUPTION_SEVERITY := CORRUPTION_SEVERITY base;
     CORRUPTION_NUM_EX := CORRUPTION_NUM_EX base;
     Ours_LOSSES := Ours_LOSSES base;
     DATA_DIR := DATA_DIR base;
     RNG_SEED := RNG_SEED base;
     TEST_N_AUGMENTATIONS := TEST_N_AUGMENTATIONS base;
     TEST_DELTA_DIRICHLET := TEST_DELTA_DIRICHLET base;
     TEST_BATCH_SIZE := TEST_BATCH_SIZE base;
     TEST_NUM_WORKERS := TEST_NUM_WORKERS base;
     TEST_DEBUG := TEST_DEBUG base;
     PRINT_EVERY := PRINT_EVERY base;
     CKPT_DIR := CKPT_DIR base |}.

Definition w_unregistered : xworld := example_world cfg_unregistered true.

(** The unregistered adaptation is rejected after the model was built;
    the unsupported setting before. *)
Lemma run_unregistered :
  let run := evaluate "Evaluation." w_unregistered in
  fst run
  = Raise (AssertionError
             (AdaptationNotSupported "cotta" [ "source"; "tent"; "ours" ])) /\
  setup_marks (trace (snd run))
  = [ BuiltModel; AttachedPreprocess; ListedAdaptations ] /\
  setup_marks (trace (snd (evaluate "Evaluation." w_invalid))) = [].
Proof. repeat split; vm_compute; reflexivity. Qed.
